(** * TheRoaster: entitlement-gated credential issuance and daily quotas

    A shallow embedding of [db.js] (the [api_keys] table operations) and of
    the server module (helpers, the nonce / claim / roast route handlers),
    followed by the properties of the specification that were checked
    against it.

    Conventions of the embedding.
    - A JavaScript string is a [string]: one [ascii] per UTF-16 code unit,
      restricted to the Latin-1 range (which is also how Node decodes HTTP
      header values).
    - Instants are [Z], milliseconds since the epoch, for [Date.now()],
      [Date] values, Redis deadlines and the timestamps of PostgreSQL.  A
      handler invocation happens at one instant [now]; all clocks agree.
    - The Redis keyspace is a [gmap string entry]; the [api_keys] table is a
      [list Row] in insertion order.
    - External collaborators (ethers, the ledger contract, SHA-256, the
      text generator) are fields of a record [Env]; a call that throws
      returns [None]. *)

From Stdlib Require Import ZArith List Bool Ascii String Lia.
From Stdlib Require Strings.Byte.
From Stdlib Require Import Init.Byte.
From stdpp Require Import base option gmap strings list pretty.

Local Open Scope string_scope.
Local Open Scope Z_scope.

(** ** JavaScript string primitives *)
Module JS.

Definition code (a : ascii) : Z := Z.of_N (N_of_ascii a).

Definition chr (z : Z) : ascii := ascii_of_N (Z.to_N z).

(** [\s] of a regular expression and the set removed by [trim()], on
    Latin-1: TAB, LF, VT, FF, CR, SP, NBSP. *)
Definition is_space (a : ascii) : bool :=
  let c := code a in
  ((9 <=? c) && (c <=? 13)) || (c =? 32) || (c =? 160).

(** The characters [.] does not match (no [s] flag): LF and CR. *)
Definition is_line_terminator (a : ascii) : bool :=
  let c := code a in (c =? 10) || (c =? 13).

Fixpoint trimStart (s : string) : string :=
  match s with
  | String a r => if is_space a then trimStart r else s
  | EmptyString => EmptyString
  end.

Fixpoint trimEnd (s : string) : string :=
  match s with
  | String a r =>
      match trimEnd r with
      | EmptyString => if is_space a then EmptyString else String a EmptyString
      | r' => String a r'
      end
  | EmptyString => EmptyString
  end.

Definition trim (s : string) : string := trimEnd (trimStart s).

(** [s.slice(0, n)] *)
Fixpoint slice0 (n : nat) (s : string) : string :=
  match n, s with
  | S n', String a r => String a (slice0 n' r)
  | _, _ => EmptyString
  end.

(** [s.slice(n)] *)
Fixpoint drop (n : nat) (s : string) : string :=
  match n, s with
  | S n', String _ r => drop n' r
  | _, _ => s
  end.

Fixpoint filter (p : ascii -> bool) (s : string) : string :=
  match s with
  | String a r => if p a then String a (filter p r) else filter p r
  | EmptyString => EmptyString
  end.

Fixpoint forallb (p : ascii -> bool) (s : string) : bool :=
  match s with
  | String a r => p a && forallb p r
  | EmptyString => true
  end.

Definition lower_char (a : ascii) : ascii :=
  let c := code a in
  if ((65 <=? c) && (c <=? 90))
     || ((192 <=? c) && (c <=? 222) && negb (c =? 215))
  then chr (c + 32) else a.

Fixpoint toLowerCase (s : string) : string :=
  match s with
  | String a r => String (lower_char a) (toLowerCase r)
  | EmptyString => EmptyString
  end.

(** Truthiness of a string: non-empty. *)
Definition truthy (s : string) : bool :=
  match s with EmptyString => false | _ => true end.

(** [sep]-joined lines, as [Array.prototype.join]. *)
Fixpoint join (sep : string) (l : list string) : string :=
  match l with
  | [] => EmptyString
  | [x] => x
  | x :: r => x +:+ sep +:+ join sep r
  end.

(** Case-insensitive match of a literal ASCII word at the start of [s]
    (flag [i] without [u]: only the two cases of a letter match). *)
Fixpoint strip_prefix_ci (w s : string) : option string :=
  match w, s with
  | EmptyString, _ => Some s
  | String x w', String a r =>
      if Ascii.eqb (lower_char x) (lower_char a) && (code a <? 128)
      then strip_prefix_ci w' r else None
  | String _ _, EmptyString => None
  end.

(** The longest run of [\s] at the start of [s]. *)
Fixpoint space_run (s : string) : nat :=
  match s with
  | String a r => if is_space a then S (space_run r) else O
  | EmptyString => O
  end.

End JS.

(** ** Encodings of random bytes ([Buffer.toString]) *)
Module Encoding.

Definition hex_digit (n : Z) : ascii :=
  if n <? 10 then JS.chr (48 + n) else JS.chr (87 + n).

Definition byteZ (b : byte) : Z := Z.of_N (Byte.to_N b).

(** [buf.toString("hex")] *)
Fixpoint hex (bs : list byte) : string :=
  match bs with
  | b :: r =>
      String (hex_digit (byteZ b / 16)) (String (hex_digit (byteZ b mod 16)) (hex r))
  | [] => EmptyString
  end.

(** The base64url alphabet: A-Z a-z 0-9 - _ *)
Definition b64url_digit (n : Z) : ascii :=
  if n <? 26 then JS.chr (65 + n)
  else if n <? 52 then JS.chr (97 + (n - 26))
  else if n <? 62 then JS.chr (48 + (n - 52))
  else if n =? 62 then "-"%char else "_"%char.

(** [buf.toString("base64url")]: three bytes give four digits; a tail of
    one or two bytes gives two or three digits, without padding. *)
Fixpoint base64url (bs : list byte) : string :=
  match bs with
  | a :: b :: c :: r =>
      let n := byteZ a * 65536 + byteZ b * 256 + byteZ c in
      String (b64url_digit (n / 262144))
        (String (b64url_digit (n / 4096 mod 64))
           (String (b64url_digit (n / 64 mod 64))
              (String (b64url_digit (n mod 64)) (base64url r))))
  | [a; b] =>
      let n := byteZ a * 65536 + byteZ b * 256 in
      String (b64url_digit (n / 262144))
        (String (b64url_digit (n / 4096 mod 64))
           (String (b64url_digit (n / 64 mod 64)) EmptyString))
  | [a] =>
      let n := byteZ a * 65536 in
      String (b64url_digit (n / 262144))
        (String (b64url_digit (n / 4096 mod 64)) EmptyString)
  | [] => EmptyString
  end.

End Encoding.

(** ** The [Date] object: UTC calendar arithmetic

    Time values are milliseconds since the epoch.  The calendar fields are
    those of the proleptic Gregorian calendar, computed era by era (an era
    is 400 years, 146097 days, starting on 1 March). *)
Module Date.

Definition msPerDay : Z := 86400000.

Definition Day (t : Z) : Z := t / msPerDay.

Definition TimeWithinDay (t : Z) : Z := t mod msPerDay.

(** Year within the era (counted from March), month 1..12 and day of the
    month of day [doe] of an era, [0 <= doe < 146097]. *)
Definition civil_of_doe (doe : Z) : Z * Z * Z :=
  let yoe := (doe - doe / 1460 + doe / 36524 - doe / 146096) / 365 in
  let doy := doe - (365 * yoe + yoe / 4 - yoe / 100) in
  let mp := (5 * doy + 2) / 153 in
  let d := doy - (153 * mp + 2) / 5 + 1 in
  let m := if mp <? 10 then mp + 3 else mp - 9 in
  (if m <=? 2 then yoe + 1 else yoe, m, d).

(** (year, month 1..12, day of month) of a day number. *)
Definition civil_from_days (z : Z) : Z * Z * Z :=
  let z' := z + 719468 in
  let '(y, m, d) := civil_of_doe (z' mod 146097) in
  (y + z' / 146097 * 400, m, d).

(** Day number of a civil date; [d] may lie outside the month. *)
Definition days_from_civil (y m d : Z) : Z :=
  let y' := if m <=? 2 then y - 1 else y in
  let yoe := y' mod 400 in
  let doy := (153 * (if 2 <? m then m - 3 else m + 9) + 2) / 5 + d - 1 in
  let doe := yoe * 365 + yoe / 4 - yoe / 100 + doy in
  y' / 400 * 146097 + doe - 719468.

Definition getUTCFullYear (t : Z) : Z := fst (fst (civil_from_days (Day t))).

(** Months are numbered from 0. *)
Definition getUTCMonth (t : Z) : Z := snd (fst (civil_from_days (Day t))) - 1.

Definition getUTCDate (t : Z) : Z := snd (civil_from_days (Day t)).

(** [MakeDay(year, month, date)]: the month is normalised into the year,
    the date is added to the first day of that month. *)
Definition MakeDay (year month date : Z) : Z :=
  days_from_civil (year + month / 12) (month mod 12 + 1) 1 + date - 1.

(** [Date.UTC(year, month, date, 0, 0, 0, 0)]: a year from 0 to 99 means
    1900 + year; a result beyond 8.64e15 ms is not a time value. *)
Definition UTC (year month date : Z) : option Z :=
  let yr := if (0 <=? year) && (year <=? 99) then 1900 + year else year in
  let tv := MakeDay yr month date * msPerDay in
  if Z.abs tv <=? 8640000000000000 then Some tv else None.

Definition digit (n : Z) : ascii := JS.chr (48 + n).

(** [n] in decimal on exactly [w] digits. *)
Fixpoint pad (w : nat) (n : Z) : string :=
  match w with
  | O => EmptyString
  | S w' => String (digit (n / 10 ^ Z.of_nat w' mod 10)) (pad w' n)
  end.

(** [toISOString()]: four-digit years from 0 to 9999, otherwise a sign and
    six digits. *)
Definition toISOString (t : Z) : string :=
  let '(y, m, d) := civil_from_days (Day t) in
  let ms := TimeWithinDay t in
  (if (0 <=? y) && (y <=? 9999) then pad 4 y
   else (if y <? 0 then "-" else "+") +:+ pad 6 (Z.abs y))
  +:+ "-" +:+ pad 2 m +:+ "-" +:+ pad 2 d
  +:+ "T" +:+ pad 2 (ms / 3600000) +:+ ":" +:+ pad 2 (ms / 60000 mod 60)
  +:+ ":" +:+ pad 2 (ms / 1000 mod 60) +:+ "." +:+ pad 3 (ms mod 1000) +:+ "Z".

(** The instants at which [toISOString] has a four-digit year and
    [Date.UTC] takes the year as it is: 1970-01-01 to 9999-12-31. *)
Definition in_range (t : Z) : Prop := 0 <= t < 253402300800000.

End Date.

(** ** Numbers *)

(** [Number(x)] of a non-negative [bigint]: the nearest double, ties to
    even.  Integers below 2^53 are exact. *)
Definition Number_of_bigint (z : Z) : Z :=
  if z <? 2 ^ 53 then z
  else
    let k := Z.log2 z - 52 in
    let q := Z.shiftr z k in
    let r := Z.land z (Z.ones k) in
    let half := 2 ^ (k - 1) in
    let q' := if r <? half then q
              else if half <? r then q + 1
              else if Z.even q then q else q + 1 in
    Z.shiftl q' k.

(** ** Outcomes of calls that may throw *)
Inductive Exn (A : Type) : Type :=
| Ok (a : A)
| Throw (message : string).
Arguments Ok {A} a.
Arguments Throw {A} message.

(** [e?.message || dflt] *)
Definition message_or (message dflt : string) : string :=
  if JS.truthy message then message else dflt.

(** ** The Redis keyspace *)
Module Redis.

(** What the server stores: daily counters (decimal integers) and pending
    challenges ([JSON.stringify({ nonce, issuedAt })]). *)
Inductive value : Type :=
| Counter (n : Z)
| Challenge (nonce issuedAt : string).

Record entry : Type := Entry {
  val : value;
  expire_at : option Z        (* absolute deadline in ms, if volatile *)
}.

Abbreviation store := (gmap string entry).

(** A volatile key is gone once the clock has passed its deadline. *)
Definition live (now : Z) (e : entry) : bool :=
  match expire_at e with
  | Some t => now <=? t
  | None => true
  end.

(** [GET key] *)
Definition get (now : Z) (db : store) (key : string) : option value :=
  match db !! key with
  | Some e => if live now e then Some (val e) else None
  | None => None
  end.

(** [SET key v EX seconds] *)
Definition set_ex (now : Z) (db : store) (key : string) (v : value)
    (seconds : Z) : store :=
  <[key := Entry v (Some (now + seconds * 1000))]> db.

(** [DEL key] *)
Definition del (db : store) (key : string) : store := delete key db.

(** [INCR key]: a missing (or expired) key counts from 0 and gets no
    deadline; the deadline of an existing counter is kept.  The command
    fails on a value that is not an integer and on overflow of a signed
    64-bit integer. *)
Definition incr (now : Z) (db : store) (key : string) : Exn (Z * store) :=
  match db !! key with
  | Some (Entry v d as e) =>
      if live now e then
        match v with
        | Counter n =>
            if n <? 2 ^ 63 - 1
            then Ok (n + 1, <[key := Entry (Counter (n + 1)) d]> db)
            else Throw "ERR increment or decrement would overflow"
        | Challenge _ _ =>
            Throw "ERR value is not an integer or out of range"
        end
      else Ok (1, <[key := Entry (Counter 1) None]> db)
  | None => Ok (1, <[key := Entry (Counter 1) None]> db)
  end.

(** [EXPIRE key seconds], with [seconds > 0] *)
Definition expire (now : Z) (db : store) (key : string) (seconds : Z) : store :=
  match db !! key with
  | Some e =>
      if live now e then <[key := Entry (val e) (Some (now + seconds * 1000))]> db
      else db
  | None => db
  end.

(** The deadline of a live key. *)
Definition deadline (now : Z) (db : store) (key : string) : option Z :=
  match db !! key with
  | Some e => if live now e then expire_at e else None
  | None => None
  end.

End Redis.

(** ** db.js: the [api_keys] table *)
Module Db.

(** A row of [api_keys].  Timestamps are in milliseconds; [None] is SQL
    [null]. *)
Record Row : Type := mkRow {
  key_hash : string;
  wallet_address : option string;
  tier : string;
  daily_limit : option Z;
  enabled : bool;
  expires_at : option Z;
  entitlement_expires_at : option Z;
  revoked_at : option Z;
  last_used_at : option Z;
  agent_name : option string
}.

Abbreviation table := (list Row).

(** [ts is null or ts > now()] *)
Definition null_or_after (now : Z) (ts : option Z) : bool :=
  match ts with
  | None => true
  | Some t => now <? t
  end.

(** The condition shared by [getKeyRecordByHash] and the revoking update:
    enabled, not revoked, neither expiry reached. *)
Definition usable (now : Z) (r : Row) : bool :=
  enabled r
  && bool_decide (revoked_at r = None)
  && null_or_after now (expires_at r)
  && null_or_after now (entitlement_expires_at r).

(** Returns a key record only if it is usable. *)
Definition getKeyRecordByHash (now : Z) (t : table) (keyHash : string)
    : option Row :=
  List.find (fun r => bool_decide (key_hash r = keyHash) && usable now r) t.

Definition set_last_used (now : Z) (r : Row) : Row :=
  mkRow (key_hash r) (wallet_address r) (tier r) (daily_limit r) (enabled r)
        (expires_at r) (entitlement_expires_at r) (revoked_at r) (Some now)
        (agent_name r).

Definition touchKeyUsage (now : Z) (t : table) (keyHash : string) : table :=
  List.map (fun r => if bool_decide (key_hash r = keyHash)
                     then set_last_used now r else r) t.

(** [set enabled = false, revoked_at = now()] *)
Definition revoke (now : Z) (r : Row) : Row :=
  mkRow (key_hash r) (wallet_address r) (tier r) (daily_limit r) false
        (expires_at r) (entitlement_expires_at r) (Some now) (last_used_at r)
        (agent_name r).

Definition revokeApiKeyByHash (now : Z) (t : table) (keyHash : string) : table :=
  List.map (fun r => if bool_decide (key_hash r = keyHash)
                     then revoke now r else r) t.

(** The first statement of the claim transaction: revoke the currently
    usable keys of a wallet. *)
Definition revoke_active (now : Z) (walletLc : string) (t : table) : table :=
  List.map (fun r => if bool_decide (wallet_address r = Some walletLc)
                        && usable now r
                     then revoke now r else r) t.

(** [new Date(Number(x) * 1000)] for a non-null [x]; [None] is an invalid
    date (beyond 8.64e15 ms). *)
Definition date_of_unix (x : Z) : option Z :=
  if Z.abs (x * 1000) <=? 8640000000000000 then Some (x * 1000) else None.

End Db.

Module Upsert.
Import Db.

(** The argument object of [upsertApiKeyForWallet]; absent optional
    fields take their default [null]. *)
Record Args : Type := mkArgs {
  a_key_hash : string;
  a_wallet : string;
  a_tier : string;
  a_daily_limit : option Z;
  a_expires_at_unix : option Z;
  a_entitlement_expires_at_unix : option Z;
  a_agent_name : option string
}.

(** A [Date] parameter: a time value, or the invalid date. *)
Inductive JsDate : Type :=
| Valid (ms : Z)
| Invalid.

Definition to_date (x : option Z) : option JsDate :=
  match x with
  | Some u => Some (match date_of_unix u with Some ms => Valid ms | None => Invalid end)
  | None => None
  end.

(** SQL value of a date parameter; an invalid date is not a timestamp and
    makes the statement fail. *)
Definition timestamp_param (d : option JsDate) : Exn (option Z) :=
  match d with
  | None => Ok None
  | Some (Valid ms) => Ok (Some ms)
  | Some Invalid => Throw "invalid input syntax for type timestamp"
  end.

(** Modelled from the spec: the columns the insert does not list take the
    defaults of the schema, which is not in the repository: [enabled] is
    true, [revoked_at] and [last_used_at] are null. *)
Definition new_row (keyHash walletLc tierName : string) (dailyLimit : option Z)
    (expiresAt entitlementExpiresAt : option Z) (agentName : option string) : Row :=
  mkRow keyHash (Some walletLc) tierName dailyLimit true
        expiresAt entitlementExpiresAt None None agentName.

(** The statements of the transaction. *)
Inductive stmt : Type :=
| RevokeActive (now : Z) (walletLc : string)
| InsertKey (keyHash walletLc tierName : string) (dailyLimit : option Z)
            (expiresAt entitlementExpiresAt : option JsDate)
            (agentName : option string).

Section Schema.

(** The constraints of the table (keys, uniqueness, checks) belong to the
    schema; an insert they refuse fails. *)
Variable accepts : table -> Row -> bool.

Definition run_stmt (s : stmt) (t : table) : Exn table :=
  match s with
  | RevokeActive now walletLc => Ok (revoke_active now walletLc t)
  | InsertKey h w tr dl ea eea an =>
      match timestamp_param ea, timestamp_param eea with
      | Ok ea', Ok eea' =>
          let r := new_row h w tr dl ea' eea' an in
          if accepts t r then Ok (t ++ [r])%list
          else Throw "new row violates a constraint of api_keys"
      | Throw m, _ => Throw m
      | _, Throw m => Throw m
      end
  end.

(** Statements run one after the other on the table, stopping at the
    first failure. *)
Fixpoint run_stmts (l : list stmt) (t : table) : Exn table :=
  match l with
  | [] => Ok t
  | s :: r =>
      match run_stmt s t with
      | Ok t' => run_stmts r t'
      | Throw m => Throw m
      end
  end.

(** [insertApiKey]: create a key record; an empty wallet or expiry is
    stored as null. *)
Definition insertApiKey (t : table) (keyHash : string) (walletAddress : string)
    (tierName : string) (dailyLimit : option Z) (expiresAt : option JsDate)
    : Exn table :=
  match timestamp_param expiresAt with
  | Ok ea =>
      let r := mkRow keyHash
                     (if JS.truthy walletAddress then Some walletAddress else None)
                     tierName dailyLimit true ea None None None None in
      if accepts t r then Ok (t ++ [r])%list
      else Throw "new row violates a constraint of api_keys"
  | Throw m => Throw m
  end.

Definition body (now : Z) (a : Args) : list stmt :=
  let walletLc := JS.toLowerCase (a_wallet a) in
  [ RevokeActive now walletLc;
    InsertKey (a_key_hash a) walletLc (a_tier a) (a_daily_limit a)
              (to_date (a_expires_at_unix a))
              (to_date (a_entitlement_expires_at_unix a))
              (a_agent_name a) ].

(** [upsertApiKeyForWallet]: the transaction commits the table its
    statements produce, or rolls back to the table it started from and
    rethrows. *)
Definition upsertApiKeyForWallet (now : Z) (t : table) (a : Args)
    : Exn unit * table :=
  if negb (JS.truthy (JS.toLowerCase (a_wallet a))) then (Throw "wallet required", t)
  else if negb (JS.truthy (a_key_hash a)) then (Throw "key_hash required", t)
  else if negb (JS.truthy (a_tier a)) then (Throw "tier required", t)
  else
    match run_stmts (body now a) t with
    | Ok t' => (Ok tt, t')
    | Throw m => (Throw m, t)
    end.

End Schema.
End Upsert.

(** ** The server module *)
Module Server.

(** Settings read from the environment; the numeric ones are integers. *)
Record Config : Type := mkConfig {
  SALT : string;
  FREE_DAILY_LIMIT : Z;
  BASIC_DAILY_LIMIT : Z;
  PRO_DAILY_LIMIT : Z;
  FREE_IP_DAILY_LIMIT : Z;
  OPENAI_API_KEY : option string;
  CHAIN_ID : Z;
  CONTRACT_ADDR : option string;
  DOMAIN : string;
  BASE_RPC_URL : option string
}.

(** The settings when only the required variables are set. *)
Definition default_config (openaiKey contractAddr rpcUrl : option string) : Config :=
  mkConfig "dev_salt_change_me" 5 50 250 20 openaiKey 8453 contractAddr
           "theroaster.app" rpcUrl.

(** The collaborators outside the repository. *)
Record Env : Type := mkEnv {
  (** [ethers.getAddress]: the checksummed form of an address *)
  getAddress : option string -> Exn string;
  (** [ethers.verifyMessage(message, signature)]: the signer's address *)
  verifyMessage : string -> string -> Exn string;
  (** [roaster.entitlement(address)]: (tier : uint8, expiresAt : uint64) *)
  entitlement : string -> Exn (Z * Z);
  (** SHA-256 of a string, as lower-case hexadecimal *)
  sha256_hex : string -> string;
  (** [openai.responses.create] on the user prompt: [output_text] *)
  responses_create : string -> Exn (option string);
  (** the constraints of [api_keys] *)
  accepts : Db.table -> Db.Row -> bool
}.

Record State : Type := mkState {
  redis : Redis.store;
  api_keys : Db.table
}.

(** Reply bodies, one constructor per shape sent by the handlers. *)
Inductive Body : Type :=
| NotOk (error : string)                       (* { ok: false, error } *)
| Failure (error : string) (hint : option string)
| QuotaFailure (error : string) (hint : option string)
               (reset_utc_day : string) (daily_limit : Z)
| NonceIssued (address message : string)
| KeyIssued (api_key : string) (tier : Z) (expiresAt : Z)
| Roasted (roast : string)
| Unhandled (message : string).                (* an exception left the handler *)

Record Response : Type := Reply {
  status : Z;
  body : Body
}.

Definition LF : string := String (JS.chr 10) EmptyString.
Definition DQUOTE : string := String (JS.chr 34) EmptyString.

Definition truthy_opt (o : option string) : bool :=
  match o with Some s => JS.truthy s | None => false end.

Definition or_empty (o : option string) : string := default EmptyString o.

Section Handlers.

Variable cfg : Config.
Variable E : Env.

(** *** Helpers *)

(** Seconds until the next UTC midnight; [None] is [NaN]. *)
Definition secondsUntilUtcMidnight (now : Z) : option Z :=
  match Date.UTC (Date.getUTCFullYear now) (Date.getUTCMonth now)
                 (Date.getUTCDate now + 1) with
  | Some next =>
      let diffMs := next - now in
      Some (Z.max 1 (diffMs / 1000))
  | None => None
  end.

Definition utcDayKey (now : Z) : string := JS.slice0 10 (Date.toISOString now).

Definition hashKey (rawKey : string) : string :=
  sha256_hex E (rawKey +:+ SALT cfg).

Definition requester_char (a : ascii) : bool :=
  let c := JS.code a in
  ((97 <=? c) && (c <=? 122)) || ((65 <=? c) && (c <=? 90))
  || ((48 <=? c) && (c <=? 57)) || (c =? 95) || (c =? 45).

(** [None] stands for a value that is not a string. *)
Definition cleanRequester (v : option string) : string :=
  match v with
  | None => EmptyString
  | Some v => JS.filter requester_char (JS.slice0 48 (JS.trim v))
  end.

(** [/^Bearer\s+/i.test(auth)] *)
Definition hadAuth (auth : string) : bool :=
  match JS.strip_prefix_ci "Bearer" auth with
  | Some rest => bool_decide (1 <= JS.space_run rest)%nat
  | None => false
  end.

(** [(.+)$] after a run of [i] spaces, for [i] from the longest run down
    to one: the capture is the rest of the header, which must be non-empty
    and free of line terminators. *)
Fixpoint capture_after (i : nat) (rest : string) : option string :=
  match i with
  | O => None
  | S i' =>
      let cap := JS.drop i rest in
      if JS.truthy cap && JS.forallb (fun a => negb (JS.is_line_terminator a)) cap
      then Some cap else capture_after i' rest
  end.

(** [auth.match(/^Bearer\s+(.+)$/i)]: the first capture group. *)
Definition match_bearer (auth : string) : option string :=
  match JS.strip_prefix_ci "Bearer" auth with
  | Some rest => capture_after (JS.space_run rest) rest
  | None => None
  end.

(** The key record of a request, with [id] set to the hash, and the table
    after the (best-effort) update of [last_used_at]. *)
Definition getKeyRecord (now : Z) (t : Db.table) (authorization : option string)
    : option (string * Db.Row) * Db.table :=
  let auth := or_empty authorization in
  match match_bearer auth with
  | None => (None, t)
  | Some m1 =>
      let raw := JS.trim m1 in
      if negb (JS.truthy raw) then (None, t)
      else
        let h := hashKey raw in
        match Db.getKeyRecordByHash now t h with
        | None => (None, t)
        | Some rec => (Some (h, rec), Db.touchKeyUsage now t h)
        end
  end.

(** Tier -> daily limit (the row's [daily_limit] if it is a positive
    number). *)
Definition tierLimit (rec : Db.Row) : Z :=
  let by_tier :=
    let tier := JS.toLowerCase (Db.tier rec) in
    if bool_decide (tier = "pro") then PRO_DAILY_LIMIT cfg
    else if bool_decide (tier = "basic") then BASIC_DAILY_LIMIT cfg
    else BASIC_DAILY_LIMIT cfg in
  match Db.daily_limit rec with
  | Some n => if 0 <? n then n else by_tier
  | None => by_tier
  end.

Definition daily_key (scope day id : string) : string :=
  "roaster:daily:" +:+ scope +:+ ":" +:+ day +:+ ":" +:+ id.

(** [INCR key], then [EXPIRE key ttl] when the counter was just created:
    the outcome and the keyspace after it ([EXPIRE] refuses [NaN]). *)
Definition incr_daily (now : Z) (db : Redis.store) (key : string)
    : Exn Z * Redis.store :=
  match Redis.incr now db key with
  | Throw m => (Throw m, db)
  | Ok (used, db') =>
      if used =? 1 then
        match secondsUntilUtcMidnight now with
        | Some ttl => (Ok used, Redis.expire now db' key ttl)
        | None => (Throw "ERR value is not an integer or out of range", db')
        end
      else (Ok used, db')
  end.

Record Usage : Type := mkUsage {
  used : Z;
  remaining : Z;
  day : string
}.

Definition rateLimitDaily (now : Z) (db : Redis.store) (scope id : string)
    (limit : Z) : Exn Usage * Redis.store :=
  let day := utcDayKey now in
  let key := daily_key scope day id in
  match incr_daily now db key with
  | (Throw m, db') => (Throw m, db')
  | (Ok used, db') => (Ok (mkUsage used (Z.max 0 (limit - used)) day), db')
  end.

Definition requireRoaster : option Response :=
  if truthy_opt (BASE_RPC_URL cfg) && truthy_opt (CONTRACT_ADDR cfg) then None
  else Some (Reply 500 (NotOk "Onchain not configured")).

Definition randomNonce (rnd : list byte) : string := Encoding.hex rnd.

Definition makeApiKey (rnd : list byte) : string :=
  "rk_" +:+ Encoding.base64url rnd.

(** The message an address signs to claim a key. *)
Definition claim_message (addr nonce issuedAt : string) : string :=
  JS.join LF
    [ "TheRoaster API Key Claim";
      "Domain: " +:+ DOMAIN cfg;
      "ChainId: " +:+ pretty (CHAIN_ID cfg);
      "Contract: " +:+ default "undefined" (CONTRACT_ADDR cfg);
      "Address: " +:+ addr;
      "Nonce: " +:+ nonce;
      "IssuedAt: " +:+ issuedAt ].

Definition nonce_key (addr : string) : string := "roaster:nonce:" +:+ addr.

(** *** POST /api/v1/auth/nonce *)
Definition nonce (st : State) (now : Z) (rnd : list byte)
    (address : option string) : Response * State :=
  match requireRoaster with
  | Some bad => (bad, st)
  | None =>
      match getAddress E address with
      | Throw m => (Reply 400 (Failure (message_or m "Bad address") None), st)
      | Ok addr =>
          let nonce := randomNonce rnd in
          let issuedAt := Date.toISOString now in
          let message := claim_message addr nonce issuedAt in
          (* store nonce for 5 minutes *)
          (Reply 200 (NonceIssued addr message),
           mkState (Redis.set_ex now (redis st) (nonce_key addr)
                                 (Redis.Challenge nonce issuedAt) 300)
                   (api_keys st))
      end
  end.

(** *** POST /api/v1/auth/claim *)

Record ClaimBody : Type := mkClaimBody {
  cl_requester : option string;
  cl_address : option string;
  cl_signature : option string
}.

(** [JSON.parse(nonceRaw)] destructured into [nonce] and [issuedAt]; a
    number has neither property. *)
Definition parse_challenge (v : Redis.value) : string * string :=
  match v with
  | Redis.Challenge nonce issuedAt => (nonce, issuedAt)
  | Redis.Counter _ => ("undefined", "undefined")
  end.

(** [exp > now ? Number(tier) : 0], with [exp = Number(expiresAt)] and
    [now] in seconds. *)
Definition effTier (tier expiresAt now_s : Z) : Z :=
  let exp := Number_of_bigint expiresAt in
  let active := now_s <? exp in
  if active then Number_of_bigint tier else 0.

Definition claim_failed (m : string) : Response :=
  Reply 500 (Failure (message_or m "Claim failed") None).

(** The handler up to the signature check; nothing is written before it
    passes.  [inr (addr, requester)]: the signature is the address's. *)
Definition authenticate (st : State) (now : Z) (body : ClaimBody)
    : Response + (string * string) :=
  match requireRoaster with
  | Some bad => inl bad
  | None =>
  let requester := cleanRequester (Some (or_empty (cl_requester body))) in
  match getAddress E (cl_address body) with
  | Throw m => inl (claim_failed m)
  | Ok addr =>
  let signature := or_empty (cl_signature body) in
  if negb (JS.truthy requester) then
    inl (Reply 400 (Failure "Send requester (bot name)." None))
  else if negb (JS.truthy signature) then
    inl (Reply 400 (Failure "Missing signature." None))
  else
  match Redis.get now (redis st) (nonce_key addr) with
  | None => inl (Reply 400 (Failure "Nonce expired. Request a new nonce." None))
  | Some nonceRaw =>
  let '(nonce, issuedAt) := parse_challenge nonceRaw in
  let message := claim_message addr nonce issuedAt in
  (* Verify signature *)
  match verifyMessage E message signature with
  | Throw m => inl (claim_failed m)
  | Ok recovered =>
  match getAddress E (Some recovered) with
  | Throw m => inl (claim_failed m)
  | Ok recovered' =>
  if negb (bool_decide (recovered' = addr)) then
    inl (Reply 401 (Failure "Signature mismatch." None))
  else inr (addr, requester)
  end end end end
  end.

(** Persist in DB. Store only hash, return raw once.  ([rawKey] and
    [keyHash] are the handler's variables of these names; the imported
    [upsertApiKeyForWallet] is a function, so the guard before the call
    never fires.) *)
Definition mint (st1 : State) (now : Z) (addr requester : string) (eff exp : Z)
    (rawKey keyHash : string) : Response * State :=
  let tierName := if eff =? 2 then "pro" else "basic" in
  match Upsert.upsertApiKeyForWallet (accepts E) now (api_keys st1)
          (Upsert.mkArgs keyHash addr tierName None None (Some exp)
                         (Some requester)) with
  | (Throw m, t) => (claim_failed m, mkState (redis st1) t)
  | (Ok _, t) => (Reply 200 (KeyIssued rawKey eff exp), mkState (redis st1) t)
  end.

(** The rest of the handler: burn the nonce, read the entitlement, mint. *)
Definition issue (st : State) (now : Z) (rnd : list byte)
    (addr requester : string) : Response * State :=
  (* burn nonce (one-time use) *)
  let st1 := mkState (Redis.del (redis st) (nonce_key addr)) (api_keys st) in
  (* Onchain entitlement check *)
  match entitlement E addr with
  | Throw m => (claim_failed m, st1)
  | Ok (tier, expiresAt) =>
  let exp := Number_of_bigint expiresAt in
  let eff := effTier tier expiresAt (now / 1000) in
  if eff =? 0 then
    (Reply 402 (Failure "No active entitlement"
                        (Some "Buy a plan onchain then claim again.")), st1)
  else
  (* Mint API key *)
  let rawKey := makeApiKey rnd in
  let keyHash := hashKey rawKey in
  mint st1 now addr requester eff exp rawKey keyHash
  end.

Definition claim (st : State) (now : Z) (rnd : list byte) (body : ClaimBody)
    : Response * State :=
  match authenticate st now body with
  | inl r => (r, st)
  | inr (addr, requester) => issue st now rnd addr requester
  end.

(** *** POST /api/v1/roast *)

Record RoastRequest : Type := mkRoastRequest {
  rq_authorization : option string;      (* req.headers.authorization *)
  rq_ip : string;                        (* req.ip *)
  rq_requester : option string;          (* body fields; None: not a string *)
  rq_name : option string;
  rq_message : option string
}.

Definition quota_reply (error : string) (hint : option string) (day : string)
    (limit : Z) : Response :=
  Reply 429 (QuotaFailure error hint day limit).

Definition user_prompt (requester name message : string) : string :=
  let parts :=
    (["Requester bot: " +:+ requester]
     ++ (if JS.truthy name then ["Target username: " +:+ name] else [])
     ++ (if JS.truthy message
         then ["Last message from user: " +:+ DQUOTE +:+ message +:+ DQUOTE]
         else []))%list in
  "Roast this user based on the details below." +:+ LF +:+ LF +:+ JS.join LF parts.

Definition generate (requester name message : string) : Response :=
  match responses_create E (user_prompt requester name message) with
  | Throw _ => Reply 500 (Failure "Roast generation failed" None)
  | Ok output_text =>
      let roast := JS.trim (or_empty output_text) in
      if negb (JS.truthy roast) then Reply 502 (Failure "Empty roast output" None)
      else Reply 200 (Roasted roast)
  end.

(** The anonymous branch: the per-address ceiling, then the per-address
    and per-requester limit.  [None]: both passed. *)
Definition free_quota (now : Z) (db : Redis.store) (ip requester : string)
    : option Response * Redis.store :=
  let day := utcDayKey now in
  let ipKey := "roaster:daily:free-ip:" +:+ day +:+ ":" +:+ ip in
  match incr_daily now db ipKey with
  | (Throw m, db1) => (Some (Reply 500 (Unhandled m)), db1)
  | (Ok ipUsed, db1) =>
      if FREE_IP_DAILY_LIMIT cfg <? ipUsed then
        (Some (quota_reply "Free IP limit reached"
                 (Some "Too many free requests from this IP today")
                 day (FREE_IP_DAILY_LIMIT cfg)), db1)
      else
        let freeId := ip +:+ ":" +:+ JS.toLowerCase requester in
        match rateLimitDaily now db1 "free" freeId (FREE_DAILY_LIMIT cfg) with
        | (Throw m, db2) => (Some (Reply 500 (Unhandled m)), db2)
        | (Ok u, db2) =>
            if FREE_DAILY_LIMIT cfg <? used u then
              (Some (quota_reply "Free daily limit reached"
                       (Some "Add Authorization: Bearer <API_KEY> for higher limits")
                       day (FREE_DAILY_LIMIT cfg)), db2)
            else (None, db2)
        end
  end.

(** The branch of a request with a usable key. *)
Definition key_quota (now : Z) (db : Redis.store) (keyRec : string * Db.Row)
    : option Response * Redis.store :=
  let limit := tierLimit (snd keyRec) in
  match rateLimitDaily now db "key" (fst keyRec) limit with
  | (Throw m, db1) => (Some (Reply 500 (Unhandled m)), db1)
  | (Ok u, db1) =>
      if limit <? used u then
        let t := JS.toLowerCase
                   (if JS.truthy (Db.tier (snd keyRec)) then Db.tier (snd keyRec)
                    else "basic") in
        (Some (quota_reply (t +:+ " daily limit reached") None (day u) limit), db1)
      else (None, db1)
  end.

(** The checks before the credential is looked at. *)
Definition precheck (req : RoastRequest) : option Response :=
  if negb (truthy_opt (OPENAI_API_KEY cfg)) then
    Some (Reply 500 (Failure "Server misconfigured" None))
  else
  let requester := cleanRequester (rq_requester req) in
  let name := JS.slice0 64 (or_empty (rq_name req)) in
  let message := JS.slice0 800 (or_empty (rq_message req)) in
  if negb (JS.truthy requester) then
    Some (Reply 400 (Failure "Send 'requester' (calling bot name)."
                  (Some ("Example: {" +:+ DQUOTE +:+ "requester" +:+ DQUOTE +:+ ":"
                         +:+ DQUOTE +:+ "ClawdClawderberg" +:+ DQUOTE +:+ ","
                         +:+ DQUOTE +:+ "name" +:+ DQUOTE +:+ ":"
                         +:+ DQUOTE +:+ "SomeMolty" +:+ DQUOTE +:+ ","
                         +:+ DQUOTE +:+ "message" +:+ DQUOTE +:+ ":"
                         +:+ DQUOTE +:+ "..." +:+ DQUOTE +:+ "}"))))
  else if negb (JS.truthy name) && negb (JS.truthy message) then
    Some (Reply 400 (Failure "Send at least 'name' or 'message'." None))
  else None.

(** The anonymous path of the handler. *)
Definition serve_free (st : State) (now : Z) (req : RoastRequest) (t1 : Db.table)
    : Response * State :=
  let requester := cleanRequester (rq_requester req) in
  let name := JS.slice0 64 (or_empty (rq_name req)) in
  let message := JS.slice0 800 (or_empty (rq_message req)) in
  match free_quota now (redis st) (rq_ip req) requester with
  | (Some r, db) => (r, mkState db t1)
  | (None, db) => (generate requester name message, mkState db t1)
  end.

(** The path of a request with a usable key. *)
Definition serve_key (st : State) (now : Z) (req : RoastRequest) (t1 : Db.table)
    (keyRec : string * Db.Row) : Response * State :=
  let requester := cleanRequester (rq_requester req) in
  let name := JS.slice0 64 (or_empty (rq_name req)) in
  let message := JS.slice0 800 (or_empty (rq_message req)) in
  match key_quota now (redis st) keyRec with
  | (Some r, db) => (r, mkState db t1)
  | (None, db) => (generate requester name message, mkState db t1)
  end.

Definition roast (st : State) (now : Z) (req : RoastRequest) : Response * State :=
  match precheck req with
  | Some r => (r, st)
  | None =>
  let authHeader := or_empty (rq_authorization req) in
  let hadAuth := hadAuth authHeader in
  let '(keyRec, t1) := getKeyRecord now (api_keys st) (rq_authorization req) in
  match keyRec with
  | None =>
      if hadAuth then
        (Reply 401 (Failure "Invalid or expired API key" None), mkState (redis st) t1)
      else serve_free st now req t1
  | Some rec => serve_key st now req t1 rec
  end
  end.

End Handlers.
End Server.

(** ** More routes of the server module *)
Module Routes.
Import Server.

(** The body of a successful entitlement query. *)
Record EntitlementInfo : Type := mkEntitlementInfo {
  ei_address : string;
  ei_tier : Z;
  ei_expiresAt : Z;
  ei_active : bool
}.

Section Handlers.
Variable cfg : Config.
Variable E : Env.

(** *** GET /api/v1/entitlement/:address *)
Definition entitlement_route (now : Z) (address : option string)
    : Response + EntitlementInfo :=
  match requireRoaster cfg with
  | Some bad => inl bad
  | None =>
      match getAddress E address with
      | Throw m => inl (Reply 400 (Failure (message_or m "Bad address") None))
      | Ok address =>
          match entitlement E address with
          | Throw m => inl (Reply 400 (Failure (message_or m "Bad address") None))
          | Ok (tier, expiresAt) =>
              let exp := Number_of_bigint expiresAt in
              let now := now / 1000 in
              inr (mkEntitlementInfo address (Number_of_bigint tier) exp (now <? exp))
          end
      end
  end.

End Handlers.
End Routes.

(** ** hashkey.js: the hash of a raw key, for the operator *)
Module HashKeyCli.
Import Server.

(** What a run writes and the code it exits with. *)
Record Run : Type := mkRun {
  stdout : list string;
  stderr : list string;
  exit_code : Z
}.

(** [argv2] is [process.argv[2]], [salt] is [process.env.API_KEY_SALT]. *)
Definition hashkey (sha256_hex : string -> string) (argv2 salt : option string) : Run :=
  let raw := argv2 in
  if negb (truthy_opt raw) then mkRun [] ["Usage: node hashkey.js <rawKey>"] 1
  else
    let loaded := "SALT loaded: " +:+ (if truthy_opt salt then "true" else "false") in
    if negb (truthy_opt salt) then mkRun [loaded] ["API_KEY_SALT missing from .env"] 2
    else
      let hash := sha256_hex (or_empty raw +:+ or_empty salt) in
      mkRun [loaded; hash] [] 0.

(** [process.env.API_KEY_SALT || "dev_salt_change_me"] of the server. *)
Definition SALT_of_env (salt : option string) : string :=
  if truthy_opt salt then or_empty salt else "dev_salt_change_me".

End HashKeyCli.

(** ** Notions used in the statements *)

(** The usable keys of a wallet at an instant. *)
Definition usable_for (now : Z) (w : string) (t : Db.table) : list Db.Row :=
  List.filter (fun r => bool_decide (Db.wallet_address r = Some w) && Db.usable now r) t.

(** At most one usable key per wallet, from [now] on. *)
Definition single_usable (now : Z) (t : Db.table) : Prop :=
  forall now' w, now <= now' -> (length (usable_for now' w t) <= 1)%nat.

(** The interleavings of two statement sequences: each keeps its order.
    Run by [Upsert.run_stmts], an interleaving is what two transactions
    in flight at once do to the table when no statement of one reads a row
    the other wrote. *)
Inductive Interleave {A : Type} : list A -> list A -> list A -> Prop :=
| interleave_nil : Interleave [] [] []
| interleave_left x l1 l2 l : Interleave l1 l2 l -> Interleave (x :: l1) l2 (x :: l)
| interleave_right x l1 l2 l : Interleave l1 l2 l -> Interleave l1 (x :: l2) (x :: l).

(** Mints one after the other, each at its instant. *)
Fixpoint mints (accepts : Db.table -> Db.Row -> bool)
    (l : list (Z * Upsert.Args)) (t : Db.table) : Db.table :=
  match l with
  | [] => t
  | (now, a) :: r => mints accepts r (snd (Upsert.upsertApiKeyForWallet accepts now t a))
  end.

(** The instants of the mints do not go back from [now]. *)
Fixpoint chronological (now : Z) (l : list (Z * Upsert.Args)) : Prop :=
  match l with
  | [] => True
  | (t1, _) :: r => now <= t1 /\ chronological t1 r
  end.

Definition last_time (now : Z) (l : list (Z * Upsert.Args)) : Z :=
  List.last (List.map fst l) now.

(** The key a reply hands out, if any. *)
Definition api_key_of (r : Server.Response) : option string :=
  match Server.body r with
  | Server.KeyIssued k _ _ => Some k
  | _ => None
  end.

(** The value of a live counter; 0 when there is none. *)
Definition count_of (now : Z) (db : Redis.store) (key : string) : Z :=
  match Redis.get now db key with
  | Some (Redis.Counter n) => n
  | _ => 0
  end.

(** A key INCR accepts: absent, expired, or a counter below the largest
    signed 64-bit integer. *)
Definition countable (now : Z) (db : Redis.store) (key : string) : Prop :=
  match Redis.get now db key with
  | Some (Redis.Counter n) => n < 2 ^ 63 - 1
  | Some (Redis.Challenge _ _) => False
  | None => True
  end.

(** The token of an Authorization header of the form
    [Bearer <non-empty token>]. *)
Definition bearer_token (auth : string) : option string :=
  match Server.match_bearer auth with
  | Some m1 => if JS.truthy (JS.trim m1) then Some (JS.trim m1) else None
  | None => None
  end.

(** Midnight (UTC) after [t]. *)
Definition next_midnight (t : Z) : Z := (Date.Day t + 1) * Date.msPerDay.

(** The first ten characters of an ISO timestamp with a four-digit year. *)
Definition day_string (y m d : Z) : string :=
  Date.pad 4 y +:+ "-" +:+ Date.pad 2 m +:+ "-" +:+ Date.pad 2 d.

(** What is checked on every day of an era: the ranges of the civil date
    and that it determines the day. *)
Definition doe_ok (doe : Z) : bool :=
  let '(y, m, d) := Date.civil_of_doe doe in
  (1 <=? m) && (m <=? 12) && (1 <=? d) && (d <=? 31) && (0 <=? y) && (y <=? 400)
  && (Date.days_from_civil y m d =? doe - 719468)
  && ((146037 <=? doe) || (y <=? 399)).

Fixpoint all_from (f : Z -> bool) (n : nat) (i : Z) : bool :=
  match n with
  | O => true
  | S n' => f i && all_from f n' (i + 1)
  end.

(** ** A small instance of the collaborators

    Addresses are six characters starting with [0x], normalised to lower
    case; a signature is the signer's address followed by the signed
    message; the hash prefixes its input.  Used to run the handlers on
    concrete requests. *)
Module Sample.
Import Server.

Definition is_address (s : string) : bool :=
  bool_decide (String.length s = 6%nat) && bool_decide (JS.slice0 2 s = "0x").

Definition getAddress (a : option string) : Exn string :=
  match a with
  | Some s =>
      if is_address (JS.toLowerCase s) then Ok (JS.toLowerCase s)
      else Throw "invalid address"
  | None => Throw "invalid address"
  end.

Definition sign (addr message : string) : string := addr +:+ message.

Definition verifyMessage (message signature : string) : Exn string :=
  if bool_decide (String.length signature < 6)%nat then Throw "invalid signature"
  else if bool_decide (JS.drop 6 signature = message)
       then Ok (JS.slice0 6 signature) else Ok "0x0000".

(** [0xaaaa] holds tier 2 until 2027-01-15, [0xbbbb] held tier 1 until
    2001-09-09, nobody else bought anything. *)
Definition entitlement (addr : string) : Exn (Z * Z) :=
  if bool_decide (addr = "0xaaaa") then Ok (2, 1800000000)
  else if bool_decide (addr = "0xbbbb") then Ok (1, 1000000000)
  else Ok (0, 0).

Definition env : Env :=
  mkEnv getAddress verifyMessage entitlement
        (fun s => "sha256:" +:+ s)
        (fun _ => Ok (Some "Nice try."))
        (fun _ _ => true).

Definition cfg : Config :=
  default_config (Some "sk-test") (Some "0xC0FFEE") (Some "https://rpc.example").

Definition empty : State := mkState ∅ [].

(** 2026-11-02T10:10:00.500Z *)
Definition t0 : Z := 1793614200500.

Definition bytes (n : nat) (b : byte) : list byte := List.repeat b n.

(** An anonymous request of [Bot1] from 1.2.3.4. *)
Definition anon : RoastRequest :=
  mkRoastRequest None "1.2.3.4" (Some "Bot1") (Some "SomeMolty") None.

(** [n] requests in a row at the instant [now]: the replies, first to
    last, and the state after them. *)
Fixpoint roasts (n : nat) (st : State) (now : Z) (req : RoastRequest)
    : list Response * State :=
  match n with
  | O => ([], st)
  | S n' =>
      let '(r, st1) := roast cfg env st now req in
      let '(rs, st2) := roasts n' st1 now req in
      (r :: rs, st2)
  end.

(** The state after [addr] asked for a challenge at [t0], the message to
    sign, and a claim of [Bot1] carrying [signature]. *)
Definition challenged (addr : string) : State :=
  snd (nonce cfg env empty t0 (bytes 16 Byte.x61) (Some addr)).

Definition challenge_message (addr : string) : string :=
  claim_message cfg addr (randomNonce (bytes 16 Byte.x61)) (Date.toISOString t0).

Definition claim_body (addr signature : string) : ClaimBody :=
  mkClaimBody (Some "Bot1") (Some addr) (Some signature).

(** A no-break space. *)
Definition nbsp : string := String (JS.chr 160) EmptyString.

(** Two mints for one wallet. *)
Definition mint_a : Upsert.Args :=
  Upsert.mkArgs "hash-a" "0xAAAA" "pro" None None (Some 1800000000) (Some "Bot1").

Definition mint_b : Upsert.Args :=
  Upsert.mkArgs "hash-b" "0xAAAA" "pro" None None (Some 1800000000) (Some "Bot1").

(** A key with [daily_limit] 0. *)
Definition zero_limit_key : Db.Row :=
  Db.mkRow "hash-a" (Some "0xaaaa") "pro" (Some 0) true None None None None None.

End Sample.

(** ** Notions used in the further properties *)

(** The characters of the base64url alphabet and of a cleaned requester
    name: letters, digits, [_] and [-]. *)
Definition url_safe (s : string) : bool := JS.forallb Server.requester_char s.

(** No character of [s] is white space. *)
Definition no_space (s : string) : bool :=
  JS.forallb (fun a => negb (JS.is_space a)) s.

Definition lower_hex_char (a : ascii) : bool :=
  let c := JS.code a in
  ((48 <=? c) && (c <=? 57)) || ((97 <=? c) && (c <=? 102)).

(** The character [c] does not occur in [s]. *)
Definition without (c : ascii) (s : string) : bool :=
  JS.forallb (fun a => negb (Ascii.eqb a c)) s.

(** The rows of a wallet, usable or not. *)
Definition rows_of (w : string) (t : Db.table) : list Db.Row :=
  List.filter (fun r => bool_decide (Db.wallet_address r = Some w)) t.

(** A row with [last_used_at] left out. *)
Definition stored_key (r : Db.Row) : Db.Row :=
  Db.mkRow (Db.key_hash r) (Db.wallet_address r) (Db.tier r) (Db.daily_limit r)
           (Db.enabled r) (Db.expires_at r) (Db.entitlement_expires_at r)
           (Db.revoked_at r) None (Db.agent_name r).

(** [s.startsWith(p)] *)
Fixpoint starts_with (p s : string) : bool :=
  match p, s with
  | EmptyString, _ => true
  | String x p', String a s' => Ascii.eqb x a && starts_with p' s'
  | String _ _, EmptyString => false
  end.

(** The keys of the daily counters. *)
Definition is_daily (k : string) : bool := starts_with "roaster:daily:" k.

(** Every daily key holds a counter. *)
Definition counters_typed (db : Redis.store) : Prop :=
  forall k e, db !! k = Some e -> is_daily k = true ->
              exists n, Redis.val e = Redis.Counter n.


(** What requests that only count do to the keyspace: keys other than the
    daily counters are untouched, no count goes down, counters stay
    counters. *)
Definition counting_step (now : Z) (db db' : Redis.store) : Prop :=
  (forall k, is_daily k = false -> db' !! k = db !! k)
  /\ (forall k, count_of now db k <= count_of now db' k)
  /\ (counters_typed db -> counters_typed db').

(** The errors with which Redis refuses a command of the server: [INCR]
    at the largest signed 64-bit integer, [INCR] on a value that is not an
    integer and [EXPIRE] with a time to live that is not an integer. *)
Definition redis_refusal (m : string) : Prop :=
  m = "ERR increment or decrement would overflow"
  \/ m = "ERR value is not an integer or out of range".

(** What a reply of the roast route is made of. *)
Inductive roast_reply (E : Server.Env) (req : Server.RoastRequest)
    : Server.Response -> Prop :=
| reply_refused status error hint :
    In status [400; 401; 500; 502] ->
    roast_reply E req (Server.Reply status (Server.Failure error hint))
| reply_unhandled m : roast_reply E req (Server.Reply 500 (Server.Unhandled m))
| reply_quota error hint day limit :
    roast_reply E req (Server.Reply 429 (Server.QuotaFailure error hint day limit))
| reply_roast out :
    Server.responses_create E (Server.user_prompt (Server.cleanRequester (Server.rq_requester req))
                          (JS.slice0 64 (Server.or_empty (Server.rq_name req)))
                          (JS.slice0 800 (Server.or_empty (Server.rq_message req)))) = Ok out ->
    JS.truthy (JS.trim (Server.or_empty out)) = true ->
    roast_reply E req (Server.Reply 200 (Server.Roasted (JS.trim (Server.or_empty out)))).

(** ** More sample values *)
Module Cases.
Import Server Sample.

(** No constraint refuses a row. *)
Definition lenient (t : Db.table) (r : Db.Row) : bool := true.

(** The table after the mint [mint_a] at [t0]. *)
Definition minted_a : Db.table :=
  [Upsert.new_row "hash-a" "0xaaaa" "pro" None None (Some 1800000000000) (Some "Bot1")].

(** A correctly signed claim of [addr]. *)
Definition signed_claim (addr : string) : ClaimBody :=
  claim_body addr (sign (JS.toLowerCase addr) (challenge_message (JS.toLowerCase addr))).

(** 1.2.3.4 has used up the anonymous requests of its day. *)
Definition ceiling_reached : State :=
  mkState (<[daily_key "free-ip" (utcDayKey t0) "1.2.3.4"
             := Redis.Entry (Redis.Counter 20) None]> ∅) [].

(** The state after [0xAAAA] claimed a key at [t0 + 1000], and a request
    that presents the key. *)
Definition claimed : State :=
  snd (claim cfg env (challenged "0xAAAA") (t0 + 1000) (bytes 24 Byte.x6b)
         (signed_claim "0xAAAA")).

Definition keyed : RoastRequest :=
  mkRoastRequest (Some ("Bearer " +:+ makeApiKey (bytes 24 Byte.x6b))) "1.2.3.4"
                 (Some "Bot1") (Some "SomeMolty") None.

End Cases.

(** Case analysis on an innermost [match] of the goal. *)
Ltac has_match t :=
  match t with context [match _ with _ => _ end] => idtac end.

Ltac break_inner :=
  match goal with
  | |- context [match ?scrutinee with _ => _ end] =>
      tryif has_match scrutinee then fail else destruct scrutinee
  end.

(** * Properties *)

(** ** Calendar arithmetic *)
Section DateFacts.
Import Date.

Lemma all_from_spec f n : forall i,
  all_from f n i = true -> forall z, i <= z < i + Z.of_nat n -> f z = true.
Proof.
  induction n as [|n IH]; simpl; intros i H z Hz; [lia|].
  apply andb_true_iff in H as [H1 H2].
  destruct (Z.eq_dec z i) as [->|Hne]; [exact H1|].
  apply (IH (i + 1)); [exact H2|lia].
Qed.

(** Every day of an era, by evaluation. *)
Lemma doe_ok_era : all_from doe_ok (Z.to_nat 146097) 0 = true.
Proof. vm_cast_no_check (eq_refl true). Qed.

Lemma doe_ok_true doe : 0 <= doe < 146097 -> doe_ok doe = true.
Proof.
  intros H. apply (all_from_spec doe_ok (Z.to_nat 146097) 0 doe_ok_era). lia.
Qed.

Lemma days_from_civil_era y m d e :
  days_from_civil (y + e * 400) m d = days_from_civil y m d + e * 146097.
Proof.
  unfold days_from_civil.
  replace ((if m <=? 2 then y + e * 400 - 1 else y + e * 400))
    with ((if m <=? 2 then y - 1 else y) + e * 400) by (destruct (m <=? 2); lia).
  rewrite Z.div_add, Z.mod_add by lia. lia.
Qed.

Lemma days_from_civil_date y m d d' :
  days_from_civil y m d' = days_from_civil y m d + (d' - d).
Proof. unfold days_from_civil. lia. Qed.

(** The civil date of a day number, with its ranges, determines the day. *)
Lemma civil_from_days_spec z :
  let '(y, m, d) := civil_from_days z in
  1 <= m <= 12 /\ 1 <= d <= 31 /\ days_from_civil y m d = z
  /\ ((z + 719468) / 146097 * 400 <= y <= (z + 719468) / 146097 * 400 + 400)
  /\ (z < 2932897 -> y <= 9999).
Proof.
  unfold civil_from_days.
  assert (Hr : 0 <= (z + 719468) mod 146097 < 146097) by (apply Z.mod_pos_bound; lia).
  pose proof (doe_ok_true _ Hr) as Hok. unfold doe_ok in Hok.
  pose proof (Z.div_mod (z + 719468) 146097 ltac:(lia)) as Hdm.
  destruct (civil_of_doe ((z + 719468) mod 146097)) as [[y m] d].
  repeat (apply andb_true_iff in Hok as [Hok ?]).
  rewrite days_from_civil_era.
  repeat split; lia.
Qed.

Lemma Day_in_range t : in_range t -> 0 <= Day t < 2932897.
Proof.
  unfold in_range, Day, msPerDay. intros [H1 H2]. split.
  - apply Z.div_pos; lia.
  - apply Z.div_lt_upper_bound; lia.
Qed.

(** [Date.UTC] of the day after [t]'s is the next midnight. *)
Lemma UTC_next_day t :
  in_range t ->
  UTC (getUTCFullYear t) (getUTCMonth t) (getUTCDate t + 1) = Some (next_midnight t).
Proof.
  intros Ht. pose proof (Day_in_range t Ht) as Hd.
  unfold UTC, getUTCFullYear, getUTCMonth, getUTCDate, next_midnight.
  pose proof (civil_from_days_spec (Day t)) as H.
  destruct (civil_from_days (Day t)) as [[y m] d]. simpl.
  destruct H as (Hm & Hdd & Hz & Hy & _).
  assert (4 <= (Day t + 719468) / 146097) by (apply Z.div_le_lower_bound; lia).
  replace ((0 <=? y) && (y <=? 99)) with false
    by (symmetry; apply andb_false_iff; right; lia).
  unfold MakeDay.
  replace ((m - 1) / 12) with 0 by (symmetry; apply Z.div_small; lia).
  replace ((m - 1) mod 12) with (m - 1) by (symmetry; apply Z.mod_small; lia).
  replace (y + 0) with y by lia. replace (m - 1 + 1) with m by lia.
  rewrite (days_from_civil_date y m d 1), Hz.
  replace (Day t + (1 - d) + (d + 1) - 1) with (Day t + 1) by lia.
  replace (Z.abs ((Day t + 1) * msPerDay) <=? 8640000000000000) with true;
    [reflexivity|].
  symmetry. apply Z.leb_le. unfold msPerDay. lia.
Qed.

Lemma digit_code n : 0 <= n < 10 -> JS.code (digit n) = 48 + n.
Proof.
  intros Hn.
  pose proof (all_from_spec (fun i => JS.code (digit i) =? 48 + i) 10 0 eq_refl n
                ltac:(lia)) as H.
  apply Z.eqb_eq. exact H.
Qed.

Lemma digit_inj a b : 0 <= a < 10 -> 0 <= b < 10 -> digit a = digit b -> a = b.
Proof.
  intros Ha Hb H.
  pose proof (digit_code a Ha) as Ea. pose proof (digit_code b Hb) as Eb.
  rewrite H in Ea. lia.
Qed.

Lemma pad2_eq n :
  pad 2 n = String (digit (n / 10 mod 10)) (String (digit (n / 1 mod 10)) EmptyString).
Proof. reflexivity. Qed.

Lemma pad4_eq n :
  pad 4 n = String (digit (n / 1000 mod 10)) (String (digit (n / 100 mod 10))
              (String (digit (n / 10 mod 10)) (String (digit (n / 1 mod 10)) EmptyString))).
Proof. reflexivity. Qed.

Lemma digits4 n : 0 <= n <= 9999 ->
  n = 1000 * (n / 1000 mod 10) + 100 * (n / 100 mod 10) + 10 * (n / 10 mod 10)
      + n / 1 mod 10.
Proof. intros H. Z.to_euclidean_division_equations. lia. Qed.

Lemma digits2 n : 0 <= n <= 99 -> n = 10 * (n / 10 mod 10) + n / 1 mod 10.
Proof. intros H. Z.to_euclidean_division_equations. lia. Qed.

Lemma day_string_inj y1 m1 d1 y2 m2 d2 :
  0 <= y1 <= 9999 -> 0 <= y2 <= 9999 ->
  0 <= m1 <= 99 -> 0 <= m2 <= 99 -> 0 <= d1 <= 99 -> 0 <= d2 <= 99 ->
  day_string y1 m1 d1 = day_string y2 m2 d2 -> y1 = y2 /\ m1 = m2 /\ d1 = d2.
Proof.
  intros Hy1 Hy2 Hm1 Hm2 Hd1 Hd2. unfold day_string.
  rewrite !pad4_eq, !pad2_eq. cbn [String.app append]. intros H.
  injection H as A1 A2 A3 A4 B1 B2 C1 C2.
  apply digit_inj in A1, A2, A3, A4, B1, B2, C1, C2;
    try (apply Z.mod_pos_bound; lia).
  rewrite (digits4 y1), (digits4 y2), (digits2 m1), (digits2 m2),
    (digits2 d1), (digits2 d2) by assumption.
  rewrite A1, A2, A3, A4, B1, B2, C1, C2. auto.
Qed.

Lemma utcDayKey_eq t :
  in_range t ->
  Server.utcDayKey t =
    let '(y, m, d) := civil_from_days (Day t) in day_string y m d.
Proof.
  intros Ht. pose proof (Day_in_range t Ht) as Hd.
  unfold Server.utcDayKey, toISOString, day_string.
  pose proof (civil_from_days_spec (Day t)) as H.
  destruct (civil_from_days (Day t)) as [[y m] d].
  destruct H as (Hm & Hdd & Hz & Hy & Hy').
  assert (4 <= (Day t + 719468) / 146097) by (apply Z.div_le_lower_bound; lia).
  replace ((0 <=? y) && (y <=? 9999)) with true
    by (symmetry; apply andb_true_iff; split; apply Z.leb_le; lia).
  rewrite !pad4_eq, !pad2_eq. reflexivity.
Qed.

(** Two instants have the same day key exactly when they fall on the same
    UTC day. *)
Lemma utcDayKey_same_day t1 t2 :
  in_range t1 -> in_range t2 ->
  (Server.utcDayKey t1 = Server.utcDayKey t2 <-> Day t1 = Day t2).
Proof.
  intros H1 H2. rewrite !utcDayKey_eq by assumption.
  pose proof (Day_in_range t1 H1) as Hd1. pose proof (Day_in_range t2 H2) as Hd2.
  pose proof (civil_from_days_spec (Day t1)) as C1.
  pose proof (civil_from_days_spec (Day t2)) as C2.
  split.
  - destruct (civil_from_days (Day t1)) as [[y1 m1] d1].
    destruct (civil_from_days (Day t2)) as [[y2 m2] d2].
    destruct C1 as (? & ? & Hz1 & ? & ?), C2 as (? & ? & Hz2 & ? & ?).
    assert (4 <= (Day t1 + 719468) / 146097) by (apply Z.div_le_lower_bound; lia).
    assert (4 <= (Day t2 + 719468) / 146097) by (apply Z.div_le_lower_bound; lia).
    intros E. apply day_string_inj in E; try lia.
    destruct E as (-> & -> & ->). congruence.
  - intros ->. reflexivity.
Qed.

(** The time to live of a new counter: the whole seconds left in the UTC
    day, and one second when less than that is left. *)
Lemma secondsUntilUtcMidnight_eq t :
  in_range t ->
  Server.secondsUntilUtcMidnight t = Some (Z.max 1 ((next_midnight t - t) / 1000)).
Proof.
  intros Ht. unfold Server.secondsUntilUtcMidnight.
  rewrite UTC_next_day by assumption. reflexivity.
Qed.

Lemma next_midnight_after t : t < next_midnight t <= t + msPerDay.
Proof.
  unfold next_midnight, Day, msPerDay.
  pose proof (Z.div_mod t 86400000 ltac:(lia)).
  pose proof (Z.mod_pos_bound t 86400000 ltac:(lia)). lia.
Qed.

End DateFacts.

(** ** The Redis commands *)
Section RedisFacts.
Import Redis.

Lemma get_frame now (db db' : gmap string entry) k :
  db' !! k = db !! k -> get now db' k = get now db k.
Proof. unfold get. intros ->. reflexivity. Qed.

Lemma get_del now (db : gmap string entry) k : get now (del db k) k = None.
Proof. unfold get, del. rewrite lookup_delete_eq. reflexivity. Qed.

Lemma count_of_get now (db : gmap string entry) key n :
  get now db key = Some (Counter n) -> count_of now db key = n.
Proof. unfold count_of. intros ->. reflexivity. Qed.

(** INCR on a key it accepts: the count goes up by one, the deadline of a
    live counter stays, a new counter has none, other keys are untouched. *)
Lemma incr_spec now (db : gmap string entry) key :
  countable now db key ->
  exists db', incr now db key = Ok (count_of now db key + 1, db')
    /\ get now db' key = Some (Counter (count_of now db key + 1))
    /\ deadline now db' key = deadline now db key
    /\ (forall k, k <> key -> db' !! k = db !! k).
Proof.
  unfold countable, count_of, incr, get, deadline.
  destruct (db !! key) as [[v d]|] eqn:Hk.
  - destruct (live now (Entry v d)) eqn:Hl.
    + destruct v as [n|]; [|intros []]. intros Hn.
      replace (n <? 2 ^ 63 - 1) with true by (symmetry; apply Z.ltb_lt; exact Hn).
      eexists. split; [reflexivity|].
      rewrite lookup_insert_eq.
      replace (live now (Entry (Counter (n + 1)) d)) with true
        by (rewrite <- Hl; reflexivity).
      repeat split. intros k Hne. apply lookup_insert_ne. congruence.
    + intros _. eexists. split; [reflexivity|]. rewrite lookup_insert_eq. simpl.
      repeat split. intros k Hne. apply lookup_insert_ne. congruence.
  - intros _. eexists. split; [reflexivity|]. rewrite lookup_insert_eq. simpl.
    repeat split. intros k Hne. apply lookup_insert_ne. congruence.
Qed.

Lemma expire_spec now (db : gmap string entry) key v s :
  get now db key = Some v -> 0 < s ->
  get now (expire now db key s) key = Some v
  /\ deadline now (expire now db key s) key = Some (now + s * 1000)
  /\ (forall k, k <> key -> expire now db key s !! k = db !! k).
Proof.
  unfold get, expire, deadline. intros H Hs.
  destruct (db !! key) as [e|] eqn:Hk; [|discriminate].
  destruct (live now e) eqn:Hl; [|discriminate]. injection H as <-.
  rewrite lookup_insert_eq. unfold live at 1 2. simpl.
  replace (now <=? now + s * 1000) with true by (symmetry; apply Z.leb_le; lia).
  repeat split. intros k Hne. apply lookup_insert_ne. congruence.
Qed.

End RedisFacts.

(** ** Strings *)
Section StringFacts.

Lemma length_app (s t : string) :
  String.length (s +:+ t) = (String.length s + String.length t)%nat.
Proof. induction s as [|a s IH]; simpl; [reflexivity|]. rewrite IH. reflexivity. Qed.

Lemma app_inv_tail (s1 s2 t : string) : s1 +:+ t = s2 +:+ t -> s1 = s2.
Proof.
  intros H. assert (Hl : String.length s1 = String.length s2).
  { apply (f_equal String.length) in H. rewrite !length_app in H. lia. }
  revert s2 H Hl. induction s1 as [|a s1 IH]; intros [|b s2] H Hl; simpl in *;
    try discriminate; [reflexivity|].
  injection H as -> H. f_equal. apply IH; [exact H|lia].
Qed.

Lemma app_inv_head (p s1 s2 : string) : p +:+ s1 = p +:+ s2 -> s1 = s2.
Proof.
  induction p as [|a p IH]; simpl; intros H; [exact H|]. injection H as H. auto.
Qed.

End StringFacts.

(** ** Daily quotas *)
Section QuotaFacts.
Import Server.

Lemma daily_key_day_inj scope id d1 d2 :
  daily_key scope d1 id = daily_key scope d2 id -> d1 = d2.
Proof.
  unfold daily_key. intros H.
  apply app_inv_head in H. apply app_inv_head in H. apply app_inv_head in H.
  apply (app_inv_tail d1 d2 (":" +:+ id)). exact H.
Qed.

Lemma free_keys_differ today ip id :
  daily_key "free" today id <> daily_key "free-ip" today ip.
Proof. unfold daily_key. cbn [String.app append]. intros H. discriminate H. Qed.

(** The deadline of a new counter is within a second of midnight. *)
Lemma ttl_bounds now :
  let ttl := Z.max 1 ((next_midnight now - now) / 1000) in
  1 <= ttl /\ next_midnight now - 1000 < now + ttl * 1000 < next_midnight now + 1000.
Proof.
  intros ttl. pose proof (next_midnight_after now) as [H1 H2].
  pose proof (Z.div_mod (next_midnight now - now) 1000 ltac:(lia)).
  pose proof (Z.mod_pos_bound (next_midnight now - now) 1000 ltac:(lia)).
  assert (0 <= (next_midnight now - now) / 1000) by (apply Z.div_pos; lia).
  unfold ttl. lia.
Qed.

(** One increment of a daily counter. *)
Lemma incr_daily_spec now (db : gmap string Redis.entry) key :
  Date.in_range now -> countable now db key ->
  let n := count_of now db key + 1 in
  let ttl := Z.max 1 ((next_midnight now - now) / 1000) in
  exists db', incr_daily now db key = (Ok n, db')
    /\ Redis.get now db' key = Some (Redis.Counter n)
    /\ (n = 1 -> Redis.deadline now db' key = Some (now + ttl * 1000))
    /\ (n <> 1 -> Redis.deadline now db' key = Redis.deadline now db key)
    /\ (forall k, k <> key -> db' !! k = db !! k).
Proof.
  intros Hr Hc n ttl.
  destruct (incr_spec now db key Hc) as (db1 & Hi & Hg & Hd & Hf).
  unfold incr_daily. rewrite Hi. fold n.
  destruct (n =? 1) eqn:Hn.
  - rewrite secondsUntilUtcMidnight_eq by assumption. fold ttl.
    destruct (expire_spec now db1 key _ ttl Hg ltac:(lia)) as (Hg' & Hd' & Hf').
    apply Z.eqb_eq in Hn.
    eexists. split; [reflexivity|]. repeat split; auto; try lia.
    intros k Hk. rewrite Hf' by assumption. auto.
  - apply Z.eqb_neq in Hn.
    eexists. split; [reflexivity|]. repeat split; auto; lia.
Qed.

(** [rateLimitDaily] on a key INCR accepts. *)
Lemma rateLimitDaily_spec now (db : gmap string Redis.entry) scope id limit :
  Date.in_range now ->
  countable now db (daily_key scope (utcDayKey now) id) ->
  let key := daily_key scope (utcDayKey now) id in
  let n := count_of now db key + 1 in
  let ttl := Z.max 1 ((next_midnight now - now) / 1000) in
  exists u db',
    rateLimitDaily now db scope id limit = (Ok u, db')
    /\ used u = n /\ day u = utcDayKey now /\ remaining u = Z.max 0 (limit - n)
    /\ Redis.get now db' key = Some (Redis.Counter n)
    /\ (n = 1 -> Redis.deadline now db' key = Some (now + ttl * 1000))
    /\ (n <> 1 -> Redis.deadline now db' key = Redis.deadline now db key)
    /\ (forall k, k <> key -> db' !! k = db !! k).
Proof.
  intros Hr Hc key n ttl.
  destruct (incr_daily_spec now db key Hr Hc) as (db' & Hi & Hg & Hd1 & Hd2 & Hf).
  unfold rateLimitDaily. fold key. rewrite Hi.
  eexists _, db'. split; [reflexivity|]. simpl. repeat split; auto.
Qed.

(** The check of a request with a usable key. *)
Lemma key_quota_spec cfg now (db : gmap string Redis.entry) h rec :
  let key := daily_key "key" (utcDayKey now) h in
  let n := count_of now db key + 1 in
  Date.in_range now -> countable now db key ->
  exists db',
    count_of now db' key = n
    /\ (n <= tierLimit cfg rec -> key_quota cfg now db (h, rec) = (None, db'))
    /\ (tierLimit cfg rec < n ->
        exists error hint,
          key_quota cfg now db (h, rec)
          = (Some (Reply 429 (QuotaFailure error hint (utcDayKey now)
                                (tierLimit cfg rec))), db')).
Proof.
  intros key n Hr Hk.
  destruct (rateLimitDaily_spec now db "key" h (tierLimit cfg rec) Hr Hk)
    as (u & db' & Hrl & Hu & Hday & _ & Hg & _).
  exists db'. split; [apply count_of_get; exact Hg|].
  unfold key_quota. simpl fst. simpl snd. rewrite Hrl, Hu, Hday. split.
  - intros Hle. replace (tierLimit cfg rec <? _) with false
      by (symmetry; apply Z.ltb_ge; exact Hle). reflexivity.
  - intros Hlt. replace (tierLimit cfg rec <? _) with true
      by (symmetry; apply Z.ltb_lt; exact Hlt).
    eexists _, _. reflexivity.
Qed.



(** C7, as amended.  An increment that brings the counter to 1 sets its
    time to live to the whole seconds left until the next UTC midnight,
    and to one second when less than a second is left; any other
    increment leaves the deadline alone.  The deadline therefore falls
    less than a second before or after midnight.  The key of the counter
    embeds the UTC day: two instants use the same key exactly when they
    are on the same UTC day, so the first request of a day starts a new
    counter without any reset job. *)
Theorem daily_counter_expiry now (db : gmap string Redis.entry) scope id limit :
  Date.in_range now ->
  countable now db (daily_key scope (utcDayKey now) id) ->
  let key := daily_key scope (utcDayKey now) id in
  let n := count_of now db key + 1 in
  let ttl := Z.max 1 ((next_midnight now - now) / 1000) in
  exists u db',
    rateLimitDaily now db scope id limit = (Ok u, db')
    /\ used u = n /\ day u = utcDayKey now
    /\ Redis.get now db' key = Some (Redis.Counter n)
    /\ secondsUntilUtcMidnight now = Some ttl
    /\ (n = 1 -> Redis.deadline now db' key = Some (now + ttl * 1000))
    /\ (n <> 1 -> Redis.deadline now db' key = Redis.deadline now db key)
    /\ (1 <= ttl
        /\ next_midnight now - 1000 < now + ttl * 1000 < next_midnight now + 1000)
    /\ (forall k, k <> key -> db' !! k = db !! k)
    /\ (forall now', Date.in_range now' ->
          (daily_key scope (utcDayKey now') id = key <-> Date.Day now' = Date.Day now)).
Proof.
  intros Hr Hc key n ttl.
  destruct (rateLimitDaily_spec now db scope id limit Hr Hc)
    as (u & db' & Hrl & Hu & Hday & _ & Hg & Hd1 & Hd2 & Hf).
  exists u, db'. split; [exact Hrl|].
  repeat split; auto; try apply ttl_bounds.
  - apply secondsUntilUtcMidnight_eq. exact Hr.
  - intros Hk. apply daily_key_day_inj in Hk. apply utcDayKey_same_day; assumption.
  - intros Hk. unfold key. apply (utcDayKey_same_day now' now) in Hk; [|assumption..].
    rewrite Hk. reflexivity.
Qed.

End QuotaFacts.

(** ** Claiming a key *)
Section ClaimFacts.
Import Server.

(** [Number] keeps the order against an exact integer below 2^53. *)
Lemma Number_of_bigint_small z : z < 2 ^ 53 -> Number_of_bigint z = z.
Proof.
  intros H. unfold Number_of_bigint.
  replace (z <? 2 ^ 53) with true by (symmetry; apply Z.ltb_lt; exact H). reflexivity.
Qed.

Lemma Number_of_bigint_large z : 2 ^ 53 <= z -> 2 ^ 53 <= Number_of_bigint z.
Proof.
  intros H. unfold Number_of_bigint.
  replace (z <? 2 ^ 53) with false by (symmetry; apply Z.ltb_ge; exact H).
  set (k := Z.log2 z - 52).
  assert (Hl : 53 <= Z.log2 z) by (apply Z.log2_le_pow2; lia).
  assert (Hk : 1 <= k) by (unfold k; lia).
  assert (Hq : 2 ^ 52 <= Z.shiftr z k).
  { rewrite Z.shiftr_div_pow2 by lia.
    apply Z.div_le_lower_bound; [apply Z.pow_pos_nonneg; lia|].
    rewrite Z.mul_comm, <- Z.pow_add_r by lia.
    replace (52 + k) with (Z.log2 z) by (unfold k; lia).
    apply Z.log2_spec. lia. }
  set (q := Z.shiftr z k) in *.
  set (q' := if _ <? _ then q else _).
  assert (Hq' : 2 ^ 52 <= q').
  { unfold q'. repeat match goal with |- context [if ?b then _ else _] => destruct b end; lia. }
  rewrite Z.shiftl_mul_pow2 by lia.
  assert (2 ^ 1 <= 2 ^ k) by (apply Z.pow_le_mono_r; lia).
  change (2 ^ 53) with (2 ^ 52 * 2 ^ 1). 
  apply Z.mul_le_mono_nonneg; lia.
Qed.

Lemma Number_of_bigint_after e now_s :
  0 <= now_s < 2 ^ 53 -> (now_s <? Number_of_bigint e) = (now_s <? e).
Proof.
  intros Hn. destruct (Z.lt_ge_cases e (2 ^ 53)) as [H|H].
  - rewrite Number_of_bigint_small by assumption. reflexivity.
  - pose proof (Number_of_bigint_large e H).
    transitivity true; [|symmetry]; apply Z.ltb_lt; lia.
Qed.

(** The effective tier of a snapshot. *)
Lemma effTier_spec tier expiresAt now_s :
  tier < 2 ^ 53 -> 0 <= now_s < 2 ^ 53 ->
  effTier tier expiresAt now_s = if expiresAt <=? now_s then 0 else tier.
Proof.
  intros Ht Hn. unfold effTier. rewrite Number_of_bigint_after by assumption.
  rewrite Number_of_bigint_small by assumption.
  rewrite Z.ltb_antisym. destruct (expiresAt <=? now_s); reflexivity.
Qed.

Variable cfg : Config.
Variable E : Env.

(** What a request that passes [authenticate] looks like. *)
Lemma authenticate_inr st now body addr rq :
  authenticate cfg E st now body = inr (addr, rq) ->
  requireRoaster cfg = None
  /\ getAddress E (cl_address body) = Ok addr
  /\ rq = cleanRequester (Some (or_empty (cl_requester body)))
  /\ JS.truthy rq = true
  /\ JS.truthy (or_empty (cl_signature body)) = true
  /\ exists v, Redis.get now (redis st) (nonce_key addr) = Some v
     /\ exists recovered,
          verifyMessage E (claim_message cfg addr (fst (parse_challenge v))
                             (snd (parse_challenge v)))
                        (or_empty (cl_signature body)) = Ok recovered
          /\ getAddress E (Some recovered) = Ok addr.
Proof.
  unfold authenticate.
  destruct (requireRoaster cfg); [discriminate|].
  destruct (getAddress E (cl_address body)) as [a|]; [|discriminate].
  destruct (JS.truthy (cleanRequester _)) eqn:Hrq; simpl; [|discriminate].
  destruct (JS.truthy (or_empty (cl_signature body))) eqn:Hs; simpl; [|discriminate].
  destruct (Redis.get now (redis st) (nonce_key a)) as [v|] eqn:Hg; [|discriminate].
  destruct (parse_challenge v) as [n i] eqn:Hp.
  destruct (verifyMessage E _ _) as [rec|] eqn:Hv; [|discriminate].
  destruct (getAddress E (Some rec)) as [rec'|] eqn:Hr; [|discriminate].
  destruct (bool_decide (rec' = a)) eqn:Hd; simpl; [|discriminate].
  apply bool_decide_eq_true in Hd. subst rec'.
  intros H. injection H as <- <-.
  repeat split; auto. exists v. split; [exact Hg|]. exists rec. rewrite Hp. simpl. auto.
Qed.

(** [authenticate] reads the state only through the pending challenge. *)
Lemma authenticate_no_challenge st now body addr :
  requireRoaster cfg = None ->
  getAddress E (cl_address body) = Ok addr ->
  JS.truthy (cleanRequester (Some (or_empty (cl_requester body)))) = true ->
  JS.truthy (or_empty (cl_signature body)) = true ->
  Redis.get now (redis st) (nonce_key addr) = None ->
  authenticate cfg E st now body
  = inl (Reply 400 (Failure "Nonce expired. Request a new nonce." None)).
Proof.
  intros H1 H2 H3 H4 H5. unfold authenticate. rewrite H1, H2, H3, H4. simpl.
  rewrite H5. reflexivity.
Qed.

Lemma mint_redis st1 now addr rq eff exp raw h :
  redis (snd (mint E st1 now addr rq eff exp raw h)) = redis st1.
Proof.
  unfold mint. destruct (Upsert.upsertApiKeyForWallet _ _ _ _) as [[?|?] ?]; reflexivity.
Qed.

Lemma issue_redis st now rnd addr rq :
  redis (snd (issue cfg E st now rnd addr rq)) = Redis.del (redis st) (nonce_key addr).
Proof.
  unfold issue. destruct (entitlement E addr) as [[tier e]|]; [|reflexivity].
  destruct (effTier tier e (now / 1000) =? 0); [reflexivity|].
  rewrite mint_redis. reflexivity.
Qed.

(** C2, as amended.  A claim attempt stopped at or before the signature
    check (no requester, no signature, no pending challenge, a signature
    that is malformed or is not the address's) leaves the state, and so
    the pending challenge, as it was.  An attempt whose signature
    verifies deletes the challenge whatever happens next (ledger error,
    no active entitlement, failed or successful mint); replaying the same
    request afterwards, at any time, is answered 400 "Nonce expired.
    Request a new nonce." and changes nothing. *)
Theorem claim_consumes_challenge st now rnd body :
  match authenticate cfg E st now body with
  | inl r => claim cfg E st now rnd body = (r, st)
  | inr (addr, _) =>
      let st' := snd (claim cfg E st now rnd body) in
      redis st' = Redis.del (redis st) (nonce_key addr)
      /\ (forall now', Redis.get now' (redis st') (nonce_key addr) = None)
      /\ (forall now' rnd',
            claim cfg E st' now' rnd' body
            = (Reply 400 (Failure "Nonce expired. Request a new nonce." None), st'))
  end.
Proof.
  destruct (authenticate cfg E st now body) as [r|[addr rq]] eqn:Ha.
  - unfold claim. rewrite Ha. reflexivity.
  - assert (Hr : redis (snd (claim cfg E st now rnd body))
                 = Redis.del (redis st) (nonce_key addr)).
    { unfold claim. rewrite Ha. apply issue_redis. }
    apply authenticate_inr in Ha as (H1 & H2 & -> & H3 & H4 & _).
    assert (Hg : forall now', Redis.get now' (redis (snd (claim cfg E st now rnd body)))
                                (nonce_key addr) = None).
    { intros now'. rewrite Hr. unfold Redis.get, Redis.del.
      rewrite lookup_delete_eq. reflexivity. }
    split; [exact Hr|]. split; [exact Hg|].
    intros now' rnd'. unfold claim at 1.
    rewrite (authenticate_no_challenge _ now' body addr H1 H2 H3 H4 (Hg now')).
    reflexivity.
Qed.

(** C3.  For a snapshot (tier : uint8, expiresAt : uint64) and a clock in
    seconds, the effective tier is 0 when [expiresAt <= now] and the tier
    code unchanged otherwise.  A claim that passes the signature check
    and whose effective tier is 0 is answered 402 "No active
    entitlement", with no key minted; this is the case of every expired
    entitlement, whatever its tier code. *)
Theorem entitlement_gate st now rnd body addr rq tier expiresAt :
  0 <= tier < 2 ^ 8 -> 0 <= expiresAt < 2 ^ 64 -> 0 <= now < 2 ^ 53 ->
  authenticate cfg E st now body = inr (addr, rq) ->
  entitlement E addr = Ok (tier, expiresAt) ->
  (forall now_s, 0 <= now_s < 2 ^ 53 ->
     effTier tier expiresAt now_s = if expiresAt <=? now_s then 0 else tier)
  /\ (effTier tier expiresAt (now / 1000) = 0 ->
      claim cfg E st now rnd body
      = (Reply 402 (Failure "No active entitlement"
                      (Some "Buy a plan onchain then claim again.")),
         mkState (Redis.del (redis st) (nonce_key addr)) (api_keys st)))
  /\ (expiresAt <= now / 1000 -> effTier tier expiresAt (now / 1000) = 0).
Proof.
  intros Ht He Hn Ha Hent.
  assert (Hs : 0 <= now / 1000 < 2 ^ 53).
  { split; [apply Z.div_pos; lia|apply Z.div_lt_upper_bound; lia]. }
  assert (Heff : forall now_s, 0 <= now_s < 2 ^ 53 ->
     effTier tier expiresAt now_s = if expiresAt <=? now_s then 0 else tier).
  { intros now_s Hns. apply effTier_spec; lia. }
  split; [exact Heff|]. split.
  - intros H0. unfold claim. rewrite Ha. unfold issue. rewrite Hent, H0. reflexivity.
  - intros Hexp. rewrite Heff by assumption.
    replace (expiresAt <=? now / 1000) with true by (symmetry; apply Z.leb_le; exact Hexp).
    reflexivity.
Qed.


(** A malformed signature makes [ethers.verifyMessage] throw; the handler's
    catch-all turns that into a 500. *)
Lemma verify_throw_500 st now rnd body addr v m :
  requireRoaster cfg = None ->
  getAddress E (cl_address body) = Ok addr ->
  JS.truthy (cleanRequester (Some (or_empty (cl_requester body)))) = true ->
  JS.truthy (or_empty (cl_signature body)) = true ->
  Redis.get now (redis st) (nonce_key addr) = Some v ->
  verifyMessage E (claim_message cfg addr (fst (parse_challenge v))
                     (snd (parse_challenge v)))
                (or_empty (cl_signature body)) = Throw m ->
  claim cfg E st now rnd body
  = (Reply 500 (Failure (message_or m "Claim failed") None), st).
Proof.
  intros H1 H2 H3 H4 H5 H6. unfold claim, authenticate.
  rewrite H1, H2, H3, H4. simpl. rewrite H5.
  destruct (parse_challenge v) as [n i]. simpl in H6. rewrite H6. reflexivity.
Qed.

Lemma mint_state st1 now addr rq eff exp raw raw' h :
  snd (mint E st1 now addr rq eff exp raw h)
  = snd (mint E st1 now addr rq eff exp raw' h).
Proof.
  unfold mint. destruct (Upsert.upsertApiKeyForWallet _ _ _ _) as [[?|?] ?]; reflexivity.
Qed.

Lemma mint_reply st1 now addr rq eff exp raw h :
  match api_key_of (fst (mint E st1 now addr rq eff exp raw h)) with
  | Some k =>
      k = raw
      /\ status (fst (mint E st1 now addr rq eff exp raw h)) = 200
      /\ api_keys (snd (mint E st1 now addr rq eff exp raw h))
         = (Db.revoke_active now (JS.toLowerCase addr) (api_keys st1)
            ++ [Upsert.new_row h (JS.toLowerCase addr)
                  (if eff =? 2 then "pro" else "basic") None None
                  (Some (exp * 1000)) (Some rq)])%list
  | None => status (fst (mint E st1 now addr rq eff exp raw h)) = 500
  end.
Proof.
  unfold mint, Upsert.upsertApiKeyForWallet. simpl.
  destruct (negb (JS.truthy (JS.toLowerCase addr))); [reflexivity|].
  destruct (negb (JS.truthy h)); [reflexivity|].
  destruct (negb (JS.truthy (if eff =? 2 then "pro" else "basic"))); [reflexivity|].
  unfold Db.date_of_unix.
  destruct (Z.abs (exp * 1000) <=? 8640000000000000); simpl; [|reflexivity].
  destruct (accepts E _ _); simpl; [|reflexivity].
  repeat split.
Qed.

Lemma requireRoaster_reply r :
  requireRoaster cfg = Some r -> r = Reply 500 (NotOk "Onchain not configured").
Proof.
  unfold requireRoaster. destruct (_ && _); [discriminate|]. congruence.
Qed.

(** A request stopped by [authenticate] gets no key. *)
Lemma authenticate_inl st now body r :
  authenticate cfg E st now body = inl r -> api_key_of r = None /\ status r <> 200.
Proof.
  unfold authenticate. destruct (requireRoaster cfg) eqn:Hq.
  { apply requireRoaster_reply in Hq. subst. intros H. injection H as <-.
    split; [reflexivity|discriminate]. }
  repeat match goal with
         | |- context [match ?x with _ => _ end] => destruct x
         end;
    intros H; try discriminate H; injection H as <-;
    (split; [reflexivity|discriminate]).
Qed.

End ClaimFacts.

(** ** One usable key per wallet *)
Section MintFacts.
Import Db Upsert.

Lemma null_or_after_mono now now' ts :
  now <= now' -> null_or_after now' ts = true -> null_or_after now ts = true.
Proof.
  destruct ts as [t|]; simpl; [|reflexivity].
  intros H1 H2. apply Z.ltb_lt in H2. apply Z.ltb_lt. lia.
Qed.

(** A key that is not usable now is not usable later. *)
Lemma usable_mono now now' r :
  now <= now' -> usable now' r = true -> usable now r = true.
Proof.
  unfold usable. intros Hle H.
  repeat (apply andb_true_iff in H as [H ?]).
  repeat (apply andb_true_iff; split); eauto using null_or_after_mono.
Qed.

Lemma usable_revoke now now' r : usable now' (revoke now r) = false.
Proof. reflexivity. Qed.

Lemma usable_for_app now w (t1 t2 : table) :
  usable_for now w (t1 ++ t2) = (usable_for now w t1 ++ usable_for now w t2)%list.
Proof. unfold usable_for. apply List.filter_app. Qed.

(** After the revoking update the wallet has no usable key, at that
    instant and later. *)
Lemma usable_for_revoke_same now now' w (t : table) :
  now <= now' -> usable_for now' w (revoke_active now w t) = [].
Proof.
  intros Hle. unfold usable_for, revoke_active.
  induction t as [|r t IH]; simpl; [reflexivity|].
  destruct (bool_decide (wallet_address r = Some w)) eqn:Hw; simpl.
  - destruct (usable now r) eqn:Hu; simpl.
    + rewrite andb_false_r. exact IH.
    + rewrite Hw. simpl.
      destruct (usable now' r) eqn:Hu'; [|exact IH].
      apply (usable_mono now now' r Hle) in Hu'. congruence.
  - rewrite Hw. simpl. exact IH.
Qed.

(** The keys of the other wallets are not touched. *)
Lemma usable_for_revoke_other now now' w w' (t : table) :
  w' <> w -> usable_for now' w' (revoke_active now w t) = usable_for now' w' t.
Proof.
  intros Hne. unfold usable_for, revoke_active.
  induction t as [|r t IH]; simpl; [reflexivity|].
  destruct (bool_decide (wallet_address r = Some w)) eqn:Hw; simpl.
  - apply bool_decide_eq_true in Hw.
    assert (Hw' : bool_decide (wallet_address r = Some w') = false)
      by (apply bool_decide_eq_false; congruence).
    destruct (usable now r); simpl; rewrite Hw'; simpl; exact IH.
  - rewrite IH. reflexivity.
Qed.

Lemma last_cons {A : Type} (l : list A) : forall x d : A,
  List.last (x :: l) d = List.last l x.
Proof.
  induction l as [|y l IH]; intros x d; [reflexivity|].
  change (List.last (x :: y :: l) d) with (List.last (y :: l) d).
  rewrite !IH. reflexivity.
Qed.

Section Schema.
Variable accepts : table -> Row -> bool.

(** A committed mint: what the table becomes. *)
Lemma upsert_ok now (t t' : table) a :
  upsertApiKeyForWallet accepts now t a = (Ok tt, t') ->
  exists ea eea,
    t' = (revoke_active now (JS.toLowerCase (a_wallet a)) t
          ++ [new_row (a_key_hash a) (JS.toLowerCase (a_wallet a)) (a_tier a)
                (a_daily_limit a) ea eea (a_agent_name a)])%list.
Proof.
  unfold upsertApiKeyForWallet.
  repeat (match goal with |- context [if ?b then _ else _] => destruct b end;
          [discriminate|]).
  simpl. destruct (timestamp_param _) as [ea|]; [|discriminate].
  destruct (timestamp_param _) as [eea|]; [|discriminate].
  destruct (accepts _ _); [|discriminate].
  intros H. injection H as <-. eauto.
Qed.

(** A mint that throws leaves the table as it was. *)
Lemma upsert_throw now (t t' : table) a m :
  upsertApiKeyForWallet accepts now t a = (Throw m, t') -> t' = t.
Proof.
  unfold upsertApiKeyForWallet.
  repeat (match goal with |- context [if ?b then _ else _] => destruct b end;
          [congruence|]).
  destruct (run_stmts _ _ _); congruence.
Qed.

(** After a mint the wallet has at most one usable key, whatever the
    table held before. *)
Lemma upsert_wallet_single now now' (t : table) a :
  now <= now' ->
  fst (upsertApiKeyForWallet accepts now t a) = Ok tt ->
  (length (usable_for now' (JS.toLowerCase (a_wallet a))
             (snd (upsertApiKeyForWallet accepts now t a))) <= 1)%nat.
Proof.
  intros Hle Hok.
  destruct (upsertApiKeyForWallet accepts now t a) as [res t'] eqn:Hu.
  simpl in Hok. subst res. apply upsert_ok in Hu as (ea & eea & ->). simpl.
  rewrite usable_for_app, usable_for_revoke_same by assumption. simpl.
  unfold usable_for. simpl. destruct (_ && _); simpl; lia.
Qed.

(** Sequential mints keep the invariant. *)
Lemma upsert_single_usable now0 now (t : table) a :
  now0 <= now -> single_usable now0 t ->
  single_usable now (snd (upsertApiKeyForWallet accepts now t a)).
Proof.
  intros Hle Hinv now' w Hnow'.
  destruct (upsertApiKeyForWallet accepts now t a) as [[[]|m] t'] eqn:Hu.
  - destruct (decide (w = JS.toLowerCase (a_wallet a))) as [->|Hne].
    + pose proof (upsert_wallet_single now now' t a Hnow') as H.
      rewrite Hu in H. apply H. reflexivity.
    + apply upsert_ok in Hu as (ea & eea & ->). simpl.
      rewrite usable_for_app, usable_for_revoke_other by assumption.
      replace (usable_for now' w [_]) with (@nil Row).
      * rewrite app_nil_r. apply Hinv. lia.
      * unfold usable_for. simpl.
        replace (bool_decide (Some (JS.toLowerCase (a_wallet a)) = Some w)) with false;
          [reflexivity|].
        symmetry. apply bool_decide_eq_false. congruence.
  - apply upsert_throw in Hu as ->. simpl. apply Hinv. lia.
Qed.

(** Mints that run one after the other, in time order, keep at most one
    usable key per wallet. *)
Lemma mints_single_usable l : forall now (t : table),
  single_usable now t -> chronological now l ->
  single_usable (last_time now l) (mints accepts l t).
Proof.
  induction l as [|[t1 a] l IH]; intros now t Hinv Hc; simpl.
  - exact Hinv.
  - destruct Hc as [Hle Hc].
    replace (last_time now ((t1, a) :: l)) with (last_time t1 l).
    + apply IH; [|exact Hc]. apply (upsert_single_usable now); assumption.
    + unfold last_time. simpl List.map. symmetry. apply last_cons.
Qed.

End Schema.

Lemma single_usable_empty now : single_usable now [].
Proof. intros now' w _. simpl. lia. Qed.

End MintFacts.

(** ** The Authorization header *)
Section HeaderFacts.
Import Server.

Lemma capture_after_run i rest cap :
  capture_after i rest = Some cap -> (1 <= i)%nat.
Proof. destruct i; simpl; [discriminate|lia]. Qed.

(** A header the credential is read from also counts as an attempt to
    authenticate. *)
Lemma match_bearer_hadAuth auth m1 :
  match_bearer auth = Some m1 -> hadAuth auth = true.
Proof.
  unfold match_bearer, hadAuth.
  destruct (JS.strip_prefix_ci "Bearer" auth) as [rest|]; [|discriminate].
  intros H. apply capture_after_run in H. apply bool_decide_eq_true. exact H.
Qed.

Lemma bearer_token_hadAuth auth token :
  bearer_token auth = Some token -> hadAuth auth = true.
Proof.
  unfold bearer_token. destruct (match_bearer auth) as [m1|] eqn:Hm; [|discriminate].
  intros _. exact (match_bearer_hadAuth auth m1 Hm).
Qed.

Variable cfg : Config.
Variable E : Env.

(** The record of a request is that of its token, if it has one. *)
Lemma getKeyRecord_token now (t : Db.table) authorization :
  getKeyRecord cfg E now t authorization
  = match bearer_token (or_empty authorization) with
    | Some token =>
        match Db.getKeyRecordByHash now t (hashKey cfg E token) with
        | Some rec => (Some (hashKey cfg E token, rec),
                       Db.touchKeyUsage now t (hashKey cfg E token))
        | None => (None, t)
        end
    | None => (None, t)
    end.
Proof.
  unfold getKeyRecord, bearer_token.
  destruct (match_bearer (or_empty authorization)) as [m1|]; [|reflexivity].
  destruct (JS.truthy (JS.trim m1)); reflexivity.
Qed.

Lemma getKeyRecord_none now (t : Db.table) authorization :
  fst (getKeyRecord cfg E now t authorization) = None ->
  snd (getKeyRecord cfg E now t authorization) = t.
Proof.
  rewrite getKeyRecord_token.
  destruct (bearer_token _); [|reflexivity].
  destruct (Db.getKeyRecordByHash _ _ _); [discriminate|reflexivity].
Qed.

Lemma roast_without_record st now req :
  precheck cfg req = None ->
  fst (getKeyRecord cfg E now (api_keys st) (rq_authorization req)) = None ->
  roast cfg E st now req
  = if hadAuth (or_empty (rq_authorization req))
    then (Reply 401 (Failure "Invalid or expired API key" None), st)
    else serve_free cfg E st now req (api_keys st).
Proof.
  intros Hp Hk. pose proof (getKeyRecord_none _ _ _ Hk) as Ht.
  unfold roast. rewrite Hp.
  destruct (getKeyRecord cfg E now (api_keys st) (rq_authorization req)) as [k t1].
  simpl in Hk, Ht. subst k t1. destruct st. reflexivity.
Qed.

(** The anonymous path answers 200, 429, 500 or 502. *)
Lemma serve_free_status st now req t1 :
  status (fst (serve_free cfg E st now req t1)) <> 401.
Proof.
  unfold serve_free, free_quota, rateLimitDaily, generate, quota_reply.
  repeat match goal with
         | |- _ => break_inner
         end; simpl; discriminate.
Qed.

(** C10, as amended.  What decides is the test [/^Bearer\s+/i]: a
    well-formed request whose Authorization header is absent or fails it
    (another scheme, [Bearer] with nothing after it) is served by the
    anonymous path, never with a 401; a request whose header passes it
    and yields no usable key record, be it for an unknown token or for no
    token at all, is answered 401. *)
Theorem bearer_prefix_decides st now req :
  precheck cfg req = None ->
  (hadAuth (or_empty (rq_authorization req)) = false ->
     roast cfg E st now req = serve_free cfg E st now req (api_keys st)
     /\ status (fst (roast cfg E st now req)) <> 401)
  /\ (hadAuth (or_empty (rq_authorization req)) = true ->
      fst (getKeyRecord cfg E now (api_keys st) (rq_authorization req)) = None ->
      roast cfg E st now req
      = (Reply 401 (Failure "Invalid or expired API key" None), st)).
Proof.
  intros Hp. split.
  - intros Hh.
    assert (Hk : fst (getKeyRecord cfg E now (api_keys st) (rq_authorization req)) = None).
    { rewrite getKeyRecord_token.
      destruct (bearer_token _) as [tok|] eqn:Ht; [|reflexivity].
      apply bearer_token_hadAuth in Ht. congruence. }
    rewrite roast_without_record, Hh by assumption.
    split; [reflexivity|apply serve_free_status].
  - intros Hh Hk. rewrite roast_without_record, Hh by assumption. reflexivity.
Qed.

(** The limit of a key: its own [daily_limit] when that is positive,
    otherwise the limit of its tier. *)
Lemma tierLimit_spec rec :
  (forall n, Db.daily_limit rec = Some n -> 0 < n -> tierLimit cfg rec = n)
  /\ ((Db.daily_limit rec = None \/ exists n, Db.daily_limit rec = Some n /\ n <= 0) ->
      tierLimit cfg rec
      = if bool_decide (JS.toLowerCase (Db.tier rec) = "pro")
        then PRO_DAILY_LIMIT cfg else BASIC_DAILY_LIMIT cfg).
Proof.
  unfold tierLimit. split.
  - intros n -> Hn. replace (0 <? n) with true by (symmetry; apply Z.ltb_lt; exact Hn).
    reflexivity.
  - intros [->|(n & -> & Hn)].
    + repeat case_bool_decide; reflexivity.
    + replace (0 <? n) with false by (symmetry; apply Z.ltb_ge; exact Hn).
      repeat case_bool_decide; reflexivity.
Qed.

End HeaderFacts.

(** ** The limit of a key *)
Section KeyLimit.
Import Server.

(** C9, as amended.  The quota check of a request with a usable key uses
    one limit, [tierLimit]: the [daily_limit] of the key's row when it is
    present and positive, otherwise (absent, zero or negative) the limit
    of the row's tier, PRO for "pro" and BASIC for any other tier.  The
    request passes when the incremented counter is at most that limit and
    is otherwise rejected with it as [daily_limit]. *)
Theorem key_limit_override cfg now (db : gmap string Redis.entry) h rec :
  let key := daily_key "key" (utcDayKey now) h in
  let n := count_of now db key + 1 in
  let L := tierLimit cfg rec in
  Date.in_range now -> countable now db key ->
  (forall o, Db.daily_limit rec = Some o -> 0 < o -> L = o)
  /\ ((Db.daily_limit rec = None \/ exists o, Db.daily_limit rec = Some o /\ o <= 0) ->
      L = if bool_decide (JS.toLowerCase (Db.tier rec) = "pro")
          then PRO_DAILY_LIMIT cfg else BASIC_DAILY_LIMIT cfg)
  /\ exists db',
       (n <= L -> key_quota cfg now db (h, rec) = (None, db'))
       /\ (L < n ->
           exists error hint,
             key_quota cfg now db (h, rec)
             = (Some (Reply 429 (QuotaFailure error hint (utcDayKey now) L)), db')).
Proof.
  intros key n L Hr Hk.
  destruct (tierLimit_spec cfg rec) as [H1 H2].
  split; [exact H1|]. split; [exact H2|].
  destruct (key_quota_spec cfg now db h rec Hr Hk) as (db' & _ & Ha & Hb).
  exists db'. split; assumption.
Qed.

End KeyLimit.

Section Scenarios.
Import Server Sample.

Lemma in_range_t0 : Date.in_range t0.
Proof. unfold Date.in_range, t0. lia. Qed.

(** Six anonymous requests in a row under the default limits, then one
    the next day: five pass, the sixth is rejected with [daily_limit] 5
    and is counted, and the next day's first request starts at 1. *)
Example six_anonymous_requests :
  let '(replies, st) := roasts 6 empty t0 anon in
  List.map status replies = [200; 200; 200; 200; 200; 429]
  /\ List.last replies (Reply 0 (NotOk EmptyString))
     = Reply 429 (QuotaFailure "Free daily limit reached"
                    (Some "Add Authorization: Bearer <API_KEY> for higher limits")
                    "2026-11-02" 5)
  /\ count_of t0 (redis st) (daily_key "free" "2026-11-02" "1.2.3.4:bot1") = 6
  /\ status (fst (roast cfg env st (t0 + Date.msPerDay) anon)) = 200
  /\ count_of (t0 + Date.msPerDay) (redis (snd (roast cfg env st (t0 + Date.msPerDay) anon)))
       (daily_key "free" "2026-11-03" "1.2.3.4:bot1") = 1.
Proof. vm_compute. repeat split; reflexivity. Qed.


(** C1.  Two mints for the same wallet whose statements interleave (both
    revoking updates before either insert) leave the wallet with two
    usable keys: the transaction gives no mutual exclusion.  Mints that
    run one after the other do keep at most one usable key per wallet
    ([mints_single_usable]). *)
Theorem concurrent_mints_leave_two_usable :
  let schedule :=
    [ Upsert.RevokeActive t0 "0xaaaa";
      Upsert.RevokeActive t0 "0xaaaa";
      Upsert.InsertKey "hash-a" "0xaaaa" "pro" None None
                       (Some (Upsert.Valid 1800000000000)) (Some "Bot1");
      Upsert.InsertKey "hash-b" "0xaaaa" "pro" None None
                       (Some (Upsert.Valid 1800000000000)) (Some "Bot1") ] in
  Interleave (Upsert.body t0 mint_a) (Upsert.body t0 mint_b) schedule
  /\ exists t,
       Upsert.run_stmts (fun _ _ => true) schedule [] = Ok t
       /\ length (usable_for t0 "0xaaaa" t) = 2%nat
       /\ ~ single_usable t0 t.
Proof.
  split.
  - apply interleave_left, interleave_right, interleave_left, interleave_right,
      interleave_nil.
  - eexists. split; [reflexivity|]. split; [reflexivity|].
    intros H. specialize (H t0 "0xaaaa" ltac:(lia)).
    vm_compute in H. lia.
Qed.

(** Against C2 as stated: a claim whose signature is somebody else's is
    answered 401 and leaves the challenge in place; replaying it gives
    401 again, and the pending challenge still authorises the genuine
    claim afterwards. *)
Lemma rejected_claim_keeps_challenge :
  let st := challenged "0xAAAA" in
  let forged := claim_body "0xAAAA" (sign "0xbbbb" (challenge_message "0xaaaa")) in
  let genuine := claim_body "0xAAAA" (sign "0xaaaa" (challenge_message "0xaaaa")) in
  let '(r1, st1) := claim cfg env st (t0 + 1000) (bytes 24 Byte.x6b) forged in
  let '(r2, st2) := claim cfg env st1 (t0 + 2000) (bytes 24 Byte.x6b) forged in
  let '(r3, st3) := claim cfg env st2 (t0 + 3000) (bytes 24 Byte.x6b) genuine in
  r1 = Reply 401 (Failure "Signature mismatch." None)
  /\ Redis.get (t0 + 1000) (redis st1) (nonce_key "0xaaaa")
     = Redis.get (t0 + 1000) (redis st) (nonce_key "0xaaaa")
  /\ Redis.get (t0 + 1000) (redis st1) (nonce_key "0xaaaa") <> None
  /\ r2 = Reply 401 (Failure "Signature mismatch." None)
  /\ status r3 = 200.
Proof. vm_compute. repeat split; discriminate. Qed.

(** A correctly signed claim of [0xbbbb], whose tier 1 expired in 2001. *)
Lemma entitlement_gate_witness :
  claim cfg env (challenged "0xBBBB") (t0 + 1000) (bytes 24 Byte.x6b)
        (claim_body "0xBBBB" (sign "0xbbbb" (challenge_message "0xbbbb")))
  = (Reply 402 (Failure "No active entitlement"
                  (Some "Buy a plan onchain then claim again.")),
     mkState (Redis.del (redis (challenged "0xBBBB")) (nonce_key "0xbbbb"))
             (api_keys (challenged "0xBBBB"))).
Proof.
  assert (Ha : authenticate cfg env (challenged "0xBBBB") (t0 + 1000)
                 (claim_body "0xBBBB" (sign "0xbbbb" (challenge_message "0xbbbb")))
               = inr ("0xbbbb", "Bot1")) by (vm_compute; reflexivity).
  assert (He : Server.entitlement env "0xbbbb" = Ok (1, 1000000000)) by reflexivity.
  pose proof (entitlement_gate cfg env (challenged "0xBBBB") (t0 + 1000)
                (bytes 24 Byte.x6b) _ "0xbbbb" "Bot1" 1 1000000000
                ltac:(lia) ltac:(lia) ltac:(unfold t0; lia) Ha He) as (_ & H402 & Hexp).
  apply H402, Hexp. vm_compute. discriminate.
Defined.

(** C6.  A claim with a pending challenge and a malformed signature: the
    verification throws and the handler answers 500 with the message of
    the exception, where the status mapping asks for 401
    ([verify_throw_500] is the general statement). *)
Theorem malformed_signature_gets_500 :
  claim cfg env (challenged "0xAAAA") (t0 + 1000) (bytes 24 Byte.x6b)
        (claim_body "0xAAAA" "0x12")
  = (Reply 500 (Failure "invalid signature" None), challenged "0xAAAA").
Proof. vm_compute. reflexivity. Qed.

(** Against C7 as stated: a counter created at 10:10:00.500 gets 49799
    whole seconds to live and is gone at 23:59:59.500; a request at
    23:59:59.800 of the same UTC day, before midnight, counts from 1
    again. *)
Lemma counter_reset_before_midnight :
  let late := 1793663999800 in
  match rateLimitDaily t0 ∅ "free" "1.2.3.4:bot1" 5 with
  | (Ok u1, db1) =>
      used u1 = 1
      /\ Redis.deadline t0 db1 (daily_key "free" (utcDayKey t0) "1.2.3.4:bot1")
         = Some 1793663999500
      /\ Date.Day late = Date.Day t0
      /\ late < next_midnight t0
      /\ match rateLimitDaily late db1 "free" "1.2.3.4:bot1" 5 with
         | (Ok u2, _) => used u2 = 1
         | (Throw _, _) => False
         end
  | (Throw _, _) => False
  end.
Proof. vm_compute. repeat split; reflexivity. Qed.

(** The deadline of the counter the first request of [t0] creates. *)
Lemma daily_counter_expiry_witness :
  exists u db',
    rateLimitDaily t0 ∅ "free" "1.2.3.4:bot1" 5 = (Ok u, db')
    /\ used u = 1
    /\ Redis.deadline t0 db' (daily_key "free" (utcDayKey t0) "1.2.3.4:bot1")
       = Some (t0 + Z.max 1 ((next_midnight t0 - t0) / 1000) * 1000).
Proof.
  assert (Hc : countable t0 ∅ (daily_key "free" (utcDayKey t0) "1.2.3.4:bot1"))
    by (vm_compute; exact I).
  pose proof (daily_counter_expiry t0 ∅ "free" "1.2.3.4:bot1" 5 in_range_t0 Hc)
    as (u & db' & Hrl & Hu & _ & _ & _ & Hd & _).
  exists u, db'. split; [exact Hrl|]. split; [rewrite Hu; vm_compute; reflexivity|].
  apply Hd. vm_compute. reflexivity.
Defined.

(** Against C9 as stated: a row of tier "pro" whose [daily_limit] is 0 is
    given the limit of its tier. *)
Lemma zero_override_ignored :
  Db.daily_limit zero_limit_key = Some 0
  /\ tierLimit cfg zero_limit_key = 250.
Proof. split; reflexivity. Qed.

(** The first request of the day with that key passes. *)
Lemma key_limit_override_witness :
  exists db', key_quota cfg t0 ∅ ("hash-a", zero_limit_key) = (None, db').
Proof.
  assert (Hc : countable t0 ∅ (daily_key "key" (utcDayKey t0) "hash-a"))
    by (vm_compute; exact I).
  pose proof (key_limit_override cfg t0 ∅ "hash-a" zero_limit_key in_range_t0 Hc)
    as (_ & _ & db' & Hpass & _).
  exists db'. apply Hpass. vm_compute. discriminate.
Defined.

(** Against C10 as stated: [Bearer] followed by a no-break space only, or
    by a space and a no-break space, holds no token, and is answered 401
    all the same. *)
Lemma bearer_without_token_rejected :
  let req h := mkRoastRequest (Some h) "1.2.3.4" (Some "Bot1") (Some "SomeMolty") None in
  bearer_token ("Bearer" +:+ nbsp) = None
  /\ roast cfg env empty t0 (req ("Bearer" +:+ nbsp))
     = (Reply 401 (Failure "Invalid or expired API key" None), empty)
  /\ bearer_token ("Bearer " +:+ nbsp) = None
  /\ roast cfg env empty t0 (req ("Bearer " +:+ nbsp))
     = (Reply 401 (Failure "Invalid or expired API key" None), empty).
Proof. vm_compute. repeat split; reflexivity. Qed.

(** A Basic header is served by the anonymous path. *)
Lemma bearer_prefix_decides_witness :
  roast cfg env empty t0
        (mkRoastRequest (Some "Basic dXNlcjpwdw==") "1.2.3.4" (Some "Bot1")
                        (Some "SomeMolty") None)
  = serve_free cfg env empty t0
        (mkRoastRequest (Some "Basic dXNlcjpwdw==") "1.2.3.4" (Some "Bot1")
                        (Some "SomeMolty") None) [].
Proof.
  assert (Hp : precheck cfg (mkRoastRequest (Some "Basic dXNlcjpwdw==") "1.2.3.4"
                               (Some "Bot1") (Some "SomeMolty") None) = None)
    by (vm_compute; reflexivity).
  pose proof (bearer_prefix_decides cfg env empty t0 _ Hp) as [Hfree _].
  apply Hfree. vm_compute. reflexivity.
Defined.

(** The issuance scenario: a first claim mints a key; after a new
    challenge a second claim mints another and revokes the first, which
    the roast operation then rejects. *)
Example second_claim_revokes_first :
  let body := claim_body "0xAAAA" (sign "0xaaaa" (challenge_message "0xaaaa")) in
  let '(r1, st1) := claim cfg env (challenged "0xAAAA") (t0 + 1000)
                          (bytes 24 Byte.x6b) body in
  let st2 := snd (nonce cfg env st1 t0 (bytes 16 Byte.x61) (Some "0xAAAA")) in
  let '(r2, st3) := claim cfg env st2 (t0 + 2000) (bytes 24 Byte.x6c) body in
  let with_key k := mkRoastRequest (Some ("Bearer " +:+ k)) "1.2.3.4" (Some "Bot1")
                                   (Some "SomeMolty") None in
  match api_key_of r1, api_key_of r2 with
  | Some k1, Some k2 =>
      k1 <> k2
      /\ length (usable_for (t0 + 3000) "0xaaaa" (api_keys st3)) = 1%nat
      /\ status (fst (roast cfg env st3 (t0 + 3000) (with_key k1))) = 401
      /\ status (fst (roast cfg env st3 (t0 + 3000) (with_key k2))) = 200
  | _, _ => False
  end.
Proof. vm_compute. repeat split; (reflexivity || discriminate). Qed.

End Scenarios.

(** * Further properties *)

Section EncodingFacts.
Import Encoding.

Lemma code_chr z : 0 <= z < 256 -> JS.code (JS.chr z) = z.
Proof.
  intros Hz. unfold JS.code, JS.chr.
  rewrite N_ascii_embedding; [lia|]. lia.
Qed.

Lemma code_inj a b : JS.code a = JS.code b -> a = b.
Proof.
  unfold JS.code. intros H. apply N2Z.inj in H.
  rewrite <- (ascii_N_embedding a), <- (ascii_N_embedding b), H. reflexivity.
Qed.

Lemma byteZ_range b : 0 <= byteZ b < 256.
Proof.
  unfold byteZ. pose proof (Strings.Byte.to_N_bounded b). lia.
Qed.

Lemma byteZ_inj a b : byteZ a = byteZ b -> a = b.
Proof.
  unfold byteZ. intros H. apply N2Z.inj in H.
  assert (Hs : Some a = Some b)
    by (rewrite <- (Strings.Byte.of_to_N a), <- (Strings.Byte.of_to_N b), H; reflexivity).
  congruence.
Qed.

Lemma b64url_digit_code n : 0 <= n < 64 ->
  JS.code (b64url_digit n)
  = if n <? 26 then 65 + n else if n <? 52 then 71 + n
    else if n <? 62 then n - 4 else if n =? 62 then 45 else 95.
Proof.
  intros Hn. unfold b64url_digit.
  repeat match goal with |- context [if ?b then _ else _] => destruct b eqn:? end;
    try reflexivity; rewrite code_chr; lia.
Qed.

Lemma b64url_digit_inj m n :
  0 <= m < 64 -> 0 <= n < 64 -> b64url_digit m = b64url_digit n -> m = n.
Proof.
  intros Hm Hn H. apply (f_equal JS.code) in H.
  rewrite !b64url_digit_code in H by assumption.
  repeat match type of H with context [if ?b then _ else _] => destruct b eqn:? end; lia.
Qed.

Lemma b64url_digit_safe n : 0 <= n < 64 -> Server.requester_char (b64url_digit n) = true.
Proof.
  intros Hn. unfold Server.requester_char. rewrite b64url_digit_code by assumption.
  repeat match goal with |- context [if ?b then _ else _] => destruct b eqn:? end; lia.
Qed.


Lemma list_ind3 {A : Type} (P : list A -> Prop) :
  P [] -> (forall a, P [a]) -> (forall a b, P [a; b]) ->
  (forall a b c r, P r -> P (a :: b :: c :: r)) -> forall l, P l.
Proof.
  intros H0 H1 H2 H3. fix IH 1.
  intros [|a [|b [|c r]]]; [exact H0|apply H1|apply H2|apply H3, IH].
Qed.

Lemma group3_digits a b c :
  let n := byteZ a * 65536 + byteZ b * 256 + byteZ c in
  0 <= n / 262144 < 64 /\ 0 <= n / 4096 mod 64 < 64
  /\ 0 <= n / 64 mod 64 < 64 /\ 0 <= n mod 64 < 64.
Proof.
  intros n. pose proof (byteZ_range a). pose proof (byteZ_range b).
  pose proof (byteZ_range c).
  assert (0 <= n < 16777216) by (unfold n; lia).
  repeat split; try (apply Z.mod_pos_bound; lia).
  - apply Z.div_pos; lia.
  - apply Z.div_lt_upper_bound; lia.
Qed.

Lemma group3_inj a b c a' b' c' :
  let n := byteZ a * 65536 + byteZ b * 256 + byteZ c in
  let n' := byteZ a' * 65536 + byteZ b' * 256 + byteZ c' in
  n / 262144 = n' / 262144 -> n / 4096 mod 64 = n' / 4096 mod 64 ->
  n / 64 mod 64 = n' / 64 mod 64 -> n mod 64 = n' mod 64 ->
  a = a' /\ b = b' /\ c = c'.
Proof.
  intros n n' H0 H1 H2 H3.
  pose proof (byteZ_range a). pose proof (byteZ_range b). pose proof (byteZ_range c).
  pose proof (byteZ_range a'). pose proof (byteZ_range b'). pose proof (byteZ_range c').
  assert (Hn : n = n').
  { assert (forall m, m = 262144 * (m / 262144) + 4096 * (m / 4096 mod 64)
                          + 64 * (m / 64 mod 64) + m mod 64) as D
      by (intros m; Z.to_euclidean_division_equations; lia).
    rewrite (D n), (D n'), H0, H1, H2, H3. reflexivity. }
  unfold n, n' in Hn.
  repeat split; apply byteZ_inj; lia.
Qed.

Lemma base64url_safe bs : url_safe (base64url bs) = true.
Proof.
  unfold url_safe. induction bs as [|a|a b|a b c r IH] using list_ind3.
  - reflexivity.
  - pose proof (byteZ_range a). cbn [base64url JS.forallb].
    rewrite !b64url_digit_safe; [reflexivity|..];
      first [apply Z.mod_pos_bound; lia
            |split; [apply Z.div_pos; lia|apply Z.div_lt_upper_bound; lia]].
  - pose proof (byteZ_range a). pose proof (byteZ_range b). cbn [base64url JS.forallb].
    rewrite !b64url_digit_safe; [reflexivity|..];
      first [apply Z.mod_pos_bound; lia
            |split; [apply Z.div_pos; lia|apply Z.div_lt_upper_bound; lia]].
  - destruct (group3_digits a b c) as (D0 & D1 & D2 & D3).
    cbn [base64url JS.forallb]. cbv zeta.
    rewrite !b64url_digit_safe by assumption. exact IH.
Qed.

Lemma base64url_length bs :
  Z.of_nat (String.length (base64url bs)) = (4 * Z.of_nat (length bs) + 2) / 3.
Proof.
  induction bs as [|a|a b|a b c r IH] using list_ind3; try reflexivity.
  cbn [base64url String.length length]. cbv zeta. cbn [String.length].
  rewrite !Nat2Z.inj_succ, IH.
  Z.to_euclidean_division_equations. lia.
Qed.

Lemma base64url_inj bs : forall bs', base64url bs = base64url bs' -> bs = bs'.
Proof.
  induction bs as [|a|a b|a b c r IH] using list_ind3;
    intros [|a' [|b' [|c' r']]]; cbn [base64url]; cbv zeta; intros H;
    try discriminate H; try reflexivity;
    try (destruct r' as [|? [|? [|? ?]]]; discriminate H);
    try (destruct r as [|? [|? [|? ?]]]; discriminate H).
  - injection H as H0 H1.
    pose proof (byteZ_range a). pose proof (byteZ_range a').
    apply b64url_digit_inj in H0, H1;
      try first [apply Z.mod_pos_bound; lia
                |split; [apply Z.div_pos; lia|apply Z.div_lt_upper_bound; lia]].
    f_equal. apply byteZ_inj. revert H0 H1. Z.to_euclidean_division_equations. lia.
  - injection H as H0 H1 H2.
    pose proof (byteZ_range a). pose proof (byteZ_range a').
    pose proof (byteZ_range b). pose proof (byteZ_range b').
    apply b64url_digit_inj in H0, H1, H2;
      try first [apply Z.mod_pos_bound; lia
                |split; [apply Z.div_pos; lia|apply Z.div_lt_upper_bound; lia]].
    assert (Hab : byteZ a = byteZ a' /\ byteZ b = byteZ b')
      by (revert H0 H1 H2; Z.to_euclidean_division_equations; lia).
    destruct Hab as [Ea Eb]. apply byteZ_inj in Ea, Eb. subst. reflexivity.
  - injection H as H0 H1 H2 H3 Hr.
    destruct (group3_digits a b c) as (? & ? & ? & ?).
    destruct (group3_digits a' b' c') as (? & ? & ? & ?).
    apply b64url_digit_inj in H0, H1, H2, H3; try assumption.
    destruct (group3_inj a b c a' b' c' H0 H1 H2 H3) as (-> & -> & ->).
    f_equal. f_equal. f_equal. apply IH. exact Hr.
Qed.

End EncodingFacts.

Section KeyShape.
Import Encoding Server.

Lemma hex_digit_code n : 0 <= n < 16 ->
  JS.code (hex_digit n) = if n <? 10 then 48 + n else 87 + n.
Proof.
  intros Hn. unfold hex_digit. destruct (n <? 10) eqn:E; rewrite code_chr; lia.
Qed.

Lemma hex_digits b :
  0 <= byteZ b / 16 < 16 /\ 0 <= byteZ b mod 16 < 16.
Proof.
  pose proof (byteZ_range b). split; [split|apply Z.mod_pos_bound; lia].
  - apply Z.div_pos; lia.
  - apply Z.div_lt_upper_bound; lia.
Qed.

Lemma hex_digit_inj m n :
  0 <= m < 16 -> 0 <= n < 16 -> hex_digit m = hex_digit n -> m = n.
Proof.
  intros Hm Hn H. apply (f_equal JS.code) in H.
  rewrite !hex_digit_code in H by assumption.
  destruct (m <? 10) eqn:?, (n <? 10) eqn:?; lia.
Qed.

Lemma hex_length bs : String.length (hex bs) = (2 * length bs)%nat.
Proof.
  induction bs as [|b r IH]; [reflexivity|]. cbn [hex String.length length].
  rewrite IH. lia.
Qed.

Lemma hex_lower bs : JS.forallb lower_hex_char (hex bs) = true.
Proof.
  induction bs as [|b r IH]; [reflexivity|]. cbn [hex JS.forallb].
  destruct (hex_digits b) as [H1 H2].
  unfold lower_hex_char at 1 2. rewrite !hex_digit_code by assumption.
  rewrite IH.
  destruct (byteZ b / 16 <? 10) eqn:?, (byteZ b mod 16 <? 10) eqn:?; lia.
Qed.

Lemma hex_inj bs : forall bs', hex bs = hex bs' -> bs = bs'.
Proof.
  induction bs as [|b r IH]; intros [|b' r']; cbn [hex]; intros H;
    try discriminate H; [reflexivity|].
  injection H as H1 H2 Hr.
  destruct (hex_digits b) as [? ?]. destruct (hex_digits b') as [? ?].
  apply hex_digit_inj in H1, H2; try assumption.
  f_equal; [|apply IH; exact Hr].
  apply byteZ_inj. pose proof (Z.div_mod (byteZ b) 16 ltac:(lia)).
  pose proof (Z.div_mod (byteZ b') 16 ltac:(lia)). lia.
Qed.

(** X1.  [randomNonce]: the nonce of a challenge is two lower-case
    hexadecimal digits per random byte, and distinct random bytes give
    distinct nonces. *)
Theorem randomNonce_shape rnd rnd' :
  String.length (randomNonce rnd) = (2 * length rnd)%nat
  /\ JS.forallb lower_hex_char (randomNonce rnd) = true
  /\ (randomNonce rnd = randomNonce rnd' -> rnd = rnd').
Proof.
  unfold randomNonce. split; [apply hex_length|]. split; [apply hex_lower|apply hex_inj].
Qed.

Lemma js_forallb_app p s t :
  JS.forallb p (s +:+ t) = JS.forallb p s && JS.forallb p t.
Proof.
  induction s as [|a s IH]; [reflexivity|]. simpl. rewrite IH. apply andb_assoc.
Qed.

Lemma makeApiKey_safe rnd : url_safe (makeApiKey rnd) = true.
Proof.
  unfold makeApiKey, url_safe. rewrite js_forallb_app.
  change (JS.forallb requester_char (base64url rnd)) with (url_safe (base64url rnd)).
  rewrite base64url_safe. reflexivity.
Qed.

(** X2.  [makeApiKey]: a key is [rk_] followed by the unpadded base64url
    text of the random bytes; it consists of letters, digits, [_] and [-]
    only, is 35 characters long for 24 random bytes, and distinct random
    bytes give distinct keys. *)
Theorem makeApiKey_shape rnd rnd' :
  JS.slice0 3 (makeApiKey rnd) = "rk_"
  /\ url_safe (makeApiKey rnd) = true
  /\ Z.of_nat (String.length (makeApiKey rnd)) = 3 + (4 * Z.of_nat (length rnd) + 2) / 3
  /\ (length rnd = 24%nat -> String.length (makeApiKey rnd) = 35%nat)
  /\ (makeApiKey rnd = makeApiKey rnd' -> rnd = rnd').
Proof.
  unfold makeApiKey.
  assert (Hlen : Z.of_nat (String.length ("rk_" +:+ base64url rnd))
                 = 3 + (4 * Z.of_nat (length rnd) + 2) / 3).
  { rewrite length_app, Nat2Z.inj_add, base64url_length. reflexivity. }
  split; [reflexivity|]. split; [|split; [exact Hlen|split]].
  - apply makeApiKey_safe.
  - intros H24. rewrite H24 in Hlen. change ((4 * Z.of_nat 24 + 2) / 3) with 32 in Hlen. lia.
  - intros H. apply app_inv_head in H. apply base64url_inj. exact H.
Qed.

Lemma requester_char_no_space a : requester_char a = true -> JS.is_space a = false.
Proof. unfold requester_char, JS.is_space. lia. Qed.

Lemma url_safe_no_space s : url_safe s = true -> no_space s = true.
Proof.
  unfold url_safe, no_space. induction s as [|a s IH]; [reflexivity|].
  cbn [JS.forallb]. intros H. apply andb_true_iff in H as [Ha Hs].
  rewrite (requester_char_no_space a Ha), IH by assumption. reflexivity.
Qed.

Lemma js_filter_forallb p s : JS.forallb p (JS.filter p s) = true.
Proof.
  induction s as [|a s IH]; [reflexivity|]. cbn [JS.filter].
  destruct (p a) eqn:Hp; [|exact IH]. cbn [JS.forallb]. rewrite Hp, IH. reflexivity.
Qed.

Lemma js_filter_length p s : (String.length (JS.filter p s) <= String.length s)%nat.
Proof.
  induction s as [|a s IH]; [reflexivity|]. cbn [JS.filter].
  destruct (p a); cbn [String.length]; lia.
Qed.

Lemma js_filter_id p s : JS.forallb p s = true -> JS.filter p s = s.
Proof.
  induction s as [|a s IH]; [reflexivity|]. cbn [JS.forallb JS.filter].
  intros H. apply andb_true_iff in H as [Ha Hs]. rewrite Ha, IH by assumption. reflexivity.
Qed.

Lemma js_slice0_length n s : (String.length (JS.slice0 n s) <= n)%nat.
Proof.
  revert s. induction n as [|n IH]; intros [|a s]; cbn [JS.slice0 String.length]; try lia.
  specialize (IH s). lia.
Qed.

Lemma js_slice0_id n s : (String.length s <= n)%nat -> JS.slice0 n s = s.
Proof.
  revert s. induction n as [|n IH]; intros [|a s]; cbn [JS.slice0 String.length];
    intros H; try reflexivity; [lia|]. rewrite IH by lia. reflexivity.
Qed.

Lemma trimStart_no_space s : no_space s = true -> JS.trimStart s = s.
Proof.
  unfold no_space. destruct s as [|a s]; [reflexivity|]. cbn [JS.forallb JS.trimStart].
  intros H. apply andb_true_iff in H as [Ha _]. apply negb_true_iff in Ha.
  rewrite Ha. reflexivity.
Qed.

Lemma trimEnd_no_space s : no_space s = true -> JS.trimEnd s = s.
Proof.
  unfold no_space. induction s as [|a s IH]; [reflexivity|]. cbn [JS.forallb JS.trimEnd].
  intros H. apply andb_true_iff in H as [Ha Hs]. apply negb_true_iff in Ha.
  rewrite IH by assumption. destruct s; [rewrite Ha|]; reflexivity.
Qed.

Lemma trim_no_space s : no_space s = true -> JS.trim s = s.
Proof.
  intros H. unfold JS.trim. rewrite trimStart_no_space by assumption.
  apply trimEnd_no_space. exact H.
Qed.

Lemma cleanRequester_length v : (String.length (cleanRequester v) <= 48)%nat.
Proof.
  unfold cleanRequester. destruct v as [v|]; [|cbn; lia].
  pose proof (js_filter_length requester_char (JS.slice0 48 (JS.trim v))).
  pose proof (js_slice0_length 48 (JS.trim v)). lia.
Qed.

(** X3.  [cleanRequester]: the cleaned requester name has at most 48
    characters, all of them letters, digits, [_] or [-] (so no white space
    and no [:], the separator of the Redis keys), and cleaning it again
    changes nothing. *)
Theorem cleanRequester_safe v :
  let r := cleanRequester v in
  (String.length r <= 48)%nat
  /\ url_safe r = true
  /\ no_space r = true
  /\ without ":" r = true
  /\ cleanRequester (Some r) = r.
Proof.
  intros r.
  assert (Hlen : (String.length r <= 48)%nat) by apply cleanRequester_length.
  assert (Hsafe : url_safe r = true).
  { unfold r, cleanRequester, url_safe. destruct v; [apply js_filter_forallb|reflexivity]. }
  pose proof (url_safe_no_space r Hsafe) as Hns.
  repeat split; try assumption.
  - clear -Hsafe. unfold url_safe in Hsafe. unfold without. induction r as [|a s IH]; [reflexivity|].
    cbn [JS.forallb] in *. apply andb_true_iff in Hsafe as [Ha Hs].
    rewrite IH by assumption. rewrite andb_true_r. apply negb_true_iff.
    destruct (Ascii.eqb a ":") eqn:E; [|reflexivity].
    apply Ascii.eqb_eq in E. subst a. discriminate Ha.
  - unfold cleanRequester at 1. rewrite trim_no_space, js_slice0_id by assumption.
    apply js_filter_id. exact Hsafe.
Qed.

(** A token without white space is read back from its Bearer header. *)
Lemma bearer_token_plain k :
  JS.truthy k = true -> no_space k = true ->
  bearer_token ("Bearer " +:+ k) = Some k.
Proof.
  intros Hk Hns. unfold bearer_token, match_bearer.
  change (JS.strip_prefix_ci "Bearer" ("Bearer " +:+ k)) with (Some (String " " k)).
  assert (Hrun : JS.space_run (String " " k) = 1%nat).
  { destruct k as [|a k]; [discriminate Hk|]. unfold no_space in Hns.
    cbn [JS.forallb] in Hns. apply andb_true_iff in Hns as [Ha _].
    apply negb_true_iff in Ha. cbn [JS.space_run].
    change (JS.is_space " ") with true. cbv iota. rewrite Ha. reflexivity. }
  cbv iota beta. rewrite Hrun. cbn [capture_after JS.drop]. rewrite Hk.
  assert (Hlt : JS.forallb (fun a => negb (JS.is_line_terminator a)) k = true).
  { clear -Hns. unfold no_space in Hns. induction k as [|a k IH]; [reflexivity|].
    cbn [JS.forallb] in *. apply andb_true_iff in Hns as [Ha Hs].
    rewrite IH by assumption. rewrite andb_true_r.
    revert Ha. unfold JS.is_space, JS.is_line_terminator. lia. }
  rewrite Hlt. cbn [andb]. rewrite trim_no_space, Hk by assumption. reflexivity.
Qed.

End KeyShape.

Section DbFacts.
Import Db.

Lemma find_none_iff {A : Type} (f : A -> bool) (l : list A) :
  List.find f l = None <-> forall x, In x l -> f x = false.
Proof.
  split; [apply List.find_none|].
  induction l as [|x l IH]; [reflexivity|]. intros H. simpl.
  rewrite (H x (or_introl eq_refl)). apply IH. intros y Hy. apply H. right. exact Hy.
Qed.

(** X4.  [getKeyRecordByHash]: a record that is returned is a row of the
    table with the hash asked for, enabled, not revoked, and with both
    expiries null or in the future; when nothing is returned, no row with
    that hash is usable. *)
Theorem getKeyRecordByHash_only_usable now (t : table) h :
  match getKeyRecordByHash now t h with
  | Some r => In r t /\ key_hash r = h /\ usable now r = true
              /\ enabled r = true /\ revoked_at r = None
              /\ (forall e, expires_at r = Some e -> now < e)
              /\ (forall e, entitlement_expires_at r = Some e -> now < e)
  | None => forall r, In r t -> key_hash r = h -> usable now r = false
  end.
Proof.
  unfold getKeyRecordByHash.
  destruct (List.find _ t) as [r|] eqn:Hf.
  - apply List.find_some in Hf as [Hin Hp].
    apply andb_true_iff in Hp as [Hh Hu]. apply bool_decide_eq_true in Hh.
    split; [exact Hin|]. split; [exact Hh|]. split; [exact Hu|].
    unfold usable in Hu. repeat (apply andb_true_iff in Hu as [Hu ?]).
    split; [exact Hu|]. split; [eapply bool_decide_eq_true; eassumption|]. split.
    + intros e He. rewrite He in *. simpl in *. apply Z.ltb_lt. assumption.
    + intros e He. rewrite He in *. simpl in *. apply Z.ltb_lt. assumption.
  - intros r Hin Hh. pose proof (proj1 (find_none_iff _ _) Hf r Hin) as Hp.
    simpl in Hp. rewrite (bool_decide_eq_true_2 _ Hh) in Hp. exact Hp.
Qed.

Lemma usable_later now now' r : now <= now' -> usable now r = false -> usable now' r = false.
Proof.
  intros Hle H. destruct (usable now' r) eqn:E; [|reflexivity].
  apply (usable_mono now now' r Hle) in E. congruence.
Qed.

(** X5.  [revokeApiKeyByHash]: after a revocation the hash resolves to no
    record at any instant, whatever is revoked later; other hashes resolve
    as before and no row is removed. *)
Theorem revokeApiKeyByHash_final now (t : table) h :
  let t' := revokeApiKeyByHash now t h in
  (forall now', getKeyRecordByHash now' t' h = None)
  /\ (forall now' h', h' <> h ->
        getKeyRecordByHash now' t' h' = getKeyRecordByHash now' t h')
  /\ List.map key_hash t' = List.map key_hash t
  /\ (forall now2 h2 now', getKeyRecordByHash now' (revokeApiKeyByHash now2 t' h2) h = None).
Proof.
  intros t'.
  assert (Hnone : forall (u : table) now1 now', 
            getKeyRecordByHash now' (revokeApiKeyByHash now1 u h) h = None).
  { intros u now1 now'. unfold getKeyRecordByHash, revokeApiKeyByHash.
    induction u as [|r u IH]; [reflexivity|]. simpl.
    destruct (bool_decide (key_hash r = h)) eqn:Hh; simpl.
    - rewrite Hh. simpl. exact IH.
    - rewrite Hh. simpl. exact IH. }
  assert (Hother : forall (u : table) now1 h1 now' h', h' <> h1 ->
            getKeyRecordByHash now' (revokeApiKeyByHash now1 u h1) h'
            = getKeyRecordByHash now' u h').
  { intros u now1 h1 now' h' Hne. unfold getKeyRecordByHash, revokeApiKeyByHash.
    induction u as [|r u IH]; [reflexivity|]. simpl.
    destruct (bool_decide (key_hash r = h1)) eqn:Hh; simpl.
    - apply bool_decide_eq_true in Hh.
      replace (bool_decide (key_hash r = h')) with false
        by (symmetry; apply bool_decide_eq_false; congruence).
      simpl. exact IH.
    - destruct (_ && _); [reflexivity|exact IH]. }
  split; [intros; apply Hnone|]. split; [intros; apply Hother; assumption|]. split.
  - unfold t', revokeApiKeyByHash. rewrite List.map_map. apply List.map_ext.
    intros r. destruct (bool_decide _); reflexivity.
  - intros now2 h2 now'. destruct (decide (h = h2)) as [<-|Hne]; [apply Hnone|].
    rewrite Hother by assumption. apply Hnone.
Qed.

Lemma usable_stored now r : usable now (stored_key r) = usable now r.
Proof. reflexivity. Qed.


Lemma filter_map_same {A : Type} (p : A -> bool) (f : A -> A) (l : list A) :
  (forall x, p (f x) = p x) ->
  List.filter p (List.map f l) = List.map f (List.filter p l).
Proof.
  intros H. induction l as [|x l IH]; [reflexivity|]. simpl.
  rewrite H. destruct (p x); simpl; rewrite IH; reflexivity.
Qed.

Lemma touch_row_stored now h r :
  stored_key (if bool_decide (key_hash r = h) then set_last_used now r else r)
  = stored_key r.
Proof. destruct (bool_decide _); reflexivity. Qed.

Lemma touch_stored now (t : table) h :
  List.map stored_key (touchKeyUsage now t h) = List.map stored_key t.
Proof.
  unfold touchKeyUsage. rewrite List.map_map. apply List.map_ext.
  intros r. apply touch_row_stored.
Qed.

Lemma touch_usable_for now (t : table) h now' w :
  List.map stored_key (usable_for now' w (touchKeyUsage now t h))
  = List.map stored_key (usable_for now' w t).
Proof.
  unfold usable_for, touchKeyUsage. rewrite filter_map_same.
  - rewrite List.map_map. apply List.map_ext. intros r. apply touch_row_stored.
  - intros r. destruct (bool_decide (key_hash r = h)); reflexivity.
Qed.


End DbFacts.

Section UpsertFacts.
Import Db Upsert.
Variable accepts : table -> Row -> bool.

Lemma timestamp_param_to_date x v :
  timestamp_param (to_date x) = Ok v -> v = (fun u => u * 1000) <$> x.
Proof.
  unfold to_date, date_of_unix. destruct x as [u|]; simpl; [|congruence].
  destruct (Z.abs (u * 1000) <=? 8640000000000000); simpl; congruence.
Qed.

(** A committed mint, in full. *)
Lemma upsert_committed now (t t' : table) a :
  upsertApiKeyForWallet accepts now t a = (Ok tt, t') ->
  t' = (revoke_active now (JS.toLowerCase (a_wallet a)) t
        ++ [new_row (a_key_hash a) (JS.toLowerCase (a_wallet a)) (a_tier a)
              (a_daily_limit a)
              ((fun u => u * 1000) <$> a_expires_at_unix a)
              ((fun u => u * 1000) <$> a_entitlement_expires_at_unix a)
              (a_agent_name a)])%list.
Proof.
  unfold upsertApiKeyForWallet.
  repeat (match goal with |- context [if ?b then _ else _] => destruct b end;
          [discriminate|]).
  simpl. destruct (timestamp_param (to_date (a_expires_at_unix a))) as [ea|] eqn:E1;
    [|discriminate].
  destruct (timestamp_param (to_date (a_entitlement_expires_at_unix a))) as [eea|] eqn:E2;
    [|discriminate].
  destruct (accepts _ _); [|discriminate].
  apply timestamp_param_to_date in E1, E2. subst ea eea.
  intros H. injection H as <-. reflexivity.
Qed.

Lemma revoke_active_lookup now w (t : table) i r :
  t !! i = Some r ->
  exists r', revoke_active now w t !! i = Some r'
    /\ (r' = r \/ (r' = revoke now r /\ wallet_address r = Some w /\ usable now r = true)).
Proof.
  intros H. unfold revoke_active. rewrite list_lookup_fmap, H. simpl.
  eexists. split; [reflexivity|].
  destruct (bool_decide (wallet_address r = Some w)) eqn:Hw; simpl; [|left; reflexivity].
  destruct (usable now r) eqn:Hu; [|left; reflexivity].
  right. apply bool_decide_eq_true in Hw. auto.
Qed.

Lemma rows_of_revoke_other now w w' (t : table) :
  w' <> w -> rows_of w' (revoke_active now w t) = rows_of w' t.
Proof.
  intros Hne. unfold rows_of, revoke_active.
  induction t as [|r t IH]; [reflexivity|]. simpl.
  destruct (bool_decide (wallet_address r = Some w)) eqn:Hw; simpl.
  - apply bool_decide_eq_true in Hw.
    assert (Hw' : bool_decide (wallet_address r = Some w') = false)
      by (apply bool_decide_eq_false; congruence).
    destruct (usable now r); simpl; rewrite Hw'; exact IH.
  - rewrite IH. reflexivity.
Qed.

Lemma upsert_length now (t t' : table) a :
  upsertApiKeyForWallet accepts now t a = (Ok tt, t') -> length t' = S (length t).
Proof.
  intros Hu. apply upsert_committed in Hu. subst t'.
  rewrite List.length_app. unfold revoke_active. rewrite List.length_map. simpl. lia.
Qed.

Lemma upsert_rows_of now (t t' : table) a w :
  upsertApiKeyForWallet accepts now t a = (Ok tt, t') ->
  w <> JS.toLowerCase (a_wallet a) -> rows_of w t' = rows_of w t.
Proof.
  intros Hu Hne. apply upsert_committed in Hu. subst t'.
  unfold rows_of. rewrite List.filter_app.
  change (List.filter _ (revoke_active now (JS.toLowerCase (a_wallet a)) t))
    with (rows_of w (revoke_active now (JS.toLowerCase (a_wallet a)) t)).
  rewrite rows_of_revoke_other by assumption. simpl.
  replace (bool_decide (Some (JS.toLowerCase (a_wallet a)) = Some w)) with false
    by (symmetry; apply bool_decide_eq_false; congruence).
  apply app_nil_r.
Qed.

(** X7.  [upsertApiKeyForWallet] is all or nothing and keeps the history:
    when it throws the table is as before; when it commits there is
    exactly one more row, the new key's, every earlier row is still there,
    unchanged or revoked (only usable rows of the same wallet are
    revoked), and the rows of other wallets are untouched. *)
Theorem upsert_all_or_nothing now (t : table) a :
  match upsertApiKeyForWallet accepts now t a with
  | (Throw _, t') => t' = t
  | (Ok _, t') =>
      length t' = S (length t)
      /\ List.map key_hash t' = (List.map key_hash t ++ [a_key_hash a])%list
      /\ (forall i r, t !! i = Some r ->
            exists r', t' !! i = Some r'
              /\ (r' = r \/ (r' = revoke now r
                             /\ wallet_address r = Some (JS.toLowerCase (a_wallet a))
                             /\ usable now r = true)))
      /\ (forall w, w <> JS.toLowerCase (a_wallet a) -> rows_of w t' = rows_of w t)
  end.
Proof.
  destruct (upsertApiKeyForWallet accepts now t a) as [[[]|m] t'] eqn:Hu.
  - split; [exact (upsert_length _ _ _ _ Hu)|].
    split; [|split; [|intros w Hne; exact (upsert_rows_of _ _ _ _ w Hu Hne)]];
      apply upsert_committed in Hu; subst t'.
    + rewrite List.map_app. f_equal. unfold revoke_active. rewrite List.map_map.
      apply List.map_ext. intros r. destruct (_ && _); reflexivity.
    + intros i r Hi.
      destruct (revoke_active_lookup now (JS.toLowerCase (a_wallet a)) t i r Hi)
        as (r' & Hr' & Hcase).
      exists r'. split; [|exact Hcase]. apply lookup_app_l_Some. exact Hr'.
  - apply upsert_throw in Hu. exact Hu.
Qed.

Lemma key_hash_revoke_active now w (t : table) r :
  In r (revoke_active now w t) -> exists r0, In r0 t /\ key_hash r = key_hash r0
    /\ ((r = r0 /\ (wallet_address r0 <> Some w \/ usable now r0 = false))
        \/ (r = revoke now r0 /\ wallet_address r0 = Some w /\ usable now r0 = true)).
Proof.
  unfold revoke_active. intros H. apply List.in_map_iff in H as (r0 & Hr & Hin).
  exists r0. split; [exact Hin|].
  destruct (bool_decide (wallet_address r0 = Some w)) eqn:Hw; simpl in Hr;
    [destruct (usable now r0) eqn:Hu|]; subst r; split; try reflexivity.
  - right. apply bool_decide_eq_true in Hw. auto.
  - left. auto.
  - left. apply bool_decide_eq_false in Hw. auto.
Qed.

Lemma find_app_none {A : Type} (p : A -> bool) (l1 l2 : list A) :
  (forall x, In x l1 -> p x = false) -> List.find p (l1 ++ l2) = List.find p l2.
Proof.
  induction l1 as [|x l1 IH]; [reflexivity|]. intros H. simpl.
  rewrite (H x (or_introl eq_refl)). apply IH. intros y Hy. apply H. right. exact Hy.
Qed.

(** The lookup of the key of a committed mint. *)
Lemma committed_key_lookup now (t t' : table) a now' :
  upsertApiKeyForWallet accepts now t a = (Ok tt, t') ->
  (forall r, In r t -> key_hash r <> a_key_hash a) ->
  let lasts x := match x with Some u => now' <? u * 1000 | None => true end in
  getKeyRecordByHash now' t' (a_key_hash a)
  = if lasts (a_expires_at_unix a) && lasts (a_entitlement_expires_at_unix a)
    then Some (new_row (a_key_hash a) (JS.toLowerCase (a_wallet a)) (a_tier a)
                 (a_daily_limit a)
                 ((fun u => u * 1000) <$> a_expires_at_unix a)
                 ((fun u => u * 1000) <$> a_entitlement_expires_at_unix a)
                 (a_agent_name a))
    else None.
Proof.
  intros Hu Hfresh lasts. apply upsert_committed in Hu. subst t'.
  unfold getKeyRecordByHash. rewrite find_app_none.
  - cbn [List.find new_row key_hash]. rewrite bool_decide_eq_true_2 by reflexivity.
    unfold usable. cbn [enabled revoked_at expires_at entitlement_expires_at].
    rewrite bool_decide_eq_true_2 by reflexivity.
    destruct (a_expires_at_unix a), (a_entitlement_expires_at_unix a); reflexivity.
  - intros r Hin. apply key_hash_revoke_active in Hin as (r0 & Hin0 & Hk & _).
    replace (bool_decide (key_hash r = a_key_hash a)) with false; [reflexivity|].
    symmetry. apply bool_decide_eq_false. rewrite Hk. apply Hfresh. exact Hin0.
Qed.

(** X8.  After a committed [upsertApiKeyForWallet] with a hash no row had
    before, [getKeyRecordByHash] returns exactly the inserted row (wallet
    in lower case, enabled, not revoked) at every instant before both of
    its expiries, and nothing from the earlier of them on. *)
Theorem minted_key_lookup now (t t' : table) a now' :
  upsertApiKeyForWallet accepts now t a = (Ok tt, t') ->
  (forall r, In r t -> key_hash r <> a_key_hash a) ->
  let lasts x := match x with Some u => now' <? u * 1000 | None => true end in
  getKeyRecordByHash now' t' (a_key_hash a)
  = if lasts (a_expires_at_unix a) && lasts (a_entitlement_expires_at_unix a)
    then Some (new_row (a_key_hash a) (JS.toLowerCase (a_wallet a)) (a_tier a)
                 (a_daily_limit a)
                 ((fun u => u * 1000) <$> a_expires_at_unix a)
                 ((fun u => u * 1000) <$> a_entitlement_expires_at_unix a)
                 (a_agent_name a))
    else None.
Proof. intros Hu Hfresh. exact (committed_key_lookup now t t' a now' Hu Hfresh). Qed.

(** X9.  The next committed mint for a wallet retires its earlier keys: a
    hash other than the new one whose rows all belong to the wallet
    resolves to no record from the instant of the mint on. *)
Theorem mint_supersedes now (t t' : table) a h now' :
  upsertApiKeyForWallet accepts now t a = (Ok tt, t') ->
  h <> a_key_hash a ->
  (forall r, In r t -> key_hash r = h ->
             wallet_address r = Some (JS.toLowerCase (a_wallet a))) ->
  now <= now' ->
  getKeyRecordByHash now' t' h = None.
Proof.
  intros Hu Hne Hown Hle. apply upsert_committed in Hu. subst t'.
  unfold getKeyRecordByHash. apply find_none_iff. intros r Hin.
  apply List.in_app_iff in Hin as [Hin|[<-|[]]].
  - apply key_hash_revoke_active in Hin as (r0 & Hin0 & Hk & Hcase).
    destruct (bool_decide (key_hash r = h)) eqn:Hh; [|reflexivity]. simpl.
    apply bool_decide_eq_true in Hh. rewrite Hk in Hh.
    destruct Hcase as [(-> & [Hw|Hu0])|(-> & _ & _)]; [| |reflexivity].
    + exfalso. apply Hw. apply Hown; assumption.
    + apply (usable_later now now' r0 Hle Hu0).
  - cbn [new_row key_hash].
    replace (bool_decide (a_key_hash a = h)) with false; [reflexivity|].
    symmetry. apply bool_decide_eq_false. congruence.
Qed.

End UpsertFacts.

Section ClaimMore.
Import Server.
Variable cfg : Config.
Variable E : Env.

(** What a successful claim went through. *)
Lemma claim_issued st now rnd body k eff exp st' :
  claim cfg E st now rnd body = (Reply 200 (KeyIssued k eff exp), st') ->
  exists addr rq tier e,
    authenticate cfg E st now body = inr (addr, rq)
    /\ entitlement E addr = Ok (tier, e)
    /\ eff = effTier tier e (now / 1000) /\ eff <> 0
    /\ exp = Number_of_bigint e
    /\ k = makeApiKey rnd
    /\ redis st' = Redis.del (redis st) (nonce_key addr)
    /\ Upsert.upsertApiKeyForWallet (accepts E) now (api_keys st)
         (Upsert.mkArgs (hashKey cfg E k) addr (if eff =? 2 then "pro" else "basic")
                        None None (Some exp) (Some rq))
       = (Ok tt, api_keys st').
Proof.
  unfold claim.
  destruct (authenticate cfg E st now body) as [r|[addr rq]] eqn:Ha.
  { intros H. injection H as -> _. apply authenticate_inl in Ha as [_ Hs].
    exfalso. apply Hs. reflexivity. }
  unfold issue. destruct (entitlement E addr) as [[tier e]|m] eqn:He; [|discriminate].
  destruct (effTier tier e (now / 1000) =? 0) eqn:H0; [discriminate|].
  apply Z.eqb_neq in H0. unfold mint. cbn [api_keys redis].
  destruct (Upsert.upsertApiKeyForWallet _ _ _ _) as [[[]|m] t'] eqn:Hu; [|discriminate].
  intros H. injection H as <- <- <- <-.
  exists addr, rq, tier, e. repeat split; auto.
Qed.

(** X10.  A key handed out by a claim (200) is stored under its hash with
    the tier name of the effective tier, no daily-limit override and the
    entitlement's expiry, which lies after the claim.  Presented as
    [Bearer <key>] by a well-formed request, it takes the authenticated
    path at every instant before that expiry and is refused with 401 from
    the expiry on. *)
Theorem issued_key_lifetime st now rnd body k eff exp st' :
  claim cfg E st now rnd body = (Reply 200 (KeyIssued k eff exp), st') ->
  (forall r, In r (api_keys st) -> Db.key_hash r <> hashKey cfg E k) ->
  exists row,
    Db.key_hash row = hashKey cfg E k
    /\ Db.tier row = (if eff =? 2 then "pro" else "basic")
    /\ Db.daily_limit row = None
    /\ Db.entitlement_expires_at row = Some (exp * 1000)
    /\ now < exp * 1000
    /\ forall now' req,
         rq_authorization req = Some ("Bearer " +:+ k) -> precheck cfg req = None ->
         (now' < exp * 1000 ->
            roast cfg E st' now' req
            = serve_key cfg E st' now' req
                (Db.touchKeyUsage now' (api_keys st') (hashKey cfg E k))
                (hashKey cfg E k, row))
         /\ (exp * 1000 <= now' ->
             roast cfg E st' now' req
             = (Reply 401 (Failure "Invalid or expired API key" None), st')).
Proof.
  intros Hc Hfresh.
  destruct (claim_issued _ _ _ _ _ _ _ _ Hc)
    as (addr & rq & tier & e & Ha & He & Heff & H0 & Hexp & Hk & _ & Hu).
  pose proof (fun now' => committed_key_lookup (accepts E) now (api_keys st) (api_keys st') _
                            now' Hu Hfresh) as Hl.
  cbn [Upsert.a_key_hash Upsert.a_wallet Upsert.a_tier Upsert.a_daily_limit
       Upsert.a_expires_at_unix Upsert.a_entitlement_expires_at_unix
       Upsert.a_agent_name] in Hl. cbn [fmap option_fmap option_map andb] in Hl.
  exists (Upsert.new_row (hashKey cfg E k) (JS.toLowerCase addr)
            (if eff =? 2 then "pro" else "basic") None None (Some (exp * 1000)) (Some rq)).
  split; [|split; [|split; [|split; [|split]]]];
    [reflexivity..| |].
  - (* the entitlement had not run out when the key was minted *)
    assert (Hact : now / 1000 < exp).
    { rewrite Heff in H0. unfold effTier in H0. rewrite <- Hexp in H0.
      destruct (now / 1000 <? exp) eqn:Hlt; [apply Z.ltb_lt; exact Hlt|].
      exfalso. apply H0. reflexivity. }
    pose proof (Z.div_mod now 1000 ltac:(lia)).
    pose proof (Z.mod_pos_bound now 1000 ltac:(lia)). lia.
  - intros now' req Hauth Hp.
    assert (Htok : bearer_token ("Bearer " +:+ k) = Some k).
    { pose proof (makeApiKey_safe rnd) as Hsafe.
      rewrite <- Hk in Hsafe. apply bearer_token_plain.
      - rewrite Hk. reflexivity.
      - apply url_safe_no_space. exact Hsafe. }
    assert (Hrec : getKeyRecord cfg E now' (api_keys st') (rq_authorization req)
                   = match Db.getKeyRecordByHash now' (api_keys st') (hashKey cfg E k) with
                     | Some rec => (Some (hashKey cfg E k, rec),
                                    Db.touchKeyUsage now' (api_keys st') (hashKey cfg E k))
                     | None => (None, api_keys st')
                     end).
    { rewrite getKeyRecord_token, Hauth.
      change (or_empty (Some ("Bearer " +:+ k))) with ("Bearer " +:+ k).
      rewrite Htok. reflexivity. }
    split.
    + intros Hlt. unfold roast. rewrite Hp, Hrec, Hl.
      replace (now' <? exp * 1000) with true by (symmetry; apply Z.ltb_lt; exact Hlt).
      reflexivity.
    + intros Hge. rewrite roast_without_record; [| exact Hp |].
      * rewrite Hauth. change (or_empty (Some ("Bearer " +:+ k))) with ("Bearer " +:+ k).
        rewrite (bearer_token_hadAuth _ _ Htok). reflexivity.
      * rewrite Hrec, Hl.
        replace (now' <? exp * 1000) with false by (symmetry; apply Z.ltb_ge; exact Hge).
        reflexivity.
Qed.

End ClaimMore.

Section CounterFacts.
Import Server.

Lemma secondsUntilUtcMidnight_pos now ttl :
  secondsUntilUtcMidnight now = Some ttl -> 1 <= ttl.
Proof.
  unfold secondsUntilUtcMidnight. destruct (Date.UTC _ _ _); [|discriminate].
  intros H. injection H as <-. lia.
Qed.

Lemma count_of_frame now (db db' : gmap string Redis.entry) k :
  db' !! k = db !! k -> count_of now db' k = count_of now db k.
Proof. intros H. unfold count_of. rewrite (get_frame now db db' k H). reflexivity. Qed.

(** INCR, whatever the key holds: other keys are untouched and the count
    of the key does not go down. *)
Lemma incr_any now (db : gmap string Redis.entry) key :
  match Redis.incr now db key with
  | Ok (n, db') =>
      (forall k, k <> key -> db' !! k = db !! k)
      /\ Redis.get now db' key = Some (Redis.Counter n)
      /\ count_of now db key + 1 = n
  | Throw _ => True
  end.
Proof.
  unfold Redis.incr, count_of, Redis.get.
  destruct (db !! key) as [[v d]|] eqn:Hk.
  - destruct (Redis.live now (Redis.Entry v d)) eqn:Hl.
    + destruct v as [n|]; [|exact I]. destruct (n <? 2 ^ 63 - 1); [|exact I].
      rewrite lookup_insert_eq.
      replace (Redis.live now (Redis.Entry (Redis.Counter (n + 1)) d)) with true
        by (rewrite <- Hl; reflexivity).
      repeat split. intros k Hne. apply lookup_insert_ne. congruence.
    + rewrite lookup_insert_eq. simpl.
      repeat split. intros k Hne. apply lookup_insert_ne. congruence.
  - rewrite lookup_insert_eq. simpl.
    repeat split. intros k Hne. apply lookup_insert_ne. congruence.
Qed.

Lemma incr_daily_any now (db : gmap string Redis.entry) key :
  let db' := snd (incr_daily now db key) in
  (forall k, k <> key -> db' !! k = db !! k)
  /\ count_of now db key <= count_of now db' key <= count_of now db key + 1
  /\ (forall e', db' !! key = Some e' ->
        db !! key = Some e' \/ exists n, Redis.val e' = Redis.Counter n).
Proof.
  unfold incr_daily. pose proof (incr_any now db key) as Hi.
  destruct (Redis.incr now db key) as [[n db1]|m]; cbn [snd].
  2:{ split; [auto|]. split; [lia|auto]. }
  destruct Hi as (Hf & Hg & Hn).
  assert (Hv : forall e', db1 !! key = Some e' -> exists n, Redis.val e' = Redis.Counter n).
  { intros e' He'. unfold Redis.get in Hg. rewrite He' in Hg.
    destruct (Redis.live now e'); [|discriminate]. injection Hg as Hg. eauto. }
  assert (Hc : count_of now db key <= count_of now db1 key <= count_of now db key + 1)
    by (rewrite (count_of_get _ _ _ _ Hg); lia).
  destruct (n =? 1); [|cbn [snd]; split; [auto|]; split; [exact Hc|auto]].
  destruct (secondsUntilUtcMidnight now) as [ttl|] eqn:Ht; cbn [snd];
    [|split; [auto|]; split; [exact Hc|auto]].
  pose proof (secondsUntilUtcMidnight_pos now ttl Ht) as Hpos.
  destruct (expire_spec now db1 key _ ttl Hg ltac:(lia)) as (Hg' & _ & Hf').
  split; [|split].
  - intros k Hne. rewrite Hf' by assumption. apply Hf. assumption.
  - rewrite (count_of_get _ _ _ _ Hg'). lia.
  - intros e' He'. right. unfold Redis.get in Hg'. rewrite He' in Hg'.
    destruct (Redis.live now e'); [|discriminate]. injection Hg' as Hg'. eauto.
Qed.

Lemma rateLimitDaily_snd now (db : gmap string Redis.entry) scope id limit :
  snd (rateLimitDaily now db scope id limit)
  = snd (incr_daily now db (daily_key scope (utcDayKey now) id)).
Proof.
  unfold rateLimitDaily. destruct (incr_daily _ _ _) as [[?|?] ?]; reflexivity.
Qed.

Lemma is_daily_daily_key scope d id : is_daily (daily_key scope d id) = true.
Proof. reflexivity. Qed.

Lemma is_daily_nonce_key addr : is_daily (nonce_key addr) = false.
Proof. reflexivity. Qed.

Lemma counting_step_refl now db : counting_step now db db.
Proof. repeat split; auto. lia. Qed.

Lemma counting_step_trans now db1 db2 db3 :
  counting_step now db1 db2 -> counting_step now db2 db3 -> counting_step now db1 db3.
Proof.
  intros (F1 & M1 & T1) (F2 & M2 & T2). repeat split.
  - intros k Hk. rewrite F2, F1 by assumption. reflexivity.
  - intros k. specialize (M1 k). specialize (M2 k). lia.
  - auto.
Qed.

Lemma counting_step_incr now (db : gmap string Redis.entry) key :
  is_daily key = true -> counting_step now db (snd (incr_daily now db key)).
Proof.
  intros Hd. destruct (incr_daily_any now db key) as (Hf & Hm & Hv). repeat split.
  - intros k Hk. apply Hf. congruence.
  - intros k. destruct (decide (k = key)) as [->|Hne]; [exact (proj1 Hm)|].
    rewrite (count_of_frame now db _ k (Hf k Hne)). lia.
  - intros Ht k e He Hk. destruct (decide (k = key)) as [->|Hne].
    + destruct (Hv e He) as [Hold|Hc]; [apply (Ht key e Hold Hk)|exact Hc].
    + rewrite Hf in He by assumption. apply (Ht k e He Hk).
Qed.

Section WithConfig.
Variable cfg : Config.

Lemma free_quota_step now (db : gmap string Redis.entry) ip requester :
  counting_step now db (snd (free_quota cfg now db ip requester)).
Proof.
  unfold free_quota.
  pose proof (counting_step_incr now db
                ("roaster:daily:free-ip:" +:+ utcDayKey now +:+ ":" +:+ ip) eq_refl) as H1.
  destruct (incr_daily now db _) as [[ipUsed|m] db1]; cbn [snd] in *; [|exact H1].
  destruct (FREE_IP_DAILY_LIMIT cfg <? ipUsed); [exact H1|].
  pose proof (counting_step_incr now db1
                (daily_key "free" (utcDayKey now) (ip +:+ ":" +:+ JS.toLowerCase requester))
                eq_refl) as H2.
  rewrite <- rateLimitDaily_snd with (limit := FREE_DAILY_LIMIT cfg) in H2.
  destruct (rateLimitDaily now db1 "free" _ (FREE_DAILY_LIMIT cfg)) as [[u|m] db2];
    cbn [snd] in *.
  - destruct (FREE_DAILY_LIMIT cfg <? used u); apply (counting_step_trans _ _ _ _ H1 H2).
  - apply (counting_step_trans _ _ _ _ H1 H2).
Qed.

Lemma key_quota_step now (db : gmap string Redis.entry) keyRec :
  counting_step now db (snd (key_quota cfg now db keyRec)).
Proof.
  unfold key_quota.
  pose proof (counting_step_incr now db (daily_key "key" (utcDayKey now) (fst keyRec))
                eq_refl) as H1.
  rewrite <- rateLimitDaily_snd with (limit := tierLimit cfg (snd keyRec)) in H1.
  destruct (rateLimitDaily now db "key" _ _) as [[u|m] db1]; cbn [snd] in *; [|exact H1].
  destruct (tierLimit cfg (snd keyRec) <? used u); exact H1.
Qed.

Variable E : Env.

Lemma roast_state st now req :
  exists db t,
    snd (roast cfg E st now req) = mkState db t
    /\ counting_step now (redis st) db
    /\ (t = api_keys st \/ exists h, t = Db.touchKeyUsage now (api_keys st) h).
Proof.
  unfold roast. destruct (precheck cfg req).
  { exists (redis st), (api_keys st). destruct st. cbn.
    split; [reflexivity|]. split; [apply counting_step_refl|left; reflexivity]. }
  assert (Ht : forall p : option (string * Db.Row) * Db.table,
             p = getKeyRecord cfg E now (api_keys st) (rq_authorization req) ->
             snd p = api_keys st \/ exists h, snd p = Db.touchKeyUsage now (api_keys st) h).
  { intros p ->. rewrite getKeyRecord_token.
    destruct (bearer_token _); [|left; reflexivity].
    destruct (Db.getKeyRecordByHash _ _ _); [right; eauto|left; reflexivity]. }
  specialize (Ht _ eq_refl).
  destruct (getKeyRecord cfg E now (api_keys st) (rq_authorization req)) as [[rec|] t1];
    cbn [snd] in Ht.
  - unfold serve_key. pose proof (key_quota_step now (redis st) rec) as Hs.
    destruct (key_quota cfg now (redis st) rec) as [[r|] db]; cbn [snd] in *;
      exists db, t1; auto.
  - destruct (hadAuth _).
    + exists (redis st), t1. split; [reflexivity|]. split; [apply counting_step_refl|exact Ht].
    + unfold serve_free.
      pose proof (free_quota_step now (redis st) (rq_ip req)
                    (cleanRequester (rq_requester req))) as Hs.
      destruct (free_quota cfg now (redis st) _ _) as [[r|] db]; cbn [snd] in *;
        exists db, t1; auto.
Qed.

Lemma incr_daily_once now (db : gmap string Redis.entry) key k :
  count_of now (snd (incr_daily now db key)) k <= count_of now db k + 1
  /\ (k <> key -> count_of now (snd (incr_daily now db key)) k = count_of now db k).
Proof.
  destruct (incr_daily_any now db key) as (Hf & Hm & _).
  destruct (decide (k = key)) as [->|Hne]; [split; [lia|congruence]|].
  rewrite (count_of_frame now db _ k (Hf k Hne)). split; [lia|reflexivity].
Qed.

Lemma free_quota_once now (db : gmap string Redis.entry) ip requester k :
  count_of now (snd (free_quota cfg now db ip requester)) k <= count_of now db k + 1.
Proof.
  unfold free_quota.
  pose proof (incr_daily_once now db
                ("roaster:daily:free-ip:" +:+ utcDayKey now +:+ ":" +:+ ip) k)
    as [H1 H1'].
  destruct (incr_daily now db _) as [[ipUsed|m] db1]; cbn [snd] in *; [|exact H1].
  destruct (FREE_IP_DAILY_LIMIT cfg <? ipUsed); [exact H1|].
  pose proof (incr_daily_once now db1
                (daily_key "free" (utcDayKey now) (ip +:+ ":" +:+ JS.toLowerCase requester))
                k) as [H2 H2'].
  rewrite <- rateLimitDaily_snd with (limit := FREE_DAILY_LIMIT cfg) in H2, H2'.
  assert (Hk : count_of now (snd (rateLimitDaily now db1 "free"
                 (ip +:+ ":" +:+ JS.toLowerCase requester) (FREE_DAILY_LIMIT cfg))) k
               <= count_of now db k + 1).
  { destruct (decide (k = "roaster:daily:free-ip:" +:+ utcDayKey now +:+ ":" +:+ ip))
      as [Heq|Hne].
    - rewrite H2'; [exact H1|].
      rewrite Heq. intros Hd. symmetry in Hd. revert Hd. apply free_keys_differ.
    - rewrite H1' in H2 by exact Hne. exact H2. }
  destruct (rateLimitDaily now db1 "free" _ (FREE_DAILY_LIMIT cfg)) as [[u|m] db2];
    cbn [snd] in *; [destruct (FREE_DAILY_LIMIT cfg <? used u)|]; exact Hk.
Qed.

Lemma key_quota_once now (db : gmap string Redis.entry) keyRec k :
  count_of now (snd (key_quota cfg now db keyRec)) k <= count_of now db k + 1.
Proof.
  unfold key_quota.
  pose proof (incr_daily_once now db (daily_key "key" (utcDayKey now) (fst keyRec)) k)
    as [H1 _].
  rewrite <- rateLimitDaily_snd with (limit := tierLimit cfg (snd keyRec)) in H1.
  destruct (rateLimitDaily now db "key" _ _) as [[u|m] db1]; cbn [snd] in *;
    [destruct (tierLimit cfg (snd keyRec) <? used u)|]; exact H1.
Qed.

Lemma roast_once st now req k :
  count_of now (redis (snd (roast cfg E st now req))) k <= count_of now (redis st) k + 1.
Proof.
  unfold roast. destruct (precheck cfg req); [cbn [snd]; lia|].
  destruct (getKeyRecord cfg E now (api_keys st) (rq_authorization req)) as [[rec|] t1].
  - unfold serve_key. pose proof (key_quota_once now (redis st) rec k) as Hs.
    destruct (key_quota cfg now (redis st) rec) as [[r|] db]; exact Hs.
  - destruct (hadAuth _); [cbn [snd redis]; lia|].
    unfold serve_free.
    pose proof (free_quota_once now (redis st) (rq_ip req)
                  (cleanRequester (rq_requester req)) k) as Hs.
    destruct (free_quota cfg now (redis st) _ _) as [[r|] db]; exact Hs.
Qed.

(** X11.  A roast request only counts: whatever its outcome, it leaves
    every key that is not a daily counter (so every pending challenge) as
    it was, no counter goes down and none goes up by more than one, and
    the stored keys and every wallet's usable keys are the same up to
    [last_used_at]. *)
Theorem roast_only_counts st now req :
  let st' := snd (roast cfg E st now req) in
  (forall k, is_daily k = false -> redis st' !! k = redis st !! k)
  /\ (forall addr now', Redis.get now' (redis st') (nonce_key addr)
                        = Redis.get now' (redis st) (nonce_key addr))
  /\ (forall k, count_of now (redis st) k <= count_of now (redis st') k
                 <= count_of now (redis st) k + 1)
  /\ List.map stored_key (api_keys st') = List.map stored_key (api_keys st)
  /\ (forall now' w, List.map stored_key (usable_for now' w (api_keys st'))
                     = List.map stored_key (usable_for now' w (api_keys st))).
Proof.
  intros st'. destruct (roast_state st now req) as (db & t & Hst & (Hf & Hm & _) & Ht).
  unfold st'. rewrite Hst. cbn [redis api_keys].
  split; [exact Hf|]. split; [|split].
  - intros addr now'. apply get_frame, Hf, is_daily_nonce_key.
  - intros k. split; [apply Hm|]. pose proof (roast_once st now req k) as Ho.
    rewrite Hst in Ho. exact Ho.
  - destruct Ht as [->|(h & ->)]; [split; reflexivity|].
    split; [apply touch_stored|intros now' w; apply touch_usable_for].
Qed.

End WithConfig.
End CounterFacts.

Section SeparatorFacts.

Lemma without_app_sep c s t : without c (s +:+ String c t) = false.
Proof.
  unfold without. rewrite js_forallb_app. cbn [JS.forallb].
  rewrite Ascii.eqb_refl. cbn. apply andb_false_r.
Qed.

(** Two strings cut at their first separator. *)
Lemma first_sep_inj c s1 : forall s2 t1 t2,
  without c s1 = true -> without c s2 = true ->
  s1 +:+ String c t1 = s2 +:+ String c t2 -> s1 = s2 /\ t1 = t2.
Proof.
  unfold without. induction s1 as [|a s1 IH]; intros [|b s2] t1 t2 H1 H2 H;
    cbn [String.app append JS.forallb] in *.
  - injection H as H. auto.
  - injection H as Hb _. subst b. rewrite Ascii.eqb_refl in H2. discriminate H2.
  - injection H as Ha _. subst a. rewrite Ascii.eqb_refl in H1. discriminate H1.
  - injection H as -> H. apply andb_true_iff in H1 as [_ H1].
    apply andb_true_iff in H2 as [_ H2].
    destruct (IH s2 t1 t2 H1 H2 H) as [-> ->]. auto.
Qed.

(** Two strings cut at their last separator. *)
Lemma last_sep_inj c s1 : forall s2 t1 t2,
  without c t1 = true -> without c t2 = true ->
  s1 +:+ String c t1 = s2 +:+ String c t2 -> s1 = s2 /\ t1 = t2.
Proof.
  induction s1 as [|a s1 IH]; intros [|b s2] t1 t2 H1 H2 H;
    cbn [String.app append] in *.
  - injection H as H. auto.
  - injection H as _ H. subst t1. rewrite without_app_sep in H1. discriminate H1.
  - injection H as _ H. subst t2. rewrite without_app_sep in H2. discriminate H2.
  - injection H as -> H. destruct (IH s2 t1 t2 H1 H2 H) as [-> ->]. auto.
Qed.

Lemma app_assoc_string (s t u : string) : (s +:+ t) +:+ u = s +:+ (t +:+ u).
Proof.
  induction s as [|a s IH]; [reflexivity|].
  change (String a ((s +:+ t) +:+ u) = String a (s +:+ (t +:+ u))).
  rewrite IH. reflexivity.
Qed.

Lemma lower_hex_without_LF s :
  JS.forallb lower_hex_char s = true -> without (JS.chr 10) s = true.
Proof.
  unfold without. induction s as [|a s IH]; [reflexivity|]. cbn [JS.forallb].
  intros H. apply andb_true_iff in H as [Ha Hs]. rewrite IH by assumption.
  rewrite andb_true_r. apply negb_true_iff.
  destruct (Ascii.eqb a (JS.chr 10)) eqn:E; [|reflexivity].
  apply Ascii.eqb_eq in E. subst a. discriminate Ha.
Qed.

End SeparatorFacts.

Section KeyspaceFacts.
Import Server.
Variable cfg : Config.
Variable E : Env.

Lemma nonce_issued st now rnd address addr message st1 :
  nonce cfg E st now rnd address = (Reply 200 (NonceIssued addr message), st1) ->
  requireRoaster cfg = None
  /\ getAddress E address = Ok addr
  /\ message = claim_message cfg addr (randomNonce rnd) (Date.toISOString now)
  /\ st1 = mkState (Redis.set_ex now (redis st) (nonce_key addr)
                      (Redis.Challenge (randomNonce rnd) (Date.toISOString now)) 300)
                   (api_keys st).
Proof.
  unfold nonce. destruct (requireRoaster cfg) as [bad|] eqn:Hq.
  { apply requireRoaster_reply in Hq. subst bad. discriminate. }
  destruct (getAddress E address) as [a|m]; [|discriminate].
  intros H. injection H as <- <- <-. auto.
Qed.

Lemma get_set_ex now (db : gmap string Redis.entry) key v s now' :
  Redis.get now' (Redis.set_ex now db key v s) key
  = if now' <=? now + s * 1000 then Some v else None.
Proof. unfold Redis.get, Redis.set_ex. rewrite lookup_insert_eq. reflexivity. Qed.

(** X12.  A challenge handed out by the nonce route is what a claim is
    checked against: issuing it changes only the address's nonce key; for
    300 seconds a claim for that address with requester and signature is
    decided by verifying the signature against exactly the message that
    was handed out; after 300 seconds it is answered 400 "Nonce expired". *)
Theorem challenge_round_trip st now rnd address addr message st1 now' body :
  nonce cfg E st now rnd address = (Reply 200 (NonceIssued addr message), st1) ->
  getAddress E (cl_address body) = Ok addr ->
  JS.truthy (cleanRequester (Some (or_empty (cl_requester body)))) = true ->
  JS.truthy (or_empty (cl_signature body)) = true ->
  api_keys st1 = api_keys st
  /\ (forall k, k <> nonce_key addr -> redis st1 !! k = redis st !! k)
  /\ (now' <= now + 300000 ->
      authenticate cfg E st1 now' body
      = match verifyMessage E message (or_empty (cl_signature body)) with
        | Throw m => inl (claim_failed m)
        | Ok recovered =>
            match getAddress E (Some recovered) with
            | Throw m => inl (claim_failed m)
            | Ok recovered' =>
                if bool_decide (recovered' = addr)
                then inr (addr, cleanRequester (Some (or_empty (cl_requester body))))
                else inl (Reply 401 (Failure "Signature mismatch." None))
            end
        end)
  /\ (now + 300000 < now' ->
      authenticate cfg E st1 now' body
      = inl (Reply 400 (Failure "Nonce expired. Request a new nonce." None))).
Proof.
  intros Hn Ha Hr Hs. apply nonce_issued in Hn as (Hq & _ & -> & ->).
  cbn [api_keys redis]. split; [reflexivity|]. split.
  { intros k Hk. unfold Redis.set_ex. apply lookup_insert_ne. congruence. }
  split.
  - intros Hle. unfold authenticate. rewrite Hq, Ha, Hr, Hs. cbn [negb redis].
    rewrite get_set_ex.
    replace (now' <=? now + 300 * 1000) with true by (symmetry; apply Z.leb_le; lia).
    cbn [parse_challenge].
    destruct (verifyMessage E _ _) as [rec|m]; [|reflexivity].
    destruct (getAddress E (Some rec)) as [rec'|m]; [|reflexivity].
    destruct (bool_decide (rec' = addr)); reflexivity.
  - intros Hlt. apply authenticate_no_challenge with (addr := addr); try assumption.
    cbn [redis]. rewrite get_set_ex.
    replace (now' <=? now + 300 * 1000) with false by (symmetry; apply Z.leb_gt; lia).
    reflexivity.
Qed.

(** X13.  A second challenge for an address replaces the pending one: the
    state is as if only the second had been requested, the stored nonce is
    the second with a fresh 300 seconds, and the two messages to sign
    differ whenever the random bytes differ. *)
Theorem nonce_replaces_pending st now1 rnd1 a1 addr m1 st1 now2 rnd2 a2 m2 st2 :
  nonce cfg E st now1 rnd1 a1 = (Reply 200 (NonceIssued addr m1), st1) ->
  nonce cfg E st1 now2 rnd2 a2 = (Reply 200 (NonceIssued addr m2), st2) ->
  st2 = snd (nonce cfg E st now2 rnd2 a2)
  /\ (forall now', Redis.get now' (redis st2) (nonce_key addr)
        = if now' <=? now2 + 300000
          then Some (Redis.Challenge (randomNonce rnd2) (Date.toISOString now2))
          else None)
  /\ (rnd1 <> rnd2 -> m1 <> m2).
Proof.
  intros H1 H2.
  pose proof (nonce_issued _ _ _ _ _ _ _ H1) as (Hq & _ & -> & ->).
  pose proof (nonce_issued _ _ _ _ _ _ _ H2) as (_ & Ha2 & -> & ->).
  cbn [redis api_keys]. split; [|split].
  - unfold nonce. rewrite Hq, Ha2. cbn [snd]. f_equal.
    unfold Redis.set_ex. apply insert_insert_eq.
  - intros now'. apply get_set_ex.
  - intros Hne Heq. apply Hne. unfold claim_message in Heq.
    cbn [JS.join] in Heq. rewrite !app_assoc_string in Heq.
    repeat (apply app_inv_head in Heq).
    pose proof (hex_lower rnd1) as Hx1. pose proof (hex_lower rnd2) as Hx2.
    apply (hex_inj rnd1 rnd2). unfold LF in Heq.
    exact (proj1 (first_sep_inj (JS.chr 10) _ _
                    ("IssuedAt: " +:+ Date.toISOString now1)
                    ("IssuedAt: " +:+ Date.toISOString now2)
                    (lower_hex_without_LF _ Hx1) (lower_hex_without_LF _ Hx2) Heq)).
Qed.

End KeyspaceFacts.

Section ClaimFrame.
Import Server.
Variable cfg : Config.
Variable E : Env.

Lemma issue_api_keys st now rnd addr rq :
  api_keys (snd (issue cfg E st now rnd addr rq)) = api_keys st
  \/ exists a,
       Upsert.a_wallet a = addr
       /\ Upsert.upsertApiKeyForWallet (accepts E) now (api_keys st) a
          = (Ok tt, api_keys (snd (issue cfg E st now rnd addr rq))).
Proof.
  unfold issue. destruct (entitlement E addr) as [[tier e]|m]; [|left; reflexivity].
  destruct (effTier tier e (now / 1000) =? 0); [left; reflexivity|].
  unfold mint. cbn [api_keys redis].
  destruct (Upsert.upsertApiKeyForWallet _ _ _ _) as [[[]|m] t'] eqn:Hu; cbn [snd api_keys].
  - right. eexists. split; [|exact Hu]. reflexivity.
  - left. apply upsert_throw in Hu. exact Hu.
Qed.

(** X14.  A claim touches only the claimant: when the address is
    malformed nothing changes; otherwise no Redis key other than the
    address's nonce key changes (so no quota counter does), the rows of
    every other wallet are as before, and at most one row is added. *)
Theorem claim_touches_only_claimant st now rnd body :
  let st' := snd (claim cfg E st now rnd body) in
  match getAddress E (cl_address body) with
  | Throw _ => st' = st
  | Ok addr =>
      (forall k, k <> nonce_key addr -> redis st' !! k = redis st !! k)
      /\ (forall k, is_daily k = true -> redis st' !! k = redis st !! k)
      /\ (forall w, w <> JS.toLowerCase addr ->
            rows_of w (api_keys st') = rows_of w (api_keys st))
      /\ (length (api_keys st) <= length (api_keys st') <= S (length (api_keys st)))%nat
  end.
Proof.
  intros st'. unfold st', claim.
  destruct (authenticate cfg E st now body) as [r|[addr rq]] eqn:Ha.
  - cbn [snd]. destruct (getAddress E (cl_address body)); [|reflexivity].
    repeat split; auto; lia.
  - pose proof (authenticate_inr _ _ _ _ _ _ _ Ha) as (_ & Hg & _ & _ & _ & v & Hv & _).
    rewrite Hg.
    pose proof (issue_redis cfg E st now rnd addr rq) as Hr.
    pose proof (issue_api_keys st now rnd addr rq) as Ht.
    split; [|split; [|split]].
    + intros k Hk. rewrite Hr. unfold Redis.del. apply lookup_delete_ne. congruence.
    + intros k Hk. rewrite Hr. unfold Redis.del. apply lookup_delete_ne.
      intros <-. rewrite is_daily_nonce_key in Hk. discriminate.
    + intros w Hw. destruct Ht as [->|(a & Hwa & Hu)]; [reflexivity|].
      apply (upsert_rows_of (accepts E) now (api_keys st) _ a w Hu). rewrite Hwa. exact Hw.
    + destruct Ht as [->|(a & Hwa & Hu)]; [lia|].
      rewrite (upsert_length (accepts E) now (api_keys st) _ a Hu). lia.
Qed.

End ClaimFrame.

Section TypedFacts.
Import Server.
Variable cfg : Config.
Variable E : Env.


Lemma typed_frame (db db' : gmap string Redis.entry) :
  (forall k, is_daily k = true -> db' !! k = db !! k \/ db' !! k = None) ->
  counters_typed db -> counters_typed db'.
Proof.
  intros Hf Ht k e He Hk. destruct (Hf k Hk) as [H|H]; rewrite H in He; [|discriminate].
  exact (Ht k e He Hk).
Qed.

Lemma generate_handled requester name message m :
  body (generate E requester name message) <> Unhandled m.
Proof.
  unfold generate. destruct (responses_create E _); [|discriminate].
  destruct (negb _); discriminate.
Qed.



(** X15.  The three handlers that write to Redis keep the keyspace typed:
    if every daily-counter key holds a counter before a nonce, claim or
    roast request, it does after it. *)
Theorem counters_typed_invariant st :
  counters_typed (redis st) ->
  (forall now rnd address, counters_typed (redis (snd (nonce cfg E st now rnd address))))
  /\ (forall now rnd body, counters_typed (redis (snd (claim cfg E st now rnd body))))
  /\ (forall now req, counters_typed (redis (snd (roast cfg E st now req)))).
Proof.
  intros Ht. split; [|split].
  - intros now rnd address. unfold nonce.
    destruct (requireRoaster cfg); [exact Ht|].
    destruct (getAddress E address) as [addr|m]; [|exact Ht]. cbn [snd redis].
    revert Ht. apply typed_frame. intros k Hk. left.
    unfold Redis.set_ex. apply lookup_insert_ne. intros <-.
    rewrite is_daily_nonce_key in Hk. discriminate.
  - intros now rnd body.
    unfold claim. destruct (authenticate cfg E st now body) as [r|[addr rq]];
      [exact Ht|].
    rewrite issue_redis. revert Ht. apply typed_frame. intros k Hk. left.
    unfold Redis.del. apply lookup_delete_ne. intros <-.
    rewrite is_daily_nonce_key in Hk. discriminate.
  - intros now req. destruct (roast_state cfg E st now req) as (db & t & -> & (_ & _ & H) & _).
    cbn [redis]. auto.
Qed.

(** Every error the counting commands raise is a refusal of Redis. *)
Lemma incr_daily_refusal now (db db' : gmap string Redis.entry) key m :
  incr_daily now db key = (Throw m, db') -> redis_refusal m.
Proof.
  unfold incr_daily, Redis.incr, redis_refusal.
  repeat break_inner; intros H; try discriminate H; injection H as <- _; auto.
Qed.

Lemma rateLimitDaily_refusal now (db db' : gmap string Redis.entry) scope id limit m :
  rateLimitDaily now db scope id limit = (Throw m, db') -> redis_refusal m.
Proof.
  unfold rateLimitDaily.
  destruct (incr_daily now db _) as [[n|m'] db1] eqn:Hi; [discriminate|].
  intros H. injection H as <- _. exact (incr_daily_refusal _ _ _ _ _ Hi).
Qed.

(** The unhandled errors of the roast route in this model are the
    refusals of Redis. *)
Lemma roast_unhandled_refusal st now req m :
  body (fst (roast cfg E st now req)) = Unhandled m -> redis_refusal m.
Proof.
  unfold roast. destruct (precheck cfg req) as [r|] eqn:Hp.
  { cbn [fst]. unfold precheck in Hp.
    destruct (negb (truthy_opt _)); [injection Hp as <-; discriminate|].
    destruct (negb (JS.truthy (cleanRequester _))); [injection Hp as <-; discriminate|].
    destruct (_ && _); [injection Hp as <-; discriminate|discriminate]. }
  destruct (getKeyRecord cfg E now (api_keys st) (rq_authorization req)) as [[rec|] t1].
  - unfold serve_key, key_quota.
    destruct (rateLimitDaily now (redis st) "key" _ _) as [[u|m'] db] eqn:Hrl.
    + destruct (_ <? used u); cbn [fst]; [discriminate|].
      intros H. exfalso. revert H. apply generate_handled.
    + cbn. intros H. injection H as <-. exact (rateLimitDaily_refusal _ _ _ _ _ _ _ Hrl).
  - destruct (hadAuth _); [discriminate|].
    unfold serve_free, free_quota.
    destruct (incr_daily now (redis st) _) as [[ipUsed|m'] db1] eqn:Hi.
    2:{ cbn. intros H. injection H as <-. exact (incr_daily_refusal _ _ _ _ _ Hi). }
    destruct (FREE_IP_DAILY_LIMIT cfg <? ipUsed); [discriminate|].
    destruct (rateLimitDaily now db1 "free" _ _) as [[u|m'] db2] eqn:Hrl.
    + destruct (_ <? used u); cbn [fst]; [discriminate|].
      intros H. exfalso. revert H. apply generate_handled.
    + cbn. intros H. injection H as <-. exact (rateLimitDaily_refusal _ _ _ _ _ _ _ Hrl).
Qed.


End TypedFacts.

Section KeyNames.
Import Server.

Lemma app_inv_length (s1 : string) : forall s2 t1 t2,
  String.length s1 = String.length s2 ->
  s1 +:+ t1 = s2 +:+ t2 -> s1 = s2 /\ t1 = t2.
Proof.
  induction s1 as [|a s1 IH]; intros [|b s2] t1 t2 Hl H; try discriminate Hl.
  - auto.
  - change (String a (s1 +:+ t1) = String b (s2 +:+ t2)) in H.
    injection H as -> H. injection Hl as Hl.
    destruct (IH s2 t1 t2 Hl H) as [-> ->]. auto.
Qed.

Lemma utcDayKey_length t : Date.in_range t -> String.length (utcDayKey t) = 10%nat.
Proof.
  intros Ht. rewrite utcDayKey_eq by assumption.
  destruct (Date.civil_from_days (Date.Day t)) as [[y m] d]. reflexivity.
Qed.

Lemma daily_key_inj scope now1 now2 id1 id2 :
  Date.in_range now1 -> Date.in_range now2 ->
  (daily_key scope (utcDayKey now1) id1 = daily_key scope (utcDayKey now2) id2
   <-> Date.Day now1 = Date.Day now2 /\ id1 = id2).
Proof.
  intros H1 H2. split.
  - unfold daily_key. intros H.
    apply app_inv_head in H. apply app_inv_head in H.
    apply app_inv_head in H.
    apply app_inv_length in H; [|rewrite !utcDayKey_length by assumption; reflexivity].
    destruct H as [Hd Hi]. apply app_inv_head in Hi.
    split; [|exact Hi]. apply utcDayKey_same_day; assumption.
  - intros [Hd ->]. apply (utcDayKey_same_day now1 now2 H1 H2) in Hd. rewrite Hd.
    reflexivity.
Qed.

Lemma lower_char_safe a : requester_char a = true -> requester_char (JS.lower_char a) = true.
Proof.
  destruct a as [[] [] [] [] [] [] [] []]; vm_compute; intros H;
    first [reflexivity | discriminate H].
Qed.

Lemma toLowerCase_safe s : url_safe s = true -> url_safe (JS.toLowerCase s) = true.
Proof.
  unfold url_safe. induction s as [|a s IH]; [reflexivity|].
  cbn [JS.forallb JS.toLowerCase]. intros H. apply andb_true_iff in H as [Ha Hs].
  rewrite lower_char_safe, IH by assumption. reflexivity.
Qed.

Lemma url_safe_without_colon s : url_safe s = true -> without ":" s = true.
Proof.
  unfold url_safe, without. induction s as [|a s IH]; [reflexivity|].
  cbn [JS.forallb]. intros H. apply andb_true_iff in H as [Ha Hs].
  rewrite IH by assumption. rewrite andb_true_r. apply negb_true_iff.
  destruct (Ascii.eqb a ":") eqn:E; [|reflexivity].
  apply Ascii.eqb_eq in E. subst a. discriminate Ha.
Qed.

(** X17.  The quota counters are kept apart: two anonymous requests
    share the per-requester counter exactly when they fall on the same UTC
    day, come from the same address and their cleaned requester names are
    equal up to case; the per-address and per-key counters are shared
    exactly on the same day and address, or same day and key hash; keys of
    different scopes and nonce keys never coincide. *)
Theorem quota_counters_separate now1 now2 :
  Date.in_range now1 -> Date.in_range now2 ->
  let d1 := utcDayKey now1 in
  let d2 := utcDayKey now2 in
  let free ip v := ip +:+ ":" +:+ JS.toLowerCase (cleanRequester v) in
  (forall ip1 ip2 v1 v2,
     daily_key "free" d1 (free ip1 v1) = daily_key "free" d2 (free ip2 v2)
     <-> Date.Day now1 = Date.Day now2 /\ ip1 = ip2
         /\ JS.toLowerCase (cleanRequester v1) = JS.toLowerCase (cleanRequester v2))
  /\ (forall ip1 ip2,
        daily_key "free-ip" d1 ip1 = daily_key "free-ip" d2 ip2
        <-> Date.Day now1 = Date.Day now2 /\ ip1 = ip2)
  /\ (forall h1 h2,
        daily_key "key" d1 h1 = daily_key "key" d2 h2
        <-> Date.Day now1 = Date.Day now2 /\ h1 = h2)
  /\ (forall a b c d e f addr,
        daily_key "free" a b <> daily_key "free-ip" c d
        /\ daily_key "free" a b <> daily_key "key" e f
        /\ daily_key "free-ip" c d <> daily_key "key" e f
        /\ nonce_key addr <> daily_key "free" a b
        /\ nonce_key addr <> daily_key "free-ip" c d
        /\ nonce_key addr <> daily_key "key" e f).
Proof.
  intros H1 H2 d1 d2 free. split; [|split; [|split]].
  - intros ip1 ip2 v1 v2. unfold d1, d2. rewrite (daily_key_inj "free" now1 now2) by assumption.
    split.
    + intros [Hd Hi]. split; [exact Hd|]. unfold free in Hi.
      apply last_sep_inj in Hi; [exact Hi|..];
        apply url_safe_without_colon, toLowerCase_safe;
        unfold cleanRequester, url_safe;
        [destruct v1|destruct v2]; try apply js_filter_forallb; reflexivity.
    + intros (Hd & -> & Hr). split; [exact Hd|]. unfold free. rewrite Hr. reflexivity.
  - intros ip1 ip2. apply daily_key_inj; assumption.
  - intros h1 h2. apply daily_key_inj; assumption.
  - intros a b c d e f addr. unfold daily_key, nonce_key.
    repeat split; intros H; discriminate H.
Qed.

End KeyNames.

Section RouteFacts.
Import Server Routes.
Variable cfg : Config.
Variable E : Env.

Lemma claim_after_authenticate st now rnd cb addr rq tier expiresAt :
  authenticate cfg E st now cb = inr (addr, rq) ->
  entitlement E addr = Ok (tier, expiresAt) ->
  let r := fst (claim cfg E st now rnd cb) in
  (effTier tier expiresAt (now / 1000) = 0 -> status r = 402)
  /\ (effTier tier expiresAt (now / 1000) <> 0 ->
      (status r = 500 /\ forall k eff exp, body r <> KeyIssued k eff exp)
      \/ r = Reply 200 (KeyIssued (makeApiKey rnd)
                          (effTier tier expiresAt (now / 1000))
                          (Number_of_bigint expiresAt))).
Proof.
  intros Ha He r. unfold r, claim. rewrite Ha. unfold issue. rewrite He.
  destruct (effTier tier expiresAt (now / 1000) =? 0) eqn:H0.
  - apply Z.eqb_eq in H0. split; [reflexivity|]. intros H. contradiction.
  - apply Z.eqb_neq in H0. split; [intros H; contradiction|]. intros _.
    unfold mint. destruct (Upsert.upsertApiKeyForWallet _ _ _ _) as [[[]|m] t'];
      cbn [fst]; [right; reflexivity|left]. split; [reflexivity|]. intros; discriminate.
Qed.

(** X18.  The entitlement query predicts the claim: for a claim that
    passes the signature check at the same instant, the query for the same
    address reports the checksummed address; the claim is answered 402
    exactly when the query reports [active] false or tier 0, and a key
    that is issued carries the tier and expiry the query reports.  When
    reading the ledger fails the query answers 400 and the claim 500, both
    with the message of the failure. *)
Theorem entitlement_route_predicts_claim st now rnd cb addr rq :
  authenticate cfg E st now cb = inr (addr, rq) ->
  let r := fst (claim cfg E st now rnd cb) in
  match entitlement_route cfg E now (cl_address cb) with
  | inl bad =>
      exists m, entitlement E addr = Throw m
        /\ bad = Reply 400 (Failure (message_or m "Bad address") None)
        /\ r = claim_failed m
  | inr info =>
      ei_address info = addr
      /\ (status r = 402 <-> ei_active info = false \/ ei_tier info = 0)
      /\ (forall k eff exp, r = Reply 200 (KeyIssued k eff exp) ->
            eff = ei_tier info /\ exp = ei_expiresAt info)
  end.
Proof.
  intros Ha r.
  pose proof (authenticate_inr cfg E _ _ _ _ _ Ha) as (Hq & Hg & _).
  unfold entitlement_route. rewrite Hq, Hg.
  destruct (entitlement E addr) as [[tier expiresAt]|m] eqn:He.
  - pose proof (claim_after_authenticate st now rnd cb addr rq tier expiresAt Ha He)
      as [H0 H1]. fold r in H0, H1. cbn [ei_address ei_active ei_tier ei_expiresAt].
    unfold effTier in H0, H1.
    split; [reflexivity|]. split; [split|].
    + intros H402. destruct (now / 1000 <? Number_of_bigint expiresAt); [|left; reflexivity].
      right. destruct (Z.eq_dec (Number_of_bigint tier) 0) as [Hz|Hz]; [exact Hz|].
      destruct (H1 Hz) as [[H500 _]|Hr]; [congruence|]. rewrite Hr in H402. discriminate.
    + intros [Hact|Ht]; apply H0; [rewrite Hact; reflexivity|].
      destruct (_ <? _); [exact Ht|reflexivity].
    + intros k eff exp Hr.
      destruct (now / 1000 <? Number_of_bigint expiresAt).
      * destruct (Z.eq_dec (Number_of_bigint tier) 0) as [Hz|Hz].
        { specialize (H0 Hz). rewrite Hr in H0. discriminate. }
        destruct (H1 Hz) as [[H500 _]|Hr']; [rewrite Hr in H500; discriminate|].
        rewrite Hr in Hr'. injection Hr' as _ -> ->. auto.
      * specialize (H0 eq_refl). rewrite Hr in H0. discriminate.
  - exists m. split; [reflexivity|]. split; [reflexivity|].
    unfold r, claim. rewrite Ha. unfold issue. rewrite He. reflexivity.
Qed.

End RouteFacts.

Section AdminFacts.
Import Db Upsert Server HashKeyCli.

Lemma insertApiKey_ok accepts (t t' : table) h w tierName dl ea :
  insertApiKey accepts t h w tierName dl ea = Ok t' ->
  exists e, timestamp_param ea = Ok e
    /\ t' = (t ++ [mkRow h (if JS.truthy w then Some w else None) tierName dl true
                     e None None None None])%list.
Proof.
  unfold insertApiKey. destruct (timestamp_param ea) as [e|m]; [|discriminate].
  destruct (accepts _ _); [|discriminate]. intros H. injection H as <-. eauto.
Qed.

Lemma find_app_some {A : Type} (p : A -> bool) (l1 l2 : list A) x :
  List.find p l1 = Some x -> List.find p (l1 ++ l2) = Some x.
Proof.
  induction l1 as [|y l1 IH]; [discriminate|]. simpl.
  destruct (p y); [auto|exact IH].
Qed.

(** X19.  [insertApiKey] only adds: on success the table is the old one
    followed by one enabled row with the given hash, tier and daily limit,
    no entitlement expiry and the wallet as given (null when empty); the
    row is usable until its [expires_at], a hash without a usable row
    before resolves to it until then, other hashes resolve as before, and
    no key of any wallet is revoked. *)
Theorem insertApiKey_adds_only accepts (t t' : table) h w tierName dl ea :
  insertApiKey accepts t h w tierName dl ea = Ok t' ->
  exists r,
    t' = (t ++ [r])%list
    /\ key_hash r = h /\ tier r = tierName /\ daily_limit r = dl
    /\ entitlement_expires_at r = None
    /\ (wallet_address r = if JS.truthy w then Some w else None)
    /\ (forall now, usable now r = null_or_after now (expires_at r))
    /\ (forall now h', h' <> h ->
          getKeyRecordByHash now t' h' = getKeyRecordByHash now t h')
    /\ (forall now, (forall r0, In r0 t -> key_hash r0 = h -> usable now r0 = false) ->
          getKeyRecordByHash now t' h
          = if null_or_after now (expires_at r) then Some r else None)
    /\ (forall now w', usable_for now w' t `prefix_of` usable_for now w' t').
Proof.
  intros H. apply insertApiKey_ok in H as (e & He & ->).
  eexists. split; [reflexivity|]. cbn [key_hash tier daily_limit entitlement_expires_at
                                        wallet_address expires_at].
  do 5 (split; [reflexivity|]). split; [|split; [|split]].
  - intros now. unfold usable. cbn [enabled revoked_at expires_at entitlement_expires_at].
    rewrite bool_decide_eq_true_2 by reflexivity. cbn. apply andb_true_r.
  - intros now h' Hne. unfold getKeyRecordByHash.
    destruct (List.find _ t) as [x|] eqn:Hf.
    + apply find_app_some. exact Hf.
    + rewrite find_app_none by (apply find_none_iff; exact Hf).
      cbn [List.find key_hash].
      rewrite bool_decide_eq_false_2 by congruence. reflexivity.
  - intros now Hfresh. unfold getKeyRecordByHash. rewrite find_app_none.
    + cbn [List.find key_hash]. rewrite bool_decide_eq_true_2 by reflexivity.
      unfold usable. cbn [enabled revoked_at expires_at entitlement_expires_at].
      rewrite bool_decide_eq_true_2 by reflexivity. cbn.
      rewrite andb_true_r. reflexivity.
    + intros r0 Hin. destruct (bool_decide (key_hash r0 = h)) eqn:Hh; [|reflexivity].
      apply bool_decide_eq_true in Hh. cbn. apply Hfresh; assumption.
  - intros now w'. unfold usable_for. rewrite List.filter_app. eexists. reflexivity.
Qed.

(** X20.  [hashkey.js]: the run exits with 0 exactly when a raw key is
    given and [API_KEY_SALT] is set; without a raw key it prints the usage
    and exits with 1, without the salt it exits with 2.  On exit 0, with
    the server reading the same salt, the line printed is the hash the
    server computes for the raw key, so for a key without white space the
    header [Bearer <raw key>] is looked up under exactly that hash. *)
Theorem hashkey_matches_server cfg E argv2 salt :
  let run := hashkey (sha256_hex E) argv2 salt in
  (exit_code run = 0 <-> truthy_opt argv2 = true /\ truthy_opt salt = true)
  /\ (truthy_opt argv2 = false -> run = mkRun [] ["Usage: node hashkey.js <rawKey>"] 1)
  /\ (truthy_opt argv2 = true -> truthy_opt salt = false ->
      exit_code run = 2 /\ stdout run = ["SALT loaded: false"])
  /\ (forall raw, argv2 = Some raw -> exit_code run = 0 ->
      SALT cfg = SALT_of_env salt ->
      stdout run = ["SALT loaded: true"; hashKey cfg E raw]
      /\ stderr run = []
      /\ (no_space raw = true ->
          forall now t, getKeyRecord cfg E now t (Some ("Bearer " +:+ raw))
                        = match getKeyRecordByHash now t (hashKey cfg E raw) with
                          | Some rec => (Some (hashKey cfg E raw, rec),
                                         touchKeyUsage now t (hashKey cfg E raw))
                          | None => (None, t)
                          end)).
Proof.
  intros run. unfold run, hashkey.
  destruct (truthy_opt argv2) eqn:Hr; cbn [negb].
  - destruct (truthy_opt salt) eqn:Hs; cbn [negb exit_code stdout stderr].
    + split; [split; auto|]. split; [discriminate|]. split; [discriminate|].
      intros raw -> _ Hsalt. unfold hashKey. rewrite Hsalt. unfold SALT_of_env.
      rewrite Hs. split; [reflexivity|]. split; [reflexivity|].
      intros Hns now t. rewrite getKeyRecord_token.
      change (or_empty (Some ("Bearer " +:+ raw))) with ("Bearer " +:+ raw).
      rewrite (bearer_token_plain raw Hr Hns). unfold hashKey. rewrite Hsalt.
      unfold SALT_of_env. rewrite Hs. reflexivity.
    + split; [split; [discriminate|intros [_ H]; discriminate H]|].
      split; [discriminate|]. split; [auto|]. intros raw _ H. discriminate H.
  - cbn [exit_code]. split; [split; [discriminate|intros [H _]; discriminate H]|].
    split; [reflexivity|]. split; [discriminate|]. intros raw _ H. discriminate H.
Qed.

End AdminFacts.

Section TrimFacts.

Lemma trimEnd_idem s : JS.trimEnd (JS.trimEnd s) = JS.trimEnd s.
Proof.
  induction s as [|a s IH]; [reflexivity|]. cbn [JS.trimEnd].
  destruct (JS.trimEnd s) as [|b r] eqn:Hs.
  - destruct (JS.is_space a) eqn:Ha; [reflexivity|]. cbn [JS.trimEnd]. rewrite Ha.
    reflexivity.
  - change (JS.trimEnd (String a (String b r)))
      with (match JS.trimEnd (String b r) with
            | EmptyString => if JS.is_space a then EmptyString else String a EmptyString
            | r' => String a r'
            end).
    rewrite IH. reflexivity.
Qed.

Lemma trimStart_head s :
  match JS.trimStart s with
  | String a _ => JS.is_space a = false
  | EmptyString => True
  end.
Proof.
  induction s as [|a s IH]; [exact I|]. cbn [JS.trimStart].
  destruct (JS.is_space a) eqn:Ha; [exact IH|exact Ha].
Qed.

Lemma trimStart_trimEnd a s :
  JS.is_space a = false -> JS.trimStart (JS.trimEnd (String a s)) = JS.trimEnd (String a s).
Proof.
  intros Ha. cbn [JS.trimEnd]. destruct (JS.trimEnd s); rewrite ?Ha; cbn [JS.trimStart];
    rewrite Ha; reflexivity.
Qed.

Lemma trim_idem s : JS.trim (JS.trim s) = JS.trim s.
Proof.
  unfold JS.trim. pose proof (trimStart_head s) as H.
  destruct (JS.trimStart s) as [|a r]; [reflexivity|].
  rewrite trimStart_trimEnd by exact H. apply trimEnd_idem.
Qed.

End TrimFacts.

Section ReplyFacts.
Import Server.
Variable cfg : Config.
Variable E : Env.

Lemma user_prompt_length requester name message :
  (String.length requester <= 48)%nat -> (String.length name <= 64)%nat ->
  (String.length message <= 800)%nat ->
  (String.length (user_prompt requester name message) <= 1017)%nat.
Proof.
  intros H1 H2 H3. unfold user_prompt, LF, DQUOTE.
  destruct (JS.truthy name), (JS.truthy message); cbn [List.app JS.join];
    rewrite !length_app; cbn [String.length]; lia.
Qed.

Lemma generate_shape requester name message :
  let r := generate E requester name message in
  (r = Reply 500 (Failure "Roast generation failed" None)
   \/ r = Reply 502 (Failure "Empty roast output" None)
   \/ exists out, responses_create E (user_prompt requester name message) = Ok out
        /\ JS.truthy (JS.trim (or_empty out)) = true
        /\ r = Reply 200 (Roasted (JS.trim (or_empty out)))).
Proof.
  unfold generate. destruct (responses_create E _) as [out|m]; [|left; reflexivity].
  destruct (JS.truthy (JS.trim (or_empty out))) eqn:Ht; cbn [negb].
  - right. right. exists out. auto.
  - right. left. reflexivity.
Qed.

Lemma free_quota_shape now (db : gmap string Redis.entry) ip requester r :
  fst (free_quota cfg now db ip requester) = Some r ->
  (exists m, r = Reply 500 (Unhandled m))
  \/ exists error hint day limit, r = Reply 429 (QuotaFailure error hint day limit).
Proof.
  unfold free_quota, quota_reply.
  destruct (incr_daily now db _) as [[ipUsed|m] db1]; cbn [fst].
  2:{ intros H. injection H as <-. left. eauto. }
  destruct (FREE_IP_DAILY_LIMIT cfg <? ipUsed); cbn [fst].
  { intros H. injection H as <-. right. eauto 6. }
  destruct (rateLimitDaily now db1 "free" _ _) as [[u|m] db2]; cbn [fst].
  2:{ intros H. injection H as <-. left. eauto. }
  destruct (FREE_DAILY_LIMIT cfg <? used u); cbn [fst]; [|discriminate].
  intros H. injection H as <-. right. eauto 6.
Qed.

Lemma key_quota_shape now (db : gmap string Redis.entry) keyRec r :
  fst (key_quota cfg now db keyRec) = Some r ->
  (exists m, r = Reply 500 (Unhandled m))
  \/ exists error hint day limit, r = Reply 429 (QuotaFailure error hint day limit).
Proof.
  unfold key_quota, quota_reply.
  destruct (rateLimitDaily now db "key" _ _) as [[u|m] db1]; cbn [fst].
  2:{ intros H. injection H as <-. left. eauto. }
  destruct (_ <? used u); cbn [fst]; [|discriminate].
  intros H. injection H as <-. right. eauto 6.
Qed.

Lemma generate_reply req :
  roast_reply E req (generate E (cleanRequester (rq_requester req))
                     (JS.slice0 64 (or_empty (rq_name req)))
                     (JS.slice0 800 (or_empty (rq_message req)))).
Proof.
  destruct (generate_shape (cleanRequester (rq_requester req))
              (JS.slice0 64 (or_empty (rq_name req)))
              (JS.slice0 800 (or_empty (rq_message req))))
    as [->|[->|(out & Ho & Ht & ->)]].
  - apply reply_refused. cbn. auto.
  - apply reply_refused. cbn. auto.
  - apply reply_roast; assumption.
Qed.

Lemma roast_replies st now req : roast_reply E req (fst (roast cfg E st now req)).
Proof.
  unfold roast. destruct (precheck cfg req) as [r|] eqn:Hp.
  { cbn [fst]. unfold precheck in Hp.
    destruct (negb (truthy_opt _)); [injection Hp as <-; apply reply_refused; cbn; auto|].
    destruct (negb (JS.truthy (cleanRequester _)));
      [injection Hp as <-; apply reply_refused; cbn; auto|].
    destruct (_ && _); [injection Hp as <-; apply reply_refused; cbn; auto|discriminate]. }
  destruct (getKeyRecord cfg E now (api_keys st) (rq_authorization req)) as [[rec|] t1].
  - unfold serve_key. pose proof (key_quota_shape now (redis st) rec) as H.
    destruct (key_quota cfg now (redis st) rec) as [[r|] db]; cbn [fst] in *.
    + destruct (H r eq_refl) as [(m & ->)|(? & ? & ? & ? & ->)];
        [apply reply_unhandled|apply reply_quota].
    + apply generate_reply.
  - destruct (hadAuth _); [apply reply_refused; cbn; auto|].
    unfold serve_free.
    pose proof (free_quota_shape now (redis st) (rq_ip req)
                  (cleanRequester (rq_requester req))) as H.
    destruct (free_quota cfg now (redis st) _ _) as [[r|] db]; cbn [fst] in *.
    + destruct (H r eq_refl) as [(m & ->)|(? & ? & ? & ? & ->)];
        [apply reply_unhandled|apply reply_quota].
    + apply generate_reply.
Qed.

(** X21.  The replies of the roast route: the status is one of 200, 400,
    401, 429, 500 and 502; it is 200 exactly when the reply carries a
    roast and 429 exactly when it carries the quota details; a roast that
    is returned is non-empty, has no white space at either end, and is the
    trimmed output of the generator on a prompt of at most 1017
    characters. *)
Theorem roast_reply_shape st now req :
  let r := fst (roast cfg E st now req) in
  In (status r) [200; 400; 401; 429; 500; 502]
  /\ (status r = 200 <-> exists text, body r = Roasted text)
  /\ (status r = 429 <-> exists error hint day limit,
                           body r = QuotaFailure error hint day limit)
  /\ (forall text, body r = Roasted text ->
        JS.truthy text = true /\ JS.trim text = text
        /\ exists prompt out,
             responses_create E prompt = Ok out /\ text = JS.trim (or_empty out)
             /\ (String.length prompt <= 1017)%nat).
Proof.
  intros r. pose proof (roast_replies st now req) as H. fold r in H.
  destruct H as [status error hint Hs| m | error hint day limit | out Ho Ht];
    cbn [Server.status Server.body].
  - split; [cbn in *; intuition lia|]. split; [|split].
    + split; [intros ->; cbn in Hs; intuition lia|intros [? H]; discriminate H].
    + split; [intros ->; cbn in Hs; intuition lia|intros (? & ? & ? & ? & H); discriminate H].
    + intros ? H. discriminate H.
  - split; [cbn; auto 10|]. split; [|split].
    + split; [discriminate|intros [? H]; discriminate H].
    + split; [discriminate|intros (? & ? & ? & ? & H); discriminate H].
    + intros ? H. discriminate H.
  - split; [cbn; auto 10|]. split; [|split].
    + split; [discriminate|intros [? H]; discriminate H].
    + split; [eauto 6|reflexivity].
    + intros ? H. discriminate H.
  - split; [cbn; auto 10|]. split; [|split].
    + split; [eauto|reflexivity].
    + split; [discriminate|intros (? & ? & ? & ? & H); discriminate H].
    + intros text H. injection H as <-. split; [exact Ht|]. split; [apply trim_idem|].
      eexists _, out. split; [exact Ho|]. split; [reflexivity|].
      apply user_prompt_length.
      * apply cleanRequester_length.
      * apply js_slice0_length.
      * apply js_slice0_length.
Qed.

End ReplyFacts.

Section CeilingFacts.
Import Server.
Variable cfg : Config.
Variable E : Env.

Lemma no_header_no_record now (t : Db.table) authorization :
  hadAuth (or_empty authorization) = false ->
  getKeyRecord cfg E now t authorization = (None, t).
Proof.
  intros H. rewrite getKeyRecord_token.
  destruct (bearer_token (or_empty authorization)) as [token|] eqn:Hb; [|reflexivity].
  apply bearer_token_hadAuth in Hb. congruence.
Qed.

(** X22.  The per-address ceiling of the anonymous path: once an address
    has used [FREE_IP_DAILY_LIMIT] anonymous requests in a UTC day, a
    well-formed request without a Bearer header is answered 429 "Free IP
    limit reached" with that limit, whatever its requester name; the
    refused request is still counted on the address, and no other key
    (no per-requester counter) changes. *)
Theorem anonymous_ceiling st now req :
  Date.in_range now -> precheck cfg req = None ->
  hadAuth (or_empty (rq_authorization req)) = false ->
  let ikey := daily_key "free-ip" (utcDayKey now) (rq_ip req) in
  countable now (redis st) ikey ->
  FREE_IP_DAILY_LIMIT cfg <= count_of now (redis st) ikey ->
  exists db',
    roast cfg E st now req
    = (Reply 429 (QuotaFailure "Free IP limit reached"
                    (Some "Too many free requests from this IP today")
                    (utcDayKey now) (FREE_IP_DAILY_LIMIT cfg)),
       mkState db' (api_keys st))
    /\ count_of now db' ikey = count_of now (redis st) ikey + 1
    /\ (forall k, k <> ikey -> db' !! k = redis st !! k).
Proof.
  intros Hr Hp Hh ikey Hc Hlim.
  destruct (incr_daily_spec now (redis st) ikey Hr Hc) as (db' & Hi & Hg & _ & _ & Hf).
  exists db'. split; [|split; [apply count_of_get; exact Hg|exact Hf]].
  rewrite roast_without_record; [|exact Hp|rewrite no_header_no_record by exact Hh; reflexivity].
  rewrite Hh. unfold serve_free, free_quota.
  change ("roaster:daily:free-ip:" +:+ utcDayKey now +:+ ":" +:+ rq_ip req) with ikey.
  rewrite Hi.
  replace (FREE_IP_DAILY_LIMIT cfg <? count_of now (redis st) ikey + 1) with true
    by (symmetry; apply Z.ltb_lt; lia).
  reflexivity.
Qed.

End CeilingFacts.

Section MoreScenarios.
Import Server Sample Cases Routes HashKeyCli.

Lemma minted_key_lookup_witness :
  Db.getKeyRecordByHash (t0 + 1) minted_a "hash-a"
  = Some (Upsert.new_row "hash-a" "0xaaaa" "pro" None None (Some 1800000000000)
            (Some "Bot1")).
Proof.
  assert (Hu : Upsert.upsertApiKeyForWallet lenient t0 [] mint_a = (Ok tt, minted_a))
    by reflexivity.
  assert (Hf : forall r : Db.Row, In r [] -> Db.key_hash r <> Upsert.a_key_hash mint_a)
    by (intros r []).
  exact (minted_key_lookup lenient t0 [] minted_a mint_a (t0 + 1) Hu Hf).
Defined.

Lemma mint_supersedes_witness :
  Db.getKeyRecordByHash (t0 + 2000)
    (snd (Upsert.upsertApiKeyForWallet lenient (t0 + 1000) minted_a mint_b)) "hash-a"
  = None.
Proof.
  assert (Hu : Upsert.upsertApiKeyForWallet lenient (t0 + 1000) minted_a mint_b
               = (Ok tt, snd (Upsert.upsertApiKeyForWallet lenient (t0 + 1000)
                                minted_a mint_b)))
    by reflexivity.
  assert (Hne : "hash-a" <> Upsert.a_key_hash mint_b) by discriminate.
  assert (Hown : forall r, In r minted_a -> Db.key_hash r = "hash-a" ->
                   Db.wallet_address r = Some (JS.toLowerCase (Upsert.a_wallet mint_b))).
  { intros r [<-|[]] _. reflexivity. }
  assert (Hle : t0 + 1000 <= t0 + 2000) by lia.
  exact (mint_supersedes lenient (t0 + 1000) minted_a _ mint_b "hash-a" (t0 + 2000)
           Hu Hne Hown Hle).
Defined.

Lemma issued_key_lifetime_witness :
  exists row,
    Db.tier row = "pro" /\ Db.daily_limit row = None
    /\ Db.entitlement_expires_at row = Some 1800000000000.
Proof.
  assert (Hc : claim cfg env (challenged "0xAAAA") (t0 + 1000) (bytes 24 Byte.x6b)
                 (signed_claim "0xAAAA")
               = (Reply 200 (KeyIssued (makeApiKey (bytes 24 Byte.x6b)) 2 1800000000),
                  snd (claim cfg env (challenged "0xAAAA") (t0 + 1000) (bytes 24 Byte.x6b)
                         (signed_claim "0xAAAA"))))
    by (vm_compute; reflexivity).
  assert (Hf : forall r, In r (api_keys (challenged "0xAAAA")) ->
                 Db.key_hash r <> hashKey cfg env (makeApiKey (bytes 24 Byte.x6b)))
    by (intros r []).
  destruct (issued_key_lifetime cfg env _ _ _ _ _ _ _ _ Hc Hf)
    as (row & _ & Ht & Hd & He & _).
  exists row. split; [exact Ht|]. split; [exact Hd|exact He].
Defined.

Lemma challenge_round_trip_witness :
  authenticate cfg env (challenged "0xAAAA") (t0 + 300001) (signed_claim "0xAAAA")
  = inl (Reply 400 (Failure "Nonce expired. Request a new nonce." None)).
Proof.
  assert (Hn : nonce cfg env empty t0 (bytes 16 Byte.x61) (Some "0xAAAA")
               = (Reply 200 (NonceIssued "0xaaaa" (challenge_message "0xaaaa")),
                  challenged "0xAAAA"))
    by (vm_compute; reflexivity).
  assert (Ha : Server.getAddress env (cl_address (signed_claim "0xAAAA")) = Ok "0xaaaa")
    by (vm_compute; reflexivity).
  assert (Hr : JS.truthy (cleanRequester
                            (Some (or_empty (cl_requester (signed_claim "0xAAAA")))))
               = true) by (vm_compute; reflexivity).
  assert (Hs : JS.truthy (or_empty (cl_signature (signed_claim "0xAAAA"))) = true)
    by (vm_compute; reflexivity).
  destruct (challenge_round_trip cfg env empty t0 (bytes 16 Byte.x61) (Some "0xAAAA")
              "0xaaaa" (challenge_message "0xaaaa") (challenged "0xAAAA")
              (t0 + 300001) (signed_claim "0xAAAA") Hn Ha Hr Hs) as (_ & _ & _ & H).
  apply H. lia.
Defined.

Lemma nonce_replaces_pending_witness :
  challenge_message "0xaaaa"
  <> claim_message cfg "0xaaaa" (randomNonce (bytes 16 Byte.x62))
       (Date.toISOString (t0 + 1000)).
Proof.
  assert (H1 : nonce cfg env empty t0 (bytes 16 Byte.x61) (Some "0xAAAA")
               = (Reply 200 (NonceIssued "0xaaaa" (challenge_message "0xaaaa")),
                  challenged "0xAAAA"))
    by (vm_compute; reflexivity).
  assert (H2 : nonce cfg env (challenged "0xAAAA") (t0 + 1000) (bytes 16 Byte.x62)
                 (Some "0xaaaa")
               = (Reply 200 (NonceIssued "0xaaaa"
                               (claim_message cfg "0xaaaa" (randomNonce (bytes 16 Byte.x62))
                                  (Date.toISOString (t0 + 1000)))),
                  snd (nonce cfg env (challenged "0xAAAA") (t0 + 1000) (bytes 16 Byte.x62)
                         (Some "0xaaaa"))))
    by (vm_compute; reflexivity).
  destruct (nonce_replaces_pending cfg env _ _ _ _ _ _ _ _ _ _ _ _ H1 H2) as (_ & _ & H).
  apply H. discriminate.
Defined.

Lemma counters_typed_empty : counters_typed (redis empty).
Proof.
  intros k e H. change (redis empty) with (∅ : gmap string Redis.entry) in H.
  rewrite lookup_empty in H. discriminate H.
Qed.


Lemma counters_typed_invariant_witness :
  counters_typed (redis (snd (roast cfg env empty t0 anon))).
Proof.
  destruct (counters_typed_invariant cfg env empty counters_typed_empty) as (_ & _ & H).
  apply H.
Defined.


Lemma quota_counters_separate_witness :
  daily_key "free-ip" (utcDayKey t0) "1.2.3.4"
  = daily_key "free-ip" (utcDayKey (t0 + 1000)) "1.2.3.4".
Proof.
  assert (H2 : Date.in_range (t0 + 1000)) by (unfold Date.in_range, t0; lia).
  destruct (quota_counters_separate t0 (t0 + 1000) in_range_t0 H2) as (_ & H & _).
  apply H. split; reflexivity.
Defined.

Lemma entitlement_route_predicts_claim_witness :
  status (fst (claim cfg env (challenged "0xBBBB") (t0 + 1000) (bytes 24 Byte.x6b)
                 (signed_claim "0xBBBB"))) = 402.
Proof.
  assert (Ha : authenticate cfg env (challenged "0xBBBB") (t0 + 1000)
                 (signed_claim "0xBBBB") = inr ("0xbbbb", "Bot1"))
    by (vm_compute; reflexivity).
  assert (Hr : entitlement_route cfg env (t0 + 1000) (cl_address (signed_claim "0xBBBB"))
               = inr (mkEntitlementInfo "0xbbbb" 1 1000000000 false))
    by (vm_compute; reflexivity).
  pose proof (entitlement_route_predicts_claim cfg env (challenged "0xBBBB") (t0 + 1000)
                (bytes 24 Byte.x6b) (signed_claim "0xBBBB") "0xbbbb" "Bot1" Ha) as H.
  cbv zeta in H. rewrite Hr in H. destruct H as (_ & H & _).
  apply H. left. reflexivity.
Defined.

Lemma insertApiKey_adds_only_witness :
  exists r, Db.wallet_address r = None /\ Db.daily_limit r = Some 7
            /\ Db.entitlement_expires_at r = None.
Proof.
  assert (Hi : Upsert.insertApiKey lenient [] "hash-c" EmptyString "basic" (Some 7) None
               = Ok [Db.mkRow "hash-c" None "basic" (Some 7) true None None None None None])
    by reflexivity.
  destruct (insertApiKey_adds_only lenient [] _ "hash-c" EmptyString "basic" (Some 7) None Hi)
    as (r & _ & _ & _ & Hd & He & Hw & _).
  exists r. split; [exact Hw|]. split; [exact Hd|exact He].
Defined.

Lemma anonymous_ceiling_witness :
  status (fst (roast cfg env ceiling_reached t0 anon)) = 429.
Proof.
  assert (Hp : precheck cfg anon = None) by (vm_compute; reflexivity).
  assert (Hh : hadAuth (or_empty (rq_authorization anon)) = false) by reflexivity.
  assert (Hc : countable t0 (redis ceiling_reached)
                 (daily_key "free-ip" (utcDayKey t0) (rq_ip anon)))
    by (vm_compute; reflexivity).
  assert (Hl : FREE_IP_DAILY_LIMIT cfg
               <= count_of t0 (redis ceiling_reached)
                    (daily_key "free-ip" (utcDayKey t0) (rq_ip anon)))
    by (vm_compute; discriminate).
  destruct (anonymous_ceiling cfg env ceiling_reached t0 anon in_range_t0 Hp Hh Hc Hl)
    as (db' & Hr & _).
  rewrite Hr. reflexivity.
Defined.

End MoreScenarios.

(** * The gates of the roast route and the secret of a claim *)

Section Gates.
Import Server.
Variable cfg : Config.
Variable E : Env.

(** What a request that passed every check is answered. *)
Lemma generate_status requester name message :
  In (status (generate E requester name message)) [200; 500; 502].
Proof.
  destruct (generate_shape E requester name message) as [->|[->|(out & _ & _ & ->)]];
    cbn; auto.
Qed.

Lemma generate_not_429 requester name message :
  status (generate E requester name message) <> 429.
Proof.
  pose proof (generate_status requester name message) as H. cbn in H.
  intros Hs. rewrite Hs in H. intuition discriminate.
Qed.

(** The check of a key, in full. *)
Lemma key_quota_outcome now (db : gmap string Redis.entry) h rec :
  Date.in_range now ->
  let today := utcDayKey now in
  let key := daily_key "key" today h in
  let L := tierLimit cfg rec in
  let n := count_of now db key + 1 in
  countable now db key ->
  exists db',
    key_quota cfg now db (h, rec)
    = (if L <? n
       then Some (Reply 429 (QuotaFailure
                    (JS.toLowerCase (if JS.truthy (Db.tier rec) then Db.tier rec
                                     else "basic") +:+ " daily limit reached")
                    None today L))
       else None, db')
    /\ count_of now db' key = n
    /\ (forall k, k <> key -> db' !! k = db !! k).
Proof.
  intros Hr today key L n Hc.
  destruct (rateLimitDaily_spec now db "key" h L Hr Hc)
    as (u & db' & Hrl & Hu & Hday & _ & Hg & _ & _ & Hf).
  exists db'. split; [|split; [apply count_of_get; exact Hg|exact Hf]].
  unfold key_quota, quota_reply. cbn [fst snd]. fold L. rewrite Hrl, Hu, Hday.
  subst today key n. destruct (L <? _); reflexivity.
Qed.

(** The checks of an anonymous request, in full. *)
Lemma free_quota_outcome now (db : gmap string Redis.entry) ip requester :
  Date.in_range now ->
  let today := utcDayKey now in
  let ikey := daily_key "free-ip" today ip in
  let fkey := daily_key "free" today (ip +:+ ":" +:+ JS.toLowerCase requester) in
  let ni := count_of now db ikey + 1 in
  let nf := count_of now db fkey + 1 in
  countable now db ikey -> countable now db fkey ->
  exists db',
    free_quota cfg now db ip requester
    = (if FREE_IP_DAILY_LIMIT cfg <? ni
       then Some (Reply 429 (QuotaFailure "Free IP limit reached"
                               (Some "Too many free requests from this IP today")
                               today (FREE_IP_DAILY_LIMIT cfg)))
       else if FREE_DAILY_LIMIT cfg <? nf
       then Some (Reply 429 (QuotaFailure "Free daily limit reached"
                     (Some "Add Authorization: Bearer <API_KEY> for higher limits")
                     today (FREE_DAILY_LIMIT cfg)))
       else None, db')
    /\ count_of now db' ikey = ni
    /\ count_of now db' fkey
       = (if FREE_IP_DAILY_LIMIT cfg <? ni then count_of now db fkey else nf)
    /\ (forall k, k <> ikey -> k <> fkey -> db' !! k = db !! k).
Proof.
  intros Hr today ikey fkey ni nf Hi Hf.
  destruct (incr_daily_spec now db ikey Hr Hi) as (db1 & Hi1 & Hgi & _ & _ & Hfr).
  unfold free_quota, quota_reply.
  change ("roaster:daily:free-ip:" +:+ utcDayKey now +:+ ":" +:+ ip) with ikey.
  rewrite Hi1. fold today. subst ni.
  destruct (FREE_IP_DAILY_LIMIT cfg <? _) eqn:Hip.
  { exists db1. split; [reflexivity|]. split; [apply count_of_get; exact Hgi|].
    split; [apply count_of_frame, Hfr, free_keys_differ|].
    intros k H1 _. apply Hfr. exact H1. }
  assert (Hget : Redis.get now db1 fkey = Redis.get now db fkey)
    by (apply get_frame, Hfr, free_keys_differ).
  assert (Hf1 : countable now db1 fkey) by (unfold countable; rewrite Hget; exact Hf).
  destruct (rateLimitDaily_spec now db1 "free" _ (FREE_DAILY_LIMIT cfg) Hr Hf1)
    as (u & db' & Hrl & Hu & _ & _ & Hg & _ & _ & Hfr').
  assert (Hn : count_of now db1 fkey = count_of now db fkey)
    by (unfold count_of; rewrite Hget; reflexivity).
  fold today in Hrl, Hu, Hg, Hfr'. fold fkey in Hrl, Hu, Hg, Hfr'.
  rewrite Hn in Hu, Hg.
  exists db'. rewrite Hrl, Hu. subst nf.
  split; [destruct (FREE_DAILY_LIMIT cfg <? _); reflexivity|]. split; [|split].
  - rewrite (count_of_frame now db1 db' ikey).
    + apply count_of_get. exact Hgi.
    + apply Hfr'. intros Heq. symmetry in Heq. revert Heq. apply free_keys_differ.
  - apply count_of_get. exact Hg.
  - intros k H1 H2. rewrite Hfr' by exact H2. apply Hfr. exact H1.
Qed.

End Gates.

Section GateTheorems.
Import Server.
Variable cfg : Config.
Variable E : Env.

(** C4, as amended.  For a well-formed roast request at an instant from
    1970 to 9999, with [n] the value of its counter after the increment
    and [L] the limit of the scope (the limit of the key for a request
    with a usable key; for a request without a Bearer header the
    per-address ceiling, checked first, then the limit per address and
    requester): the request is answered 429, reporting [daily_limit = L],
    exactly when [L < n], and is served when [n <= L]; either way the
    counter keeps the increment, so a rejected attempt uses up a slot.
    With [L = 5] the requests that bring the counter to 1..5 pass and the
    one that brings it to 6 is rejected ([six_anonymous_requests]); the
    counter is the day's only while it lives
    ([sixth_request_same_day_passes]). *)
Theorem quota_gate st now req :
  precheck cfg req = None -> Date.in_range now ->
  let today := utcDayKey now in
  let r := roast cfg E st now req in
  let served := generate E (cleanRequester (rq_requester req))
                  (JS.slice0 64 (or_empty (rq_name req)))
                  (JS.slice0 800 (or_empty (rq_message req))) in
  (forall token rec,
     bearer_token (or_empty (rq_authorization req)) = Some token ->
     Db.getKeyRecordByHash now (api_keys st) (hashKey cfg E token) = Some rec ->
     let key := daily_key "key" today (hashKey cfg E token) in
     let L := tierLimit cfg rec in
     let n := count_of now (redis st) key + 1 in
     countable now (redis st) key ->
     count_of now (redis (snd r)) key = n
     /\ (n <= L -> fst r = served)
     /\ (L < n -> exists error, fst r = Reply 429 (QuotaFailure error None today L))
     /\ (status (fst r) = 429 <-> L < n))
  /\ (hadAuth (or_empty (rq_authorization req)) = false ->
      let ikey := daily_key "free-ip" today (rq_ip req) in
      let fkey := daily_key "free" today
                    (rq_ip req +:+ ":"
                     +:+ JS.toLowerCase (cleanRequester (rq_requester req))) in
      let Li := FREE_IP_DAILY_LIMIT cfg in
      let L := FREE_DAILY_LIMIT cfg in
      let ni := count_of now (redis st) ikey + 1 in
      let n := count_of now (redis st) fkey + 1 in
      countable now (redis st) ikey -> countable now (redis st) fkey ->
      count_of now (redis (snd r)) ikey = ni
      /\ (Li < ni ->
          fst r = Reply 429 (QuotaFailure "Free IP limit reached"
                               (Some "Too many free requests from this IP today")
                               today Li)
          /\ count_of now (redis (snd r)) fkey = count_of now (redis st) fkey)
      /\ (ni <= Li ->
          count_of now (redis (snd r)) fkey = n
          /\ (n <= L -> fst r = served)
          /\ (L < n ->
              fst r = Reply 429 (QuotaFailure "Free daily limit reached"
                         (Some "Add Authorization: Bearer <API_KEY> for higher limits")
                         today L)))
      /\ (status (fst r) = 429 <-> Li < ni \/ L < n)).
Proof.
  intros Hp Hr today r served. split.
  - intros token rec Htok Hrec key L n Hc.
    destruct (key_quota_outcome cfg now (redis st) (hashKey cfg E token) rec Hr Hc)
      as (db' & Hq & Hcnt & _).
    fold today key L n in Hq, Hcnt.
    assert (Hroast : r = (match (if L <? n
                                then Some (Reply 429 (QuotaFailure
                                       (JS.toLowerCase
                                          (if JS.truthy (Db.tier rec) then Db.tier rec
                                           else "basic") +:+ " daily limit reached")
                                       None today L))
                                else None) with
                         | Some bad => bad
                         | None => served
                         end,
                        mkState db' (Db.touchKeyUsage now (api_keys st)
                                       (hashKey cfg E token)))).
    { unfold r, roast. rewrite Hp, getKeyRecord_token, Htok, Hrec.
      unfold serve_key. rewrite Hq. destruct (L <? n); reflexivity. }
    rewrite Hroast. cbn [fst snd redis]. split; [exact Hcnt|].
    destruct (Z.ltb_spec L n) as [Hlt|Hge].
    + split; [intros; lia|]. split; [intros _; eexists; reflexivity|].
      split; [intros _; exact Hlt|intros _; reflexivity].
    + split; [intros _; reflexivity|]. split; [intros; lia|].
      split; [|intros; lia]. intros H429. exfalso. revert H429. apply generate_not_429.
  - intros Hh ikey fkey Li L ni n Hi Hf.
    destruct (free_quota_outcome cfg now (redis st) (rq_ip req)
                (cleanRequester (rq_requester req)) Hr Hi Hf)
      as (db' & Hq & Hci & Hcf & _).
    fold today ikey fkey Li L ni n in Hq, Hci, Hcf.
    assert (Hroast : r = (match (if Li <? ni
                                then Some (Reply 429 (QuotaFailure "Free IP limit reached"
                                             (Some "Too many free requests from this IP today")
                                             today Li))
                                else if L <? n
                                then Some (Reply 429 (QuotaFailure "Free daily limit reached"
                                        (Some "Add Authorization: Bearer <API_KEY> for higher limits")
                                        today L))
                                else None) with
                         | Some bad => bad
                         | None => served
                         end,
                        mkState db' (api_keys st))).
    { unfold r. rewrite roast_without_record;
        [|exact Hp|rewrite (no_header_no_record cfg E) by exact Hh; reflexivity].
      rewrite Hh. unfold serve_free. rewrite Hq.
      destruct (Li <? ni); [reflexivity|]. destruct (L <? n); reflexivity. }
    rewrite Hroast. cbn [fst snd redis]. split; [exact Hci|]. rewrite Hcf.
    destruct (Z.ltb_spec Li ni) as [Hlt|Hge].
    + split; [intros _; split; reflexivity|]. split; [intros; lia|].
      split; [intros _; left; exact Hlt|intros _; reflexivity].
    + split; [intros; lia|].
      destruct (Z.ltb_spec L n) as [Hlt'|Hge'].
      * split; [intros _; split; [reflexivity|]; split; [intros; lia|intros _; reflexivity]|].
        split; [intros _; right; exact Hlt'|intros _; reflexivity].
      * split; [intros _; split; [reflexivity|]; split; [intros _; reflexivity|intros; lia]|].
        split; [|intros [?|?]; lia].
        intros H429. exfalso. revert H429. apply generate_not_429.
Qed.

(** C5, as amended.  A request that fails the checks of the
    configuration and of the body is answered 500 or 400 whatever secret
    it presents.  For a well-formed request: if the Authorization header
    carries a Bearer token that resolves to no usable key, or passes the
    test [/^Bearer\s+/i] without a token, the answer is 401 "Invalid or
    expired API key" and nothing changes (no quota counter is touched);
    if the header fails that test (it is absent, or of another scheme)
    the request is handled under the anonymous limits: it is counted on
    the per-address counter and, under that ceiling, on the counter per
    address and requester, it is answered 429 exactly when one of the two
    limits is exceeded and served otherwise, never with 401, and no key
    record is touched. *)
Theorem unresolved_secret_rejected st now req :
  let header := or_empty (rq_authorization req) in
  let r := roast cfg E st now req in
  match precheck cfg req with
  | Some bad => r = (bad, st) /\ (status bad = 500 \/ status bad = 400)
  | None =>
      (forall token,
         bearer_token header = Some token ->
         Db.getKeyRecordByHash now (api_keys st) (hashKey cfg E token) = None ->
         r = (Reply 401 (Failure "Invalid or expired API key" None), st))
      /\ (hadAuth header = true -> bearer_token header = None ->
          r = (Reply 401 (Failure "Invalid or expired API key" None), st))
      /\ (hadAuth header = false -> Date.in_range now ->
          let today := utcDayKey now in
          let ikey := daily_key "free-ip" today (rq_ip req) in
          let fkey := daily_key "free" today
                        (rq_ip req +:+ ":"
                         +:+ JS.toLowerCase (cleanRequester (rq_requester req))) in
          let ni := count_of now (redis st) ikey + 1 in
          let n := count_of now (redis st) fkey + 1 in
          countable now (redis st) ikey -> countable now (redis st) fkey ->
          api_keys (snd r) = api_keys st
          /\ count_of now (redis (snd r)) ikey = ni
          /\ (status (fst r) = 429
              <-> FREE_IP_DAILY_LIMIT cfg < ni \/ FREE_DAILY_LIMIT cfg < n)
          /\ (ni <= FREE_IP_DAILY_LIMIT cfg -> n <= FREE_DAILY_LIMIT cfg ->
              count_of now (redis (snd r)) fkey = n
              /\ fst r = generate E (cleanRequester (rq_requester req))
                           (JS.slice0 64 (or_empty (rq_name req)))
                           (JS.slice0 800 (or_empty (rq_message req))))
          /\ status (fst r) <> 401)
  end.
Proof.
  intros header r. destruct (precheck cfg req) as [bad|] eqn:Hp.
  { split; [unfold r, roast; rewrite Hp; reflexivity|].
    unfold precheck in Hp.
    destruct (negb (truthy_opt _)); [injection Hp as <-; left; reflexivity|].
    destruct (negb (JS.truthy (cleanRequester _)));
      [injection Hp as <-; right; reflexivity|].
    destruct (_ && _); [injection Hp as <-; right; reflexivity|discriminate]. }
  split; [|split].
  - intros token Htok Hnone. unfold r.
    rewrite roast_without_record;
      [|exact Hp|rewrite getKeyRecord_token; fold header; rewrite Htok, Hnone; reflexivity].
    fold header. rewrite (bearer_token_hadAuth _ _ Htok). reflexivity.
  - intros Hh Hnone. unfold r.
    rewrite roast_without_record;
      [|exact Hp|rewrite getKeyRecord_token; fold header; rewrite Hnone; reflexivity].
    fold header. rewrite Hh. reflexivity.
  - intros Hh Hr today ikey fkey ni n Hi Hf.
    destruct (free_quota_outcome cfg now (redis st) (rq_ip req)
                (cleanRequester (rq_requester req)) Hr Hi Hf)
      as (db' & Hq & Hci & Hcf & _).
    fold today ikey fkey ni n in Hq, Hci, Hcf.
    assert (Hroast : r = (match (if FREE_IP_DAILY_LIMIT cfg <? ni
                                then Some (Reply 429 (QuotaFailure "Free IP limit reached"
                                             (Some "Too many free requests from this IP today")
                                             today (FREE_IP_DAILY_LIMIT cfg)))
                                else if FREE_DAILY_LIMIT cfg <? n
                                then Some (Reply 429 (QuotaFailure "Free daily limit reached"
                                        (Some "Add Authorization: Bearer <API_KEY> for higher limits")
                                        today (FREE_DAILY_LIMIT cfg)))
                                else None) with
                         | Some bad => bad
                         | None => generate E (cleanRequester (rq_requester req))
                                     (JS.slice0 64 (or_empty (rq_name req)))
                                     (JS.slice0 800 (or_empty (rq_message req)))
                         end,
                        mkState db' (api_keys st))).
    { unfold r. rewrite roast_without_record;
        [|exact Hp|rewrite (no_header_no_record cfg E) by exact Hh; reflexivity].
      fold header. rewrite Hh. unfold serve_free. rewrite Hq.
      destruct (FREE_IP_DAILY_LIMIT cfg <? ni); [reflexivity|].
      destruct (FREE_DAILY_LIMIT cfg <? n); reflexivity. }
    rewrite Hroast. cbn [fst snd redis api_keys].
    split; [reflexivity|]. split; [exact Hci|]. rewrite Hcf.
    destruct (Z.ltb_spec (FREE_IP_DAILY_LIMIT cfg) ni) as [Hlt|Hge].
    + split; [split; [intros _; left; exact Hlt|intros _; reflexivity]|].
      split; [intros; lia|discriminate].
    + destruct (Z.ltb_spec (FREE_DAILY_LIMIT cfg) n) as [Hlt'|Hge'].
      * split; [split; [intros _; right; exact Hlt'|intros _; reflexivity]|].
        split; [intros; lia|discriminate].
      * split; [split; [|intros [?|?]; lia]|].
        { intros H429. exfalso. revert H429. apply generate_not_429. }
        split; [intros _ _; split; reflexivity|].
        pose proof (generate_status E (cleanRequester (rq_requester req))
                      (JS.slice0 64 (or_empty (rq_name req)))
                      (JS.slice0 800 (or_empty (rq_message req)))) as Hg.
        intros H401. rewrite H401 in Hg. cbn in Hg. intuition discriminate.
Qed.

Lemma makeApiKey_inj rnd rnd' : makeApiKey rnd = makeApiKey rnd' -> rnd = rnd'.
Proof.
  unfold makeApiKey. intros H. apply app_inv_head in H.
  apply base64url_inj. exact H.
Qed.

(** C8.  The state a claim leaves depends on the generated secret only
    through [sha256(secret + SALT)]: there is a function of that hash
    alone that gives it.  A reply carries a key only when the claim
    succeeded (status 200); the key is then ["rk_"] followed by the
    base64url text of the random bytes of that claim, and the one row
    added to the table holds [sha256(key + SALT)], next to values that
    come from the request and the ledger.  Another claim, on any state
    and at any instant, returns the same key only if it draws the same
    random bytes; no reply of the roast, nonce and entitlement operations
    carries a key. *)
Theorem secret_returned_once st now body :
  (exists f : string -> State,
      forall rnd, snd (claim cfg E st now rnd body)
                  = f (sha256_hex E (makeApiKey rnd +:+ SALT cfg)))
  /\ (forall rnd,
        let r := fst (claim cfg E st now rnd body) in
        let t' := api_keys (snd (claim cfg E st now rnd body)) in
        match api_key_of r with
        | Some k =>
            k = "rk_" +:+ Encoding.base64url rnd /\ status r = 200
            /\ exists walletLc tierName exp requester,
                 t' = (Db.revoke_active now walletLc (api_keys st)
                       ++ [Upsert.new_row (sha256_hex E (k +:+ SALT cfg)) walletLc
                             tierName None None (Some exp) (Some requester)])%list
        | None => status r <> 200
        end)
  /\ (forall rnd st2 now2 rnd2 body2 k,
        api_key_of (fst (claim cfg E st now rnd body)) = Some k ->
        api_key_of (fst (claim cfg E st2 now2 rnd2 body2)) = Some k ->
        rnd2 = rnd)
  /\ (forall st' now' req, api_key_of (fst (roast cfg E st' now' req)) = None)
  /\ (forall st' now' rnd' address,
        api_key_of (fst (nonce cfg E st' now' rnd' address)) = None)
  /\ (forall now' address bad,
        Routes.entitlement_route cfg E now' address = inl bad -> api_key_of bad = None).
Proof.
  assert (Hkey : forall st1 now1 rnd1 body1,
             let r := fst (claim cfg E st1 now1 rnd1 body1) in
             let t' := api_keys (snd (claim cfg E st1 now1 rnd1 body1)) in
             match api_key_of r with
             | Some k =>
                 k = makeApiKey rnd1 /\ status r = 200
                 /\ exists walletLc tierName exp requester,
                      t' = (Db.revoke_active now1 walletLc (api_keys st1)
                            ++ [Upsert.new_row (hashKey cfg E (makeApiKey rnd1)) walletLc
                                  tierName None None (Some exp) (Some requester)])%list
             | None => status r <> 200
             end).
  { intros st1 now1 rnd1 body1. unfold claim.
    destruct (authenticate cfg E st1 now1 body1) as [r|[addr rq]] eqn:Ha.
    { apply authenticate_inl in Ha as [Hk Hs]. cbv zeta. simpl fst. rewrite Hk. exact Hs. }
    unfold issue. destruct (entitlement E addr) as [[tier e]|m]; [|simpl; discriminate].
    destruct (effTier tier e (now1 / 1000) =? 0); [simpl; discriminate|].
    pose proof (mint_reply E (mkState (Redis.del (redis st1) (nonce_key addr)) (api_keys st1))
                  now1 addr rq (effTier tier e (now1 / 1000)) (Number_of_bigint e)
                  (makeApiKey rnd1) (hashKey cfg E (makeApiKey rnd1))) as Hm.
    cbv zeta. destruct (api_key_of _).
    + destruct Hm as (-> & -> & ->). repeat split. eexists _, _, _, _. reflexivity.
    + rewrite Hm. discriminate. }
  split; [|split; [|split; [|split; [|split]]]].
  - destruct (authenticate cfg E st now body) as [r|[addr rq]] eqn:Ha.
    { exists (fun _ => st). intros rnd. unfold claim. rewrite Ha. reflexivity. }
    destruct (entitlement E addr) as [[tier e]|m] eqn:He.
    2:{ eexists (fun _ => _). intros rnd. unfold claim. rewrite Ha. unfold issue.
        rewrite He. reflexivity. }
    destruct (effTier tier e (now / 1000) =? 0) eqn:H0.
    { eexists (fun _ => _). intros rnd. unfold claim. rewrite Ha. unfold issue.
      rewrite He, H0. reflexivity. }
    exists (fun h => snd (mint E (mkState (Redis.del (redis st) (nonce_key addr)) (api_keys st))
                            now addr rq (effTier tier e (now / 1000))
                            (Number_of_bigint e) EmptyString h)).
    intros rnd. unfold claim. rewrite Ha. unfold issue. rewrite He, H0.
    apply (mint_state E).
  - intros rnd. pose proof (Hkey st now rnd body) as H. cbv zeta in H |- *.
    destruct (api_key_of _) as [k|]; [|exact H].
    destruct H as (Hk & Hs & Hrow). split; [exact Hk|]. split; [exact Hs|].
    rewrite Hk. exact Hrow.
  - intros rnd st2 now2 rnd2 body2 k H1 H2.
    pose proof (Hkey st now rnd body) as K1. pose proof (Hkey st2 now2 rnd2 body2) as K2.
    cbv zeta in K1, K2. rewrite H1 in K1. rewrite H2 in K2.
    destruct K1 as (K1 & _). destruct K2 as (K2 & _).
    apply makeApiKey_inj. congruence.
  - intros st' now' req. unfold roast, serve_free, serve_key, free_quota, key_quota,
      rateLimitDaily, generate, precheck, quota_reply.
    repeat break_inner; reflexivity.
  - intros st' now' rnd' address. unfold nonce, requireRoaster.
    repeat break_inner; reflexivity.
  - intros now' address bad. unfold Routes.entitlement_route, requireRoaster.
    repeat break_inner; intros H; try discriminate H; injection H as <-; reflexivity.
Qed.

End GateTheorems.

Section RevisedScenarios.
Import Server Sample Cases.

(** The first anonymous request of the day and the first request of a
    new key pass and are counted. *)
Lemma quota_gate_witness :
  (fst (roast cfg env empty t0 anon) = generate env "Bot1" "SomeMolty" EmptyString
   /\ count_of t0 (redis (snd (roast cfg env empty t0 anon)))
        (daily_key "free" (utcDayKey t0) "1.2.3.4:bot1") = 1)
  /\ (fst (roast cfg env claimed (t0 + 2000) keyed)
      = generate env "Bot1" "SomeMolty" EmptyString
      /\ count_of (t0 + 2000) (redis (snd (roast cfg env claimed (t0 + 2000) keyed)))
           (daily_key "key" (utcDayKey (t0 + 2000))
              (hashKey cfg env (makeApiKey (bytes 24 Byte.x6b)))) = 1).
Proof.
  split.
  - assert (Hp : precheck cfg anon = None) by (vm_compute; reflexivity).
    assert (Hh : hadAuth (or_empty (rq_authorization anon)) = false) by reflexivity.
    assert (Hi : countable t0 (redis empty)
                   (daily_key "free-ip" (utcDayKey t0) (rq_ip anon)))
      by (vm_compute; exact I).
    assert (Hf : countable t0 (redis empty)
                   (daily_key "free" (utcDayKey t0)
                      (rq_ip anon +:+ ":"
                       +:+ JS.toLowerCase (cleanRequester (rq_requester anon)))))
      by (vm_compute; exact I).
    destruct (quota_gate cfg env empty t0 anon Hp in_range_t0) as [_ H].
    destruct (H Hh Hi Hf) as (_ & _ & Hpass & _).
    assert (Hle : count_of t0 (redis empty)
                    (daily_key "free-ip" (utcDayKey t0) (rq_ip anon)) + 1
                  <= FREE_IP_DAILY_LIMIT cfg) by (vm_compute; discriminate).
    destruct (Hpass Hle) as (Hc & Hserved & _).
    split; [apply Hserved; vm_compute; discriminate|exact Hc].
  - assert (Hp : precheck cfg keyed = None) by (vm_compute; reflexivity).
    assert (Hr : Date.in_range (t0 + 2000)) by (unfold Date.in_range, t0; lia).
    assert (Ht : bearer_token (or_empty (rq_authorization keyed))
                 = Some (makeApiKey (bytes 24 Byte.x6b))) by (vm_compute; reflexivity).
    assert (Hrec : Db.getKeyRecordByHash (t0 + 2000) (api_keys claimed)
                     (hashKey cfg env (makeApiKey (bytes 24 Byte.x6b)))
                   = Some (Upsert.new_row (hashKey cfg env (makeApiKey (bytes 24 Byte.x6b)))
                             "0xaaaa" "pro" None None (Some 1800000000000) (Some "Bot1")))
      by (vm_compute; reflexivity).
    assert (Hc : countable (t0 + 2000) (redis claimed)
                   (daily_key "key" (utcDayKey (t0 + 2000))
                      (hashKey cfg env (makeApiKey (bytes 24 Byte.x6b)))))
      by (vm_compute; exact I).
    destruct (quota_gate cfg env claimed (t0 + 2000) keyed Hp Hr) as [H _].
    destruct (H _ _ Ht Hrec Hc) as (Hcnt & Hserved & _).
    split; [apply Hserved; vm_compute; discriminate|exact Hcnt].
Defined.

(** Against C4 as stated: five anonymous requests at 10:10:00.500 pass and
    set a counter that is gone at 23:59:59.500; a sixth request at
    23:59:59.800 of the same UTC day, with the limit 5, passes and counts
    as the first. *)
Lemma sixth_request_same_day_passes :
  let late := 1793663999800 in
  let '(replies, st5) := roasts 5 empty t0 anon in
  List.map status replies = [200; 200; 200; 200; 200]
  /\ FREE_DAILY_LIMIT cfg = 5
  /\ utcDayKey late = utcDayKey t0
  /\ count_of t0 (redis st5) (daily_key "free" (utcDayKey t0) "1.2.3.4:bot1") = 5
  /\ status (fst (roast cfg env st5 late anon)) = 200
  /\ count_of late (redis (snd (roast cfg env st5 late anon)))
       (daily_key "free" (utcDayKey late) "1.2.3.4:bot1") = 1.
Proof. vm_compute. repeat split; reflexivity. Qed.

(** An unknown key is refused. *)
Lemma unresolved_secret_rejected_witness :
  roast cfg env empty t0
        (mkRoastRequest (Some "Bearer rk_unknown") "1.2.3.4" (Some "Bot1")
                        (Some "SomeMolty") None)
  = (Reply 401 (Failure "Invalid or expired API key" None), empty).
Proof.
  assert (Ht : bearer_token (or_empty (Some "Bearer rk_unknown")) = Some "rk_unknown")
    by (vm_compute; reflexivity).
  assert (Hp : precheck cfg (mkRoastRequest (Some "Bearer rk_unknown") "1.2.3.4"
                               (Some "Bot1") (Some "SomeMolty") None) = None)
    by (vm_compute; reflexivity).
  pose proof (unresolved_secret_rejected cfg env empty t0
                (mkRoastRequest (Some "Bearer rk_unknown") "1.2.3.4" (Some "Bot1")
                                (Some "SomeMolty") None)) as H.
  cbv zeta in H. rewrite Hp in H. destruct H as (H401 & _).
  exact (H401 "rk_unknown" Ht eq_refl).
Defined.

(** Against C5 as stated: a request with an unknown key and no requester
    name is answered 400 by the check of the body, not 401. *)
Lemma unknown_key_without_requester_gets_400 :
  let req := mkRoastRequest (Some "Bearer rk_unknown") "1.2.3.4" None
                            (Some "SomeMolty") None in
  bearer_token (or_empty (rq_authorization req)) = Some "rk_unknown"
  /\ Db.getKeyRecordByHash t0 (api_keys empty) (hashKey cfg env "rk_unknown") = None
  /\ status (fst (roast cfg env empty t0 req)) = 400.
Proof. vm_compute. repeat split; reflexivity. Qed.

End RevisedScenarios.
